(** * Medicine-label extraction pipeline: date parsing, reconciliation,
      value normalisation, extraction cascade and OCR orchestration.

    A shallow embedding of the helper functions of [app.py]
    ([normalize_vertical], [find_first_match], [clean_extracted_value],
    [parse_date_flexible], [find_date_candidates], [add_months],
    [shelf_life_months], [reconcile_dates_from_text], [ocr_extract_text],
    [parse_date_from_gemini], [find_labeled_date_dt],
    [post_process_extracted_data], the extraction cascade, the batch
    fallback and the date stage of [index] and the date stage of
    [save_ocr]) together with the part of the
    Python runtime they rely on: [str] methods, the backtracking
    semantics of [re], [datetime.date] and [datetime.strptime].

    Text is modelled as lists of 8-bit characters; the character
    classifications below are those of Python on code points below 128. *)

From Stdlib Require Import ZArith List Ascii String Bool Lia Arith.
From Equations Require Import Equations.
Import ListNotations.

Local Open Scope Z_scope.

(** ** Python strings *)

Module Py.

Definition text := list ascii.

Definition s2l (s : string) : text := list_ascii_of_string s.

Arguments s2l s%_string_scope.

Definition code (c : ascii) : nat := nat_of_ascii c.

Definition is_digit (c : ascii) : bool :=
  (48 <=? code c)%nat && (code c <=? 57)%nat.

Definition is_upper (c : ascii) : bool :=
  (65 <=? code c)%nat && (code c <=? 90)%nat.

Definition is_lower (c : ascii) : bool :=
  (97 <=? code c)%nat && (code c <=? 122)%nat.

Definition is_alpha (c : ascii) : bool := is_upper c || is_lower c.

(** [c.isalnum()] for a one-character string. *)
Definition is_alnum (c : ascii) : bool := is_alpha c || is_digit c.

(** [\w]: letters, digits and the underscore. *)
Definition is_word (c : ascii) : bool := is_alnum c || (code c =? 95)%nat.

(** [str.isspace] and [\s]: tab, LF, VT, FF, CR, FS, GS, RS, US, space. *)
Definition is_space (c : ascii) : bool :=
  ((9 <=? code c)%nat && (code c <=? 13)%nat)
  || ((28 <=? code c)%nat && (code c <=? 32)%nat).

Definition lower_char (c : ascii) : ascii :=
  if is_upper c then ascii_of_nat (code c + 32) else c.

(** [s.lower()] *)
Definition lower (s : text) : text := map lower_char s.

Definition ascii_eqb (a b : ascii) : bool := (code a =? code b)%nat.

Fixpoint text_eqb (a b : text) : bool :=
  match a, b with
  | [], [] => true
  | x :: a', y :: b' => ascii_eqb x y && text_eqb a' b'
  | _, _ => false
  end.

(** [x in xs] for a list or set of strings. *)
Definition text_in (x : text) (xs : list text) : bool :=
  existsb (text_eqb x) xs.

Fixpoint lstrip (s : text) : text :=
  match s with
  | c :: s' => if is_space c then lstrip s' else s
  | [] => []
  end.

Definition rstrip (s : text) : text := rev (lstrip (rev s)).

(** [s.strip()] *)
Definition strip (s : text) : text := rstrip (lstrip s).

(** [s.split()]: the maximal runs of non-space characters.  [cur] is the
    token being read, reversed. *)
Fixpoint split_aux (s : text) (cur : text) : list text :=
  match s with
  | [] => match cur with [] => [] | _ => [rev cur] end
  | c :: s' =>
      if is_space c
      then match cur with
           | [] => split_aux s' []
           | _ => rev cur :: split_aux s' []
           end
      else split_aux s' (c :: cur)
  end.

Definition split (s : text) : list text := split_aux s [].

(** Line boundaries of [str.splitlines] below code point 128:
    LF, VT, FF, CR, FS, GS, RS; CR LF counts once. *)
Definition is_linebreak (c : ascii) : bool :=
  ((10 <=? code c)%nat && (code c <=? 13)%nat)
  || ((28 <=? code c)%nat && (code c <=? 30)%nat).

Fixpoint splitlines_aux (s : text) (cur : text) : list text :=
  match s with
  | [] => match cur with [] => [] | _ => [rev cur] end
  | c :: s' =>
      if is_linebreak c
      then rev cur ::
           match s' with
           | d :: s'' =>
               if ((code c =? 13) && (code d =? 10))%nat
               then splitlines_aux s'' []
               else splitlines_aux s' []
           | [] => []
           end
      else splitlines_aux s' (c :: cur)
  end.

(** [s.splitlines()] *)
Definition splitlines (s : text) : list text := splitlines_aux s [].

(** [sep.join(xs)] *)
Fixpoint join (sep : text) (xs : list text) : text :=
  match xs with
  | [] => []
  | [x] => x
  | x :: rest => x ++ sep ++ join sep rest
  end.

Definition digit_val (c : ascii) : Z := Z.of_nat (code c) - 48.

Fixpoint int_digits (s : text) (acc : Z) : option Z :=
  match s with
  | [] => Some acc
  | c :: s' => if is_digit c then int_digits s' (10 * acc + digit_val c) else None
  end.

(** [int(s)] on an unsigned decimal numeral, surrounding whitespace
    allowed; [None] stands for [ValueError]. *)
Definition int (s : text) : option Z :=
  match strip s with
  | [] => None
  | t => int_digits t 0
  end.

(** Truthiness of a string. *)
Definition truthy (s : text) : bool :=
  match s with [] => false | _ => true end.

(** [s.replace(a, b)] for one-character [a] and [b]. *)
Definition replace_char (a b : ascii) (s : text) : text :=
  map (fun c => if ascii_eqb c a then b else c) s.

End Py.

Import Py.

(** ** Regular expressions with the backtracking semantics of [re]

    The patterns of the program only repeat character classes, so the
    syntax has bounded and unbounded repetition of a class, greedy or
    lazy, next to sequence, ordered alternative, capturing groups and
    the zero-width assertions the patterns use.  Alternatives are tried
    left to right and a repetition tries the longest run first, as the
    [re] engine does; the first way to reach the end of the pattern is
    the match. *)

Module Re.

Inductive regex : Type :=
| RChar (p : ascii -> bool)
| REps
| RSeq (r1 r2 : regex)
| RAlt (r1 r2 : regex)
| RRep (p : ascii -> bool) (lo : nat) (hi : option nat)
| RLazy (p : ascii -> bool) (lo : nat) (hi : option nat)
| RGroup (n : nat) (r : regex)
| RLook (r : regex)
| RWordB
| RBegin
| REnd.

Definition captures := list (nat * text).

Fixpoint lookup (n : nat) (caps : captures) : option text :=
  match caps with
  | [] => None
  | (k, v) :: rest => if (k =? n)%nat then Some v else lookup n rest
  end.

Definition word_opt (c : option ascii) : bool :=
  match c with Some x => is_word x | None => false end.

(** [\b] between the character before the position and the one after. *)
Definition at_boundary (prev : option ascii) (s : text) : bool :=
  negb (Bool.eqb (word_opt prev) (word_opt (hd_error s))).

(** [$] without MULTILINE: the end, or just before a final line feed. *)
Definition at_end (s : text) : bool :=
  match s with
  | [] => true
  | [c] => (code c =? 10)%nat
  | _ => false
  end.

Definition hi_open (hi : option nat) : bool :=
  match hi with Some O => false | _ => true end.

Definition hi_pred (hi : option nat) : option nat := option_map pred hi.

Section Matcher.

Context {A : Type}.

Definition cont := option ascii -> text -> captures -> option A.

Definition orelse (x : option A) (y : option A) : option A :=
  match x with Some v => Some v | None => y end.

(** Greedy repetition of a class: one more character first. *)
Fixpoint rep_greedy (p : ascii -> bool) (lo : nat) (hi : option nat)
    (prev : option ascii) (s : text) (caps : captures) (k : cont) : option A :=
  let stop := match lo with O => k prev s caps | S _ => None end in
  match s with
  | c :: s' =>
      if p c && hi_open hi
      then orelse (rep_greedy p (pred lo) (hi_pred hi) (Some c) s' caps k) stop
      else stop
  | [] => stop
  end.

(** Lazy repetition of a class: stop first. *)
Fixpoint rep_lazy (p : ascii -> bool) (lo : nat) (hi : option nat)
    (prev : option ascii) (s : text) (caps : captures) (k : cont) : option A :=
  let stop := match lo with O => k prev s caps | S _ => None end in
  match s with
  | c :: s' =>
      if p c && hi_open hi
      then orelse stop (rep_lazy p (pred lo) (hi_pred hi) (Some c) s' caps k)
      else stop
  | [] => stop
  end.

End Matcher.

Definition consumed (s rest : text) : text :=
  firstn (List.length s - List.length rest) s.

Fixpoint run {A : Type} (r : regex) (prev : option ascii) (s : text)
    (caps : captures) (k : @cont A) : option A :=
  match r with
  | RChar p =>
      match s with
      | c :: s' => if p c then k (Some c) s' caps else None
      | [] => None
      end
  | REps => k prev s caps
  | RSeq r1 r2 =>
      run r1 prev s caps (fun prev' s' caps' => run r2 prev' s' caps' k)
  | RAlt r1 r2 => orelse (run r1 prev s caps k) (run r2 prev s caps k)
  | RRep p lo hi => rep_greedy p lo hi prev s caps k
  | RLazy p lo hi => rep_lazy p lo hi prev s caps k
  | RGroup n r1 =>
      run r1 prev s caps
        (fun prev' s' caps' => k prev' s' ((n, consumed s s') :: caps'))
  | RLook r1 =>
      match run r1 prev s caps (fun _ _ caps' => Some caps') with
      | Some caps' => k prev s caps'
      | None => None
      end
  | RWordB => if at_boundary prev s then k prev s caps else None
  | RBegin => match prev with None => k prev s caps | Some _ => None end
  | REnd => if at_end s then k prev s caps else None
  end.

(** The match at one position: what is left of the text, and the groups. *)
Definition match_here (r : regex) (prev : option ascii) (s : text)
  : option (text * captures) :=
  run r prev s [] (fun _ s' caps => Some (s', caps)).

Record match_obj : Type := MatchObj
  { m_text : text;          (* group 0 *)
    m_post : text;          (* the text after the match *)
    m_caps : captures }.

(** [m.group(n)] for [n >= 1]; [None] when the group took no part. *)
Definition group (m : match_obj) (n : nat) : option text := lookup n (m_caps m).

Fixpoint search_from (r : regex) (prev : option ascii) (s : text)
  : option match_obj :=
  match match_here r prev s with
  | Some (rest, caps) => Some (MatchObj (consumed s rest) rest caps)
  | None =>
      match s with
      | [] => None
      | c :: s' => search_from r (Some c) s'
      end
  end.

(** [re.search(r, s)]: the leftmost match. *)
Definition search (r : regex) (s : text) : option match_obj :=
  search_from r None s.

(** [re.match(r, s)]: a match at the start. *)
Definition match_start (r : regex) (s : text) : option match_obj :=
  match match_here r None s with
  | Some (rest, caps) => Some (MatchObj (consumed s rest) rest caps)
  | None => None
  end.

(** [re.finditer(r, s)]: the non-overlapping matches, left to right.
    [skip] counts the characters still covered by the last match. *)
Fixpoint finditer_from (r : regex) (prev : option ascii) (s : text)
    (skip : nat) : list match_obj :=
  match skip with
  | S k =>
      match s with
      | c :: s' => finditer_from r (Some c) s' k
      | [] => []
      end
  | O =>
      match match_here r prev s with
      | Some (rest, caps) =>
          MatchObj (consumed s rest) rest caps ::
          match s with
          | c :: s' => finditer_from r (Some c) s' (pred (List.length s - List.length rest))
          | [] => []
          end
      | None =>
          match s with
          | c :: s' => finditer_from r (Some c) s' 0
          | [] => []
          end
      end
  end.

Definition finditer (r : regex) (s : text) : list match_obj :=
  finditer_from r None s 0.

(** [re.sub(r, repl, s)], the replacement computed from the groups. *)
Fixpoint sub_from (r : regex) (repl : captures -> text) (prev : option ascii)
    (s : text) (skip : nat) : text :=
  match skip with
  | S k =>
      match s with
      | c :: s' => sub_from r repl (Some c) s' k
      | [] => []
      end
  | O =>
      match match_here r prev s with
      | Some (rest, caps) =>
          repl caps ++
          match s with
          | c :: s' =>
              match (List.length s - List.length rest)%nat with
              | O => c :: sub_from r repl (Some c) s' 0
              | S k => sub_from r repl (Some c) s' k
              end
          | [] => []
          end
      | None =>
          match s with
          | c :: s' => c :: sub_from r repl (Some c) s' 0
          | [] => []
          end
      end
  end.

Definition sub (r : regex) (repl : captures -> text) (s : text) : text :=
  sub_from r repl None s 0.

(** *** Pattern notation *)

Definition is_char (c : ascii) : ascii -> bool := ascii_eqb c.

(** A literal character under IGNORECASE. *)
Definition is_char_ci (c : ascii) : ascii -> bool :=
  fun x => ascii_eqb (lower_char x) (lower_char c).

Definition one_of (cs : string) : ascii -> bool :=
  fun x => existsb (ascii_eqb x) (s2l cs).

Definition either (p q : ascii -> bool) : ascii -> bool :=
  fun x => p x || q x.

Fixpoint seqs (rs : list regex) : regex :=
  match rs with
  | [] => REps
  | [r] => r
  | r :: rest => RSeq r (seqs rest)
  end.

Fixpoint alts (rs : list regex) : regex :=
  match rs with
  | [] => RChar (fun _ => false)
  | [r] => r
  | r :: rest => RAlt r (alts rest)
  end.

(** A literal word, case-sensitive or under IGNORECASE. *)
Definition lit (w : string) : regex := seqs (map (fun c => RChar (is_char c)) (s2l w)).
Definition lit_ci (w : string) : regex := seqs (map (fun c => RChar (is_char_ci c)) (s2l w)).

Definition opt (r : regex) : regex := RAlt r REps.
Definition star (p : ascii -> bool) : regex := RRep p 0 None.
Definition plus (p : ascii -> bool) : regex := RRep p 1 None.
Definition between (p : ascii -> bool) (lo hi : nat) : regex := RRep p lo (Some hi).
Definition opt_char (p : ascii -> bool) : regex := RRep p 0 (Some 1%nat).

Arguments one_of cs%_string_scope.
Arguments lit w%_string_scope.
Arguments lit_ci w%_string_scope.

End Re.

Import Re.

(** ** Calendar dates ([datetime.date]) *)

Record date : Type := Date { year : Z; month : Z; day : Z }.

Definition is_leap (y : Z) : bool :=
  (y mod 4 =? 0) && (negb (y mod 100 =? 0) || (y mod 400 =? 0)).

Definition days_in_month (y m : Z) : Z :=
  if m =? 2 then (if is_leap y then 29 else 28)
  else if (m =? 4) || (m =? 6) || (m =? 9) || (m =? 11) then 30
  else 31.

Definition MINYEAR : Z := 1.
Definition MAXYEAR : Z := 9999.

Definition valid_date (y m d : Z) : bool :=
  (MINYEAR <=? y) && (y <=? MAXYEAR) && (1 <=? m) && (m <=? 12)
  && (1 <=? d) && (d <=? days_in_month y m).

(** [datetime(y, m, d).date()]; [None] stands for [ValueError]. *)
Definition mk_date (y m d : Z) : option date :=
  if valid_date y m d then Some (Date y m d) else None.

(** The dates Python can hold. *)
Definition wf_date (d : date) : Prop :=
  valid_date (year d) (month d) (day d) = true.

Definition date_eqb (a b : date) : bool :=
  (year a =? year b) && (month a =? month b) && (day a =? day b).

(** [a < b] on dates: year, then month, then day. *)
Definition date_ltb (a b : date) : bool :=
  (year a <? year b)
  || ((year a =? year b)
      && ((month a <? month b)
          || ((month a =? month b) && (day a <? day b)))).

Definition date_leb (a b : date) : bool := negb (date_ltb b a).

(** [min(ds)] and [max(ds)] of a non-empty list, scanning left to right. *)
Definition date_min (d : date) (ds : list date) : date :=
  fold_left (fun acc x => if date_ltb x acc then x else acc) ds d.

Definition date_max (d : date) (ds : list date) : date :=
  fold_left (fun acc x => if date_ltb acc x then x else acc) ds d.

Fixpoint insert_date (d : date) (ds : list date) : list date :=
  match ds with
  | [] => [d]
  | x :: rest =>
      if date_ltb x d then x :: insert_date d rest
      else if date_eqb x d then ds
      else d :: ds
  end.

(** [sorted(set(ds))]: ascending, without duplicates. *)
Definition sorted_set (ds : list date) : list date :=
  fold_right insert_date [] ds.

(** ** [datetime.strptime] for the directives of the fallback table *)

Module Strptime.

Inductive item : Type :=
| ILit (c : ascii)
| ISpace
| Id | Im | IY | Iy | Ib | IB.

(** Reading of a format string: a directive after [%], a run of
    whitespace, or a literal character.  [sp] tells that the character
    before was whitespace already. *)
Fixpoint parse_format_aux (f : text) (sp : bool) : list item :=
  match f with
  | [] => []
  | c :: rest =>
      if ascii_eqb c "%"%char then
        match rest with
        | d :: rest' =>
            (if ascii_eqb d "d"%char then Id
             else if ascii_eqb d "m"%char then Im
             else if ascii_eqb d "Y"%char then IY
             else if ascii_eqb d "y"%char then Iy
             else if ascii_eqb d "b"%char then Ib
             else if ascii_eqb d "B"%char then IB
             else ILit d) :: parse_format_aux rest' false
        | [] => [ILit c]
        end
      else if is_space c then
        (if sp then [] else [ISpace]) ++ parse_format_aux rest true
      else ILit c :: parse_format_aux rest false
  end.

Definition parse_format (f : text) : list item := parse_format_aux f false.

Definition month_abbr : list string :=
  ["jan"; "feb"; "mar"; "apr"; "may"; "jun";
   "jul"; "aug"; "sep"; "oct"; "nov"; "dec"]%string.

Definition month_name : list string :=
  ["january"; "february"; "march"; "april"; "may"; "june";
   "july"; "august"; "september"; "october"; "november"; "december"]%string.

(** The alternatives of a name directive, longest name first. *)
Definition by_length_desc (names : list string) : list string :=
  List.concat (map (fun n => filter (fun s => (String.length s =? n)%nat) names)
              [9; 8; 7; 6; 5; 4; 3]%nat).

Definition range (a b : string) : ascii -> bool :=
  fun x => match s2l a, s2l b with
           | [lo], [hi] => (code lo <=? code x)%nat && (code x <=? code hi)%nat
           | _, _ => false
           end.

Arguments range (a b)%_string_scope.

Definition g_d : nat := 1.
Definition g_m : nat := 2.
Definition g_Y : nat := 3.
Definition g_y : nat := 4.
Definition g_b : nat := 5.
Definition g_B : nat := 6.

(** The regular expression of each directive, as [_strptime.TimeRE]
    has them. *)
Definition item_regex (i : item) : regex :=
  match i with
  | ILit c => RChar (is_char_ci c)
  | ISpace => plus is_space
  | Id => RGroup g_d
            (alts [RSeq (lit "3") (RChar (range "0" "1"));
                   RSeq (RChar (range "1" "2")) (RChar is_digit);
                   RSeq (lit "0") (RChar (range "1" "9"));
                   RChar (range "1" "9");
                   RSeq (lit " ") (RChar (range "1" "9"))])
  | Im => RGroup g_m
            (alts [RSeq (lit "1") (RChar (range "0" "2"));
                   RSeq (lit "0") (RChar (range "1" "9"));
                   RChar (range "1" "9")])
  | IY => RGroup g_Y (between is_digit 4 4)
  | Iy => RGroup g_y (between is_digit 2 2)
  | Ib => RGroup g_b (alts (map lit_ci (by_length_desc month_abbr)))
  | IB => RGroup g_B (alts (map lit_ci (by_length_desc month_name)))
  end.

Definition format_regex (f : text) : regex :=
  seqs (map item_regex (parse_format f)).

Fixpoint index_of (x : text) (names : list string) (i : Z) : option Z :=
  match names with
  | [] => None
  | n :: rest => if text_eqb x (s2l n) then Some i else index_of x rest (i + 1)
  end.

Definition field (caps : captures) (g : nat) (default : Z)
    (conv : text -> option Z) : option Z :=
  match lookup g caps with
  | None => Some default
  | Some v => conv v
  end.

(** Two-digit years follow POSIX: 69-99 are 1969-1999, 0-68 are 2000-2068. *)
Definition year_of_y (s : text) : option Z :=
  match int s with
  | Some y => Some (if y <=? 68 then 2000 + y else 1900 + y)
  | None => None
  end.

Definition bind {A B : Type} (x : option A) (f : A -> option B) : option B :=
  match x with Some v => f v | None => None end.

(** [datetime.strptime(s, f)]; [None] stands for [ValueError]: the text
    does not match the format, text is left over, or the fields are not
    a date. *)
Definition strptime (s : text) (f : text) : option date :=
  match match_start (format_regex f) s with
  | None => None
  | Some m =>
      match m_post m with
      | _ :: _ => None
      | [] =>
          let caps := m_caps m in
          bind (field caps g_y 1900 year_of_y) (fun y0 =>
          bind (field caps g_Y y0 int) (fun y =>
          bind (field caps g_m 1 int) (fun m0 =>
          bind (field caps g_B m0 (fun v => index_of (lower v) month_name 1)) (fun m1 =>
          bind (field caps g_b m1 (fun v => index_of (lower v) month_abbr 1)) (fun mo =>
          bind (field caps g_d 1 int) (fun d =>
          mk_date y mo d))))))
      end
  end.

End Strptime.

(** ** The date parser: [parse_date_flexible] *)

Definition first_some {A : Type} (x y : option A) : option A :=
  match x with Some v => Some v | None => y end.

Definition placeholders : list text :=
  map s2l ["n/a"; "na"; "information not available"; "unknown"; ""]%string.

Definition month_map : list (string * Z) :=
  [("jan", 1); ("january", 1);
   ("feb", 2); ("february", 2);
   ("mar", 3); ("march", 3);
   ("apr", 4); ("april", 4);
   ("may", 5);
   ("jun", 6); ("june", 6);
   ("jul", 7); ("july", 7);
   ("aug", 8); ("august", 8);
   ("sep", 9); ("sept", 9); ("september", 9);
   ("oct", 10); ("october", 10);
   ("nov", 11); ("november", 11);
   ("dec", 12); ("december", 12)]%string.

(** [d.get(k, default)] *)
Fixpoint dict_get (d : list (string * Z)) (k : text) (default : Z) : Z :=
  match d with
  | [] => default
  | (k', v) :: rest => if text_eqb k (s2l k') then v else dict_get rest k default
  end.

Definition fix_year (y : Z) : Z :=
  if y <? 100 then (if y <? 50 then 2000 + y else 1900 + y) else y.

Definition month_words : list string :=
  ["Jan"; "Feb"; "Mar"; "Apr"; "May"; "Jun"; "Jul"; "Aug";
   "Sep"; "Sept"; "Oct"; "Nov"; "Dec"]%string.

(** [[.\-/\s]] *)
Definition date_sep_or_space : ascii -> bool := either (one_of ".-/") is_space.

(** [[./-]] *)
Definition date_sep : ascii -> bool := one_of "./-".

(** [(?i)\b(Jan|...|Dec)[a-z]*[.\-/\s]*(\d{2,4})\b] *)
Definition re_month_year : regex :=
  seqs [RWordB; RGroup 1 (alts (map lit_ci month_words)); star is_alpha;
        star date_sep_or_space; RGroup 2 (between is_digit 2 4); RWordB].

(** [\b(\d{1,2})[./-](\d{2,4})\b] *)
Definition re_numeric : regex :=
  seqs [RWordB; RGroup 1 (between is_digit 1 2); RChar date_sep;
        RGroup 2 (between is_digit 2 4); RWordB].

(** [\b(20\d{2})\b] *)
Definition re_year4 : regex :=
  seqs [RWordB; RGroup 1 (RSeq (lit "20") (between is_digit 2 2)); RWordB].

(** [\b(\d{2})\b] *)
Definition re_year2 : regex :=
  seqs [RWordB; RGroup 1 (between is_digit 2 2); RWordB].

Definition fmts : list text :=
  map s2l
    ["%m/%Y"; "%m-%Y"; "%m.%Y"; "%m/%y"; "%m-%y";
     "%d/%m/%Y"; "%d-%m-%Y"; "%d.%m.%Y";
     "%b %Y"; "%B %Y"; "%b %y"; "%B %y";
     "%b. %Y"; "%b. %y"; "%Y"]%string.

(** [re.sub(r'\.(\d)', r' \1', s)] then [re.sub(r'\s+', ' ', _).strip()] *)
Definition normalize_periods (s : text) : text :=
  let s1 := sub (RSeq (lit ".") (RGroup 1 (RChar is_digit)))
                (fun caps => s2l " " ++ match lookup 1 caps with
                                        | Some g => g
                                        | None => []
                                        end) s in
  strip (sub (plus is_space) (fun _ => s2l " ") s1).

Section Clock.

(** [datetime.utcnow()], read as a date. *)
Variable now : date.

Definition valid_year (y : Z) : bool :=
  (1990 <=? y) && (y <=? year now + 20).

(** Pattern 1: month name and year, "JAN.24", "DEC 26", "JAN-24". *)
Definition pattern1 (s : text) : option date :=
  match search re_month_year s with
  | None => None
  | Some m =>
      match group m 1, Strptime.bind (group m 2) int with
      | Some g1, Some y =>
          let month_str := firstn 3 (lower g1) in
          let mm := dict_get month_map month_str 1 in
          let yyyy := fix_year y in
          if valid_year yyyy then mk_date yyyy mm 1 else None
      | _, _ => None
      end
  end.

(** Pattern 2: "01/24", "12/2026". *)
Definition pattern2 (s : text) : option date :=
  match search re_numeric s with
  | None => None
  | Some m =>
      match Strptime.bind (group m 1) int, Strptime.bind (group m 2) int with
      | Some mm, Some y =>
          let yyyy := fix_year y in
          if (1 <=? mm) && (mm <=? 12) && valid_year yyyy
          then mk_date yyyy mm 1 else None
      | _, _ => None
      end
  end.

(** Pattern 3: a year alone, "2024". *)
Definition pattern3 (s : text) : option date :=
  match search re_year4 s with
  | None => None
  | Some m =>
      match Strptime.bind (group m 1) int with
      | Some yyyy => if valid_year yyyy then mk_date yyyy 1 1 else None
      | None => None
      end
  end.

(** Pattern 4: a two-digit year alone, "24". *)
Definition pattern4 (s : text) : option date :=
  match search re_year2 s with
  | None => None
  | Some m =>
      match Strptime.bind (group m 1) int with
      | Some y =>
          let yyyy := fix_year y in
          if valid_year yyyy then mk_date yyyy 1 1 else None
      | None => None
      end
  end.

(** One round of the fallback loop; [None] is [continue]. *)
Definition try_format (s_normalized : text) (fmt : text) : option date :=
  match Strptime.strptime s_normalized fmt with
  | None => None
  | Some dt =>
      if year dt <? 100 then
        let y := fix_year (year dt) in
        match mk_date y (month dt) (day dt) with      (* dt.replace(year=y) *)
        | Some dt' => if valid_year y then Some dt' else None
        | None => None
        end
      else if valid_year (year dt) then Some dt else None
  end.

Fixpoint strptime_fallback (s_normalized : text) (fs : list text) : option date :=
  match fs with
  | [] => None
  | fmt :: rest =>
      first_some (try_format s_normalized fmt) (strptime_fallback s_normalized rest)
  end.

Definition parse_date_flexible (date_str : text) : option date :=
  if negb (truthy date_str) then None
  else
    let s := strip date_str in
    if text_in (lower s) placeholders then None
    else
      first_some (pattern1 s)
     (first_some (pattern2 s)
     (first_some (pattern3 s)
     (first_some (pattern4 s)
                 (strptime_fallback (normalize_periods s) fmts)))).

End Clock.

(** Formatting of a month as "MMM.YY", e.g. "JAN.24". *)
Definition MONTH_ABBR_UPPER : list string :=
  ["JAN"; "FEB"; "MAR"; "APR"; "MAY"; "JUN";
   "JUL"; "AUG"; "SEP"; "OCT"; "NOV"; "DEC"]%string.

Definition digit_char (n : Z) : ascii := ascii_of_nat (48 + Z.to_nat n).

Definition format_mmm_yy (y m : Z) : text :=
  s2l (nth (Z.to_nat (m - 1)) MONTH_ABBR_UPPER ""%string)
  ++ s2l "." ++ [digit_char ((y mod 100) / 10); digit_char (y mod 10)].

(** ** Date evidence in the full text *)

(** [(?i)\b(?:Jan|...|Dec)[a-z]*\s+\d{4}\b] *)
Definition re_cand_month : regex :=
  seqs [RWordB; alts (map lit_ci month_words); star is_alpha;
        plus is_space; between is_digit 4 4; RWordB].

(** [\b\d{1,2}[./-]\d{2,4}\b] *)
Definition re_cand_numeric : regex :=
  seqs [RWordB; between is_digit 1 2; RChar date_sep;
        between is_digit 2 4; RWordB].

(** [\b(?:19|20)\d{2}\b] *)
Definition re_cand_year : regex :=
  seqs [RWordB; RAlt (lit "19") (lit "20"); between is_digit 2 2; RWordB].

Definition candidate_patterns : list regex :=
  [re_cand_month; re_cand_numeric; re_cand_year].

(** [(?i)\b(best\s*before|use\s*before|shelf\s*life)\s*(\d{1,2})\s*months?\b] *)
Definition re_shelf_life : regex :=
  seqs [RWordB;
        RGroup 1 (alts [seqs [lit_ci "best"; star is_space; lit_ci "before"];
                        seqs [lit_ci "use"; star is_space; lit_ci "before"];
                        seqs [lit_ci "shelf"; star is_space; lit_ci "life"]]);
        star is_space; RGroup 2 (between is_digit 1 2); star is_space;
        lit_ci "month"; opt_char (is_char_ci "s"); RWordB].

(** [(?i)\b(\d{1,2})\s*months?\s*(?:from|after)\s*(?:mfg|manufacture|manufacturing)\b] *)
Definition re_months_from : regex :=
  seqs [RWordB; RGroup 1 (between is_digit 1 2); star is_space;
        lit_ci "month"; opt_char (is_char_ci "s"); star is_space;
        RAlt (lit_ci "from") (lit_ci "after"); star is_space;
        alts [lit_ci "mfg"; lit_ci "manufacture"; lit_ci "manufacturing"];
        RWordB].

(** [add_months(d, months)]; [None] stands for the [ValueError] of the
    second [datetime(...)] call. *)
Definition add_months (d : date) (months : Z) : option date :=
  let y := year d + (month d - 1 + months) / 12 in
  let m := (month d - 1 + months) mod 12 + 1 in
  let dd := Z.min (day d) 28 in
  match mk_date y m dd with
  | Some r => Some r
  | None => mk_date y m 1
  end.

Definition shelf_life_months (text_ : text) : option Z :=
  if negb (truthy text_) then None
  else
    match search re_shelf_life text_ with
    | Some m => Strptime.bind (group m 2) int
    | None =>
        match search re_months_from text_ with
        | Some m => Strptime.bind (group m 1) int
        | None => None
        end
    end.

Section Reconciler.

Variable now : date.

(** One match of one pattern: skip a raw token seen before, else parse it. *)
Definition candidate_step (st : list text * list date) (m : match_obj)
  : list text * list date :=
  let '(seen, candidates) := st in
  let raw := strip (m_text m) in
  if text_in raw seen then st
  else
    match parse_date_flexible now raw with
    | Some dt => (raw :: seen, candidates ++ [dt])
    | None => (raw :: seen, candidates)
    end.

Definition find_date_candidates (text_ : text) : list date :=
  if negb (truthy text_) then []
  else
    let st :=
      fold_left (fun st pat => fold_left candidate_step (finditer pat text_) st)
                candidate_patterns ([], []) in
    sorted_set (snd st).

(** [min(ds)] / [max(ds)] of a list known to be non-empty. *)
Definition list_min (ds : list date) (default : date) : date :=
  match ds with d :: rest => date_min d rest | [] => default end.

Definition list_max (ds : list date) (default : date) : date :=
  match ds with d :: rest => date_max d rest | [] => default end.

(** [life] used as a condition: [None] and [0] are both false. *)
Definition life_known (life : option Z) : option Z :=
  match life with
  | Some n => if n =? 0 then None else Some n
  | None => None
  end.

Definition with_expiry (mfd : date) (e : option date) : option (date * date) :=
  option_map (fun x => (mfd, x)) e.

Definition with_manufacture (m : option date) (exp : date) : option (date * date) :=
  option_map (fun x => (x, exp)) m.

(** [reconcile_dates_from_text(full_text, mfd_dt, exp_dt)]; [None]
    stands for an exception out of [add_months]. *)
Definition reconcile_dates_from_text (full_text : text)
    (mfd_dt exp_dt : option date) : option (date * date) :=
  let candidates := find_date_candidates full_text in
  let life := shelf_life_months full_text in
  match mfd_dt, exp_dt with
  | Some mfd, Some exp =>
      if date_ltb exp mfd then
        if (2 <=? List.length candidates)%nat
        then Some (list_min candidates mfd, list_max candidates mfd)
        else Some (exp, mfd)
      else Some (mfd, exp)
  | Some mfd, None =>
      match life_known life with
      | Some n => with_expiry mfd (add_months mfd n)
      | None =>
          let later := filter (fun d => date_ltb mfd d) candidates in
          match later with
          | _ :: _ => Some (mfd, list_min later mfd)
          | [] => with_expiry mfd (add_months mfd 24)
          end
      end
  | None, Some exp =>
      let earlier := filter (fun d => date_ltb d exp) candidates in
      match earlier with
      | _ :: _ => Some (list_max earlier exp, exp)
      | [] =>
          match life_known life with
          | Some n => with_manufacture (add_months exp (- n)) exp
          | None => with_manufacture (add_months exp (-24)) exp
          end
      end
  | None, None =>
      if (2 <=? List.length candidates)%nat
      then Some (list_min candidates now, list_max candidates now)
      else
        match candidates with
        | [d] => with_expiry d (add_months d 24)
        | _ => with_expiry now (add_months now 12)
        end
  end.

End Reconciler.

(** The tokens the miner reads: [m.group(0).strip()] for every match of
    every pattern, in the order of the two loops. *)
Definition mined_tokens (text_ : text) : list text :=
  flat_map (fun pat => map (fun m => strip (m_text m)) (finditer pat text_))
           candidate_patterns.
(** ** The value normaliser: [clean_extracted_value] *)

Definition INFO_NA : text := s2l "Information not available".

Inductive field_type : Type := FText | FBrand | FBatch | FMrp | FDate.

(** [[:\-\.\s]] *)
Definition noise : ascii -> bool := either (one_of ":-.") is_space.

(** [^[:\-\.\s]+] and [[:\-\.\s]+$] *)
Definition re_leading_noise : regex := RSeq RBegin (plus noise).
Definition re_trailing_noise : regex := RSeq (plus noise) REnd.

(** [\s*(tablets?|capsules?|I\.?P\.?|B\.?P\.?)$] under IGNORECASE *)
Definition re_generic_suffix : regex :=
  seqs [star is_space;
        RGroup 1 (alts [RSeq (lit_ci "tablet") (opt_char (is_char_ci "s"));
                        RSeq (lit_ci "capsule") (opt_char (is_char_ci "s"));
                        seqs [lit_ci "I"; opt_char (is_char "."); lit_ci "P";
                              opt_char (is_char ".")];
                        seqs [lit_ci "B"; opt_char (is_char "."); lit_ci "P";
                              opt_char (is_char ".")]]);
        REnd].

(** [[A-Z0-9]] under IGNORECASE *)
Definition re_alnum : regex := RChar is_alnum.

(** [(\d+(?:[.,]\d{1,2})?)] *)
Definition re_number : regex :=
  RGroup 1 (RSeq (plus is_digit)
                 (opt (RSeq (RChar (one_of ".,")) (between is_digit 1 2)))).

Definition erase : captures -> text := fun _ => [].

Definition invalid_starts : list text :=
  map s2l ["each"; "film"; "coated"; "tablet"; "capsule"; "contains";
           "information"; "store"; "keep"; "protect"; "the"; "this";
           "for"; "use"]%string.

(** The condition of the brand filter as Python reads it,
    [A if C else (B in L)]: the conditional expression binds weaker than
    [in], so with a token present the condition is the first token
    itself.  [split (lower v)] has a first element whenever [split v]
    has one. *)
Definition brand_filter_condition (value : text) : bool :=
  match split value with
  | _ :: _ => truthy (hd [] (split (lower value)))
  | [] => text_in [] invalid_starts
  end.

Definition nonempty (value : text) : option text :=
  if truthy value then Some value else None.

Definition clean_extracted_value (value : option text) (ft : field_type)
  : option text :=
  match value with
  | None => None
  | Some v0 =>
      if negb (truthy v0) || text_eqb v0 INFO_NA then None
      else
        let v1 := strip v0 in
        let v2 := sub re_leading_noise erase v1 in
        let v3 := sub re_trailing_noise erase v2 in
        match ft with
        | FBrand =>
            if brand_filter_condition v3 then None
            else nonempty (sub re_generic_suffix erase v3)
        | FBatch =>
            match search re_alnum v3 with
            | None => None
            | Some _ => nonempty (sub re_leading_noise erase v3)
            end
        | FMrp =>
            match search re_number v3 with
            | Some m =>
                match group m 1 with
                | Some g => nonempty (replace_char "," "." g)
                | None => None
                end
            | None => None
            end
        | FDate => nonempty v3
        | FText => nonempty v3
        end
  end.

(** ** Regex extraction: [find_first_match] *)

Fixpoint ngroups (r : regex) : nat :=
  match r with
  | RSeq a b | RAlt a b => (ngroups a + ngroups b)%nat
  | RGroup _ a => S (ngroups a)
  | RLook a => ngroups a
  | _ => O
  end.

(** [None] stands for the [AttributeError] of [None.strip()] when group 1
    took no part in the match. *)
Fixpoint find_first_match (text_ : text) (patterns : list regex) : option text :=
  match patterns with
  | [] => Some INFO_NA
  | pattern :: rest =>
      match search pattern text_ with
      | Some m =>
          if (0 <? ngroups pattern)%nat
          then option_map strip (group m 1)
          else find_first_match text_ rest
      | None => find_first_match text_ rest
      end
  end.

(** ** [normalize_vertical] *)

(** [len(line) == 1 and line.isalnum()] for [line = l.strip()] *)
Definition single_alnum (l : text) : bool :=
  match strip l with
  | [c] => is_alnum c
  | _ => false
  end.

(** The inner loop: the stripped one-character lines at the front, and
    the lines after them. *)
Fixpoint collect_run (ls : list text) : list text * list text :=
  match ls with
  | l :: rest =>
      if single_alnum l
      then let '(run, rest') := collect_run rest in (strip l :: run, rest')
      else ([], ls)
  | [] => ([], [])
  end.

Equations? normalize_lines (lines : list text) : list text
  by wf (List.length lines) lt :=
  normalize_lines [] := [];
  normalize_lines (l :: rest) with single_alnum l := {
    | true => List.concat (strip l :: fst (collect_run rest))
              :: normalize_lines (snd (collect_run rest));
    | false => strip l :: normalize_lines rest }.
Proof.
  clear. induction rest as [|x xs IH]; simpl; [lia|].
  destruct (single_alnum x); simpl; [|lia].
  destruct (collect_run xs); simpl in *; lia.
Qed.

Definition normalize_vertical (text_ : text) : text :=
  join (s2l (String "010"%char EmptyString)) (normalize_lines (splitlines text_)).

(** ** The extraction cascade of [index] *)

Definition is_some {A : Type} (x : option A) : bool :=
  match x with Some _ => true | None => false end.

(** [not x] for a value that is [None] or a string. *)
Definition falsy (x : option text) : bool :=
  match x with
  | Some v => negb (truthy v)
  | None => true
  end.

(** [(?i)^each\s], [(?i)^film\s], [(?i)^coated], ... *)
Definition invalid_brand_patterns : list regex :=
  [seqs [RBegin; lit_ci "each"; RChar is_space];
   seqs [RBegin; lit_ci "film"; RChar is_space];
   seqs [RBegin; lit_ci "coated"];
   seqs [RBegin; lit_ci "tablet"];
   seqs [RBegin; lit_ci "capsule"];
   seqs [RBegin; lit_ci "contains"];
   seqs [RBegin; lit_ci "information"];
   seqs [RBegin; lit_ci "store"];
   seqs [RBegin; lit_ci "keep"];
   seqs [RBegin; lit_ci "protect"];
   seqs [RBegin; lit_ci "the"; RChar is_space];
   seqs [RBegin; lit_ci "this"; RChar is_space];
   seqs [RBegin; lit_ci "for"; RChar is_space];
   seqs [RBegin; lit_ci "use"; RChar is_space]].

Definition is_valid_brand (val : option text) : bool :=
  match val with
  | None => false
  | Some v =>
      if negb (truthy v) || negb (truthy (strip v)) then false
      else negb (existsb (fun pattern => is_some (match_start pattern (strip v)))
                         invalid_brand_patterns)
  end.

(** The seven fields while they are being extracted: [None] or a string. *)
Record extracted : Type := Extracted
  { brand : option text;
    dosage : option text;
    batch : option text;
    mfd_date : option text;
    exp_date : option text;
    manufacturer : option text;
    mrp_str : option text }.

(** The dictionary a model pass answers with, read through [.get(key)]. *)
Record model_reply : Type := ModelReply
  { r_brand : option text;
    r_dosage : option text;
    r_batch_number : option text;
    r_manufacture_date : option text;
    r_expiry_date : option text;
    r_manufacturer : option text;
    r_mrp : option text }.

(** The lists of [PATTERNS] the cascade reads. *)
Record pattern_table : Type := PatternTable
  { p_brand_name : list regex;
    p_dosage : list regex;
    p_batch_number : list regex;
    p_mfd : list regex;
    p_expiry : list regex;
    p_manufacturer : list regex;
    p_mrp : list regex }.

Definition nothing_extracted : extracted :=
  Extracted None None None None None None None.

Notation "x <- c ;; k" := (Strptime.bind c (fun x => k))
  (at level 61, c at next level, right associativity).

(** METHOD 1: the model reads the image; [gem_direct] is [None] when the
    call gave no dictionary or raised. *)
Definition method1 (gem_direct : option model_reply) : extracted :=
  match gem_direct with
  | None => nothing_extracted
  | Some g =>
      let extracted_brand := clean_extracted_value (r_brand g) FBrand in
      {| brand := if negb (falsy extracted_brand) && is_valid_brand extracted_brand
                  then extracted_brand else None;
         dosage := clean_extracted_value (r_dosage g) FText;
         batch := clean_extracted_value (r_batch_number g) FBatch;
         mfd_date := clean_extracted_value (r_manufacture_date g) FDate;
         exp_date := clean_extracted_value (r_expiry_date g) FDate;
         manufacturer := clean_extracted_value (r_manufacturer g) FText;
         mrp_str := clean_extracted_value (r_mrp g) FMrp |}
  end.

(** [if not field: field = find_first_match(full_text, patterns)] *)
Definition regex_fill (field : option text) (full_text : text)
    (patterns : list regex) : option (option text) :=
  if falsy field
  then v <- find_first_match full_text patterns ;; Some (Some v)
  else Some field.

(** METHOD 2: regular expressions over the OCR text; [None] stands for an
    exception out of [find_first_match]. *)
Definition method2 (P : pattern_table) (full_text : text) (e : extracted)
  : option extracted :=
  b <- (if falsy (brand e)
        then v <- find_first_match full_text (p_brand_name P) ;;
             Some (if is_valid_brand (Some v) then Some v else None)
        else Some (brand e)) ;;
  d <- regex_fill (dosage e) full_text (p_dosage P) ;;
  bn <- regex_fill (batch e) full_text (p_batch_number P) ;;
  mf <- regex_fill (mfd_date e) full_text (p_mfd P) ;;
  ex <- regex_fill (exp_date e) full_text (p_expiry P) ;;
  ma <- regex_fill (manufacturer e) full_text (p_manufacturer P) ;;
  mr <- regex_fill (mrp_str e) full_text (p_mrp P) ;;
  Some (Extracted b d bn mf ex ma mr).

(** [if not field and reply.get(key): field = reply.get(key, '').strip()] *)
Definition model_fill (field : option text) (answer : option text) : option text :=
  if falsy field && negb (falsy answer) then option_map strip answer else field.

(** METHOD 3: the model reads the OCR text, asked only when one of
    brand, batch and the two dates is still missing. *)
Definition method3 (gem_fields : text -> option model_reply) (full_text : text)
    (e : extracted) : extracted :=
  if falsy (brand e) || falsy (batch e) || falsy (mfd_date e) || falsy (exp_date e)
  then
    match gem_fields full_text with
    | None => e
    | Some g =>
        {| brand := if falsy (brand e) && is_valid_brand (r_brand g)
                    then option_map strip (r_brand g) else brand e;
           dosage := model_fill (dosage e) (r_dosage g);
           batch := model_fill (batch e) (r_batch_number g);
           mfd_date := model_fill (mfd_date e) (r_manufacture_date g);
           exp_date := model_fill (exp_date e) (r_expiry_date g);
           manufacturer := model_fill (manufacturer e) (r_manufacturer g);
           mrp_str := model_fill (mrp_str e) (r_mrp g) |}
    end
  else e.

(** The three passes in the order of [index]; the result is the fields
    and the text kept in [full_text]. *)
Definition extract_fields (P : pattern_table) (gem_direct : option model_reply)
    (ocr_text : option text) (gem_fields : text -> option model_reply)
  : option (extracted * option text) :=
  let e1 := method1 gem_direct in
  if falsy ocr_text then Some (e1, ocr_text)
  else
    let full_text := normalize_vertical (match ocr_text with Some t => t | None => [] end) in
    e2 <- method2 P full_text e1 ;;
    Some (method3 gem_fields full_text e2, Some full_text).

(** ** The table [PATTERNS], as [find_first_match] runs it

    [find_first_match] passes [re.IGNORECASE | re.DOTALL], so every
    letter and letter class below matches in both cases and [.] is any
    character. *)

Module Patterns.

Definition ws : regex := star is_space.                       (* \s* *)
Definition dot_opt : regex := opt_char (is_char ".").         (* \.? *)
Definition any_char : ascii -> bool := fun _ => true.         (* . *)
Definition alnum_dash : ascii -> bool := either is_alnum (is_char "-").
Definition space_dash : ascii -> bool := either is_space (is_char "-").
Definition words (ws_ : list string) : regex := alts (map lit_ci ws_).
(** The rupee sign lies outside the characters of the modelled text. *)
Definition rupee : regex := RChar (fun _ => false).

(** [[:#.\-]?\s*] *)
Definition label_end : regex := RSeq (opt_char (one_of ":#.-")) ws.

(** [[A-Z0-9][A-Z0-9\-]{3,}] *)
Definition batch_code : regex := RSeq (RChar is_alnum) (RRep alnum_dash 3 None).

(** [[A-Z]{3}\.?\s*\d{2,4}] and [\d{1,2}[./-]\d{2,4}] *)
Definition month_date : regex :=
  seqs [between is_alpha 3 3; dot_opt; ws; between is_digit 2 4].
Definition numeric_date : regex :=
  seqs [between is_digit 1 2; RChar date_sep; between is_digit 2 4].

(** [\d+(?:[.,]\d{1,2})?] *)
Definition amount : regex :=
  RSeq (plus is_digit) (opt (RSeq (RChar (one_of ".,")) (between is_digit 1 2))).

(** [(?:Rs\.?|₹|INR)?] *)
Definition currency_opt : regex :=
  opt (alts [RSeq (lit_ci "Rs") dot_opt; rupee; lit_ci "INR"]).

(** [\d+(?:\.\d+)?\s*(?:mg|mcg|g|ml|IU)] *)
Definition strength : regex :=
  seqs [plus is_digit; opt (RSeq (lit ".") (plus is_digit)); ws;
        words ["mg"; "mcg"; "g"; "ml"; "IU"]%string].

Definition brand_name : list regex :=
  [ seqs [RWordB; RGroup 1 (RAlt (lit_ci "BIFILAC") (lit_ci "Bifilac")); RWordB];
    seqs [RWordB; RGroup 1 (RAlt (lit_ci "O2") (seqs [lit_ci "O"; ws; lit "2"])); RWordB];
    seqs [RWordB;
          RGroup 1 (RAlt (seqs [lit_ci "Dolo"; star space_dash; lit "650"])
                         (seqs [lit_ci "DOLO"; star space_dash; lit "650"]));
          RWordB];
    seqs [RWordB;
          RGroup 1 (RAlt (seqs [lit_ci "RABEMI"; star space_dash; lit_ci "DSR"])
                         (seqs [lit_ci "Rabemi"; star space_dash; lit_ci "DSR"]));
          RWordB];
    seqs [RWordB;
          RGroup 1 (alts [seqs [lit_ci "Dolo"; ws; plus is_digit];
                          lit_ci "Crocin";
                          seqs [lit_ci "Pan"; ws; plus is_digit];
                          seqs [lit_ci "Azee"; ws; plus is_digit];
                          lit_ci "Calpol"; lit_ci "Combiflam"; lit_ci "Allegra";
                          lit_ci "Montair"; lit_ci "Augmentin";
                          seqs [lit_ci "Zifi"; ws; plus is_digit];
                          lit_ci "Shelcal"; lit_ci "Becosules"; lit_ci "Limcee";
                          lit_ci "Revital";
                          seqs [lit_ci "Liv"; ws; lit "52"];
                          lit_ci "Digene"; lit_ci "Gelusil"; lit_ci "Eno";
                          lit_ci "Hajmola";
                          seqs [lit_ci "Pudin"; ws; lit_ci "Hara"]]);
          RWordB];
    seqs [RWordB;
          RGroup 1 (words ["Ofloxacin"; "Ornidazole"; "Paracetamol";
                           "Rabeprazole"; "Domperidone"]%string);
          ws;
          opt (RAlt (RSeq (lit_ci "Tablet") (opt_char (is_char_ci "s")))
                    (RSeq (lit_ci "Capsule") (opt_char (is_char_ci "s"))));
          ws;
          opt (seqs [lit_ci "I"; dot_opt; lit_ci "P"; dot_opt]);
          RWordB];
    seqs [RBegin;
          RGroup 1 (seqs [RChar is_alpha; plus alnum_dash;
                          opt (RSeq ws (plus is_digit))]);
          RWordB];
    seqs [RWordB;
          RGroup 1 (seqs [RChar is_alpha; plus is_alpha; star space_dash;
                          between is_digit 2 4]);
          RWordB];
    seqs [RWordB;
          RGroup 1 (seqs [RChar is_alpha; plus is_alpha;
                          opt (seqs [ws; RChar (one_of "&+"); ws; plus is_alpha])]);
          ws;
          words ["Tablet"; "Capsule"; "Syrup"; "Tab"; "Cap"]%string;
          RWordB] ].

Definition dosage : list regex :=
  [ RGroup 1 (RSeq strength
                   (opt (seqs [ws; RChar (one_of "+/&"); ws; strength])));
    seqs [RWordB; RGroup 1 (seqs [plus is_digit; ws; lit_ci "mg"]); RWordB];
    seqs [RWordB; RGroup 1 (seqs [plus is_digit; ws; lit_ci "mcg"]); RWordB];
    RGroup 1 (seqs [plus is_digit; ws; lit_ci "mg"; ws; RChar (one_of "+/&"); ws;
                    plus is_digit; ws; lit_ci "mg"]) ].

(** [(?:No\.?|Number|#)?] *)
Definition number_word_opt : regex :=
  opt (alts [RSeq (lit_ci "No") dot_opt; lit_ci "Number"; lit "#"]).

Definition batch_number : list regex :=
  [ seqs [lit_ci "B"; dot_opt; ws; lit_ci "No"; dot_opt; ws; label_end;
          RGroup 1 batch_code];
    seqs [lit_ci "Batch"; ws; number_word_opt; ws; label_end; RGroup 1 batch_code];
    seqs [lit_ci "Lot"; ws; number_word_opt; ws; label_end; RGroup 1 batch_code];
    seqs [lit_ci "B"; lit "."; lit_ci "N"; dot_opt; ws; label_end;
          RGroup 1 batch_code];
    seqs [lit_ci "L"; dot_opt; ws; lit_ci "No"; dot_opt; ws; label_end;
          RGroup 1 batch_code];
    seqs [RWordB;
          RGroup 1 (seqs [between is_alpha 2 3; opt_char (is_char "-");
                          RRep is_alnum 3 None]);
          RWordB];
    seqs [RWordB; RGroup 1 (RSeq (RChar is_alpha) (RRep is_digit 5 None)); RWordB];
    seqs [RWordB; RGroup 1 (RSeq (between is_alpha 1 3) (RRep is_digit 4 None));
          RWordB] ].

(** [(?:DT\.?|DATE|D)?] and [(?:DT\.?|DATE)?] *)
Definition date_word_opt : regex :=
  opt (alts [RSeq (lit_ci "DT") dot_opt; lit_ci "DATE"; lit_ci "D"]).
Definition date_word2_opt : regex :=
  opt (alts [RSeq (lit_ci "DT") dot_opt; lit_ci "DATE"]).

Definition labelled (label : regex) (w : regex) (value : regex) : regex :=
  seqs [label; dot_opt; ws; w; ws; label_end; RGroup 1 value].

Definition mfd : list regex :=
  [ labelled (lit_ci "MFG") date_word_opt month_date;
    labelled (lit_ci "MFD") date_word_opt month_date;
    seqs [lit_ci "M"; dot_opt; lit_ci "D"; dot_opt; ws; label_end;
          RGroup 1 month_date];
    labelled (lit_ci "MFG") date_word2_opt numeric_date;
    labelled (lit_ci "MFD") date_word2_opt numeric_date;
    seqs [words ["Mfg"; "Mfd"; "Manufactured"]%string; ws; label_end;
          RGroup 1 (RAlt month_date numeric_date)];
    seqs [lit_ci "MFG"; dot_opt; ws; label_end;
          RGroup 1 (seqs [between is_digit 2 2; RChar date_sep;
                          between is_digit 4 4])];
    seqs [RGroup 1 (seqs [between is_digit 2 2; lit "/"; between is_digit 4 4]);
          ws; RLook (RSeq (star any_char) (lit_ci "EXP"))] ].

Definition expiry : list regex :=
  [ labelled (lit_ci "EXP") date_word_opt month_date;
    seqs [lit_ci "E"; dot_opt; lit_ci "D"; dot_opt; ws; label_end;
          RGroup 1 month_date];
    labelled (lit_ci "EXP") date_word2_opt numeric_date;
    seqs [alts [lit_ci "Expiry"; lit_ci "Exp";
                seqs [lit_ci "Use"; ws; lit_ci "Before"];
                seqs [lit_ci "Best"; ws; lit_ci "Before"]];
          ws; label_end; RGroup 1 (RAlt month_date numeric_date)];
    seqs [RAlt (lit_ci "Use") (lit_ci "Best"); ws;
          RAlt (lit_ci "Before") (lit_ci "By"); ws; label_end;
          RGroup 1 (RAlt month_date numeric_date)];
    seqs [lit_ci "EXP"; dot_opt; ws; label_end;
          RGroup 1 (seqs [between is_digit 2 2; RChar date_sep;
                          between is_digit 4 4])];
    seqs [lit_ci "EXP"; dot_opt; ws; label_end;
          RGroup 1 (seqs [between is_alpha 3 3; dot_opt; ws;
                          between is_digit 2 2])];
    seqs [words ["JUL"; "AUG"; "SEP"; "OCT"; "NOV"; "DEC";
                 "JAN"; "FEB"; "MAR"; "APR"; "MAY"; "JUN"]%string;
          dot_opt; ws; between is_digit 4 4; ws; REnd] ].

Definition makers : list regex :=
  [ lit_ci "Mankind"; lit_ci "Cipla";
    seqs [lit_ci "Sun"; ws; lit_ci "Pharma"];
    seqs [lit_ci "Dr"; dot_opt; ws; lit_ci "Reddy"; opt_char (is_char "'");
          opt_char (is_char_ci "s")];
    lit_ci "Lupin"; lit_ci "Abbott"; lit_ci "GSK"; lit_ci "Pfizer";
    lit_ci "Zydus"; lit_ci "Torrent"; lit_ci "Alkem"; lit_ci "Intas";
    lit_ci "Glenmark"; lit_ci "Cadila";
    seqs [lit_ci "Micro"; ws; lit_ci "Labs"];
    lit_ci "Macleods"; lit_ci "Ranbaxy"; lit_ci "Biocon"; lit_ci "Wockhardt";
    lit_ci "Ipca"; lit_ci "USV"; lit_ci "Alembic"; lit_ci "FDC";
    lit_ci "Ajanta"; lit_ci "Eris"; lit_ci "Natco"; lit_ci "Hetero";
    lit_ci "Aurobindo"; lit_ci "Emcure"; lit_ci "Aristo";
    seqs [lit_ci "Blue"; ws; lit_ci "Cross"];
    lit_ci "Sanofi"; lit_ci "Bayer"; lit_ci "Novartis"; lit_ci "Merck";
    lit_ci "AstraZeneca"; lit_ci "Meyer";
    seqs [lit_ci "Franco"; ws; lit_ci "Indian"];
    seqs [lit_ci "JB"; ws; lit_ci "Chemical"; opt_char (is_char_ci "s")];
    lit_ci "Medy"; lit_ci "Medley"; lit_ci "TOA"; lit_ci "TOAPHARMA";
    lit_ci "Paalmi";
    seqs [lit_ci "Renewed"; ws; lit_ci "Life"];
    seqs [lit_ci "Meyer"; ws; lit_ci "Organics"] ].

Definition manufacturer : list regex :=
  [ seqs [alts [seqs [lit_ci "Mfd"; dot_opt; ws; lit_ci "by"];
                seqs [lit_ci "Mfg"; dot_opt; ws; lit_ci "by"];
                seqs [lit_ci "Manufactured"; ws; lit_ci "by"];
                seqs [lit_ci "Marketed"; ws; lit_ci "by"];
                seqs [lit_ci "Mkt"; dot_opt; ws; lit_ci "by"]];
          ws; opt_char (one_of ":#"); ws;
          RGroup 1 (RSeq (RChar is_alpha)
                         (RLazy (either is_alpha (either is_space (one_of "&.-")))
                                1 None));
          ws;
          words ["Ltd"; "Pvt"; "Private"; "Limited"; "Pharma"; "Pharmaceuticals";
                 "Healthcare"; "Laboratories"; "Labs"]%string];
    seqs [RWordB; RGroup 1 (alts makers); RWordB];
    seqs [lit_ci "TABLET"; opt_char (is_char_ci "s"); ws; lit "("; lit_ci "INDIA";
          lit ")"; ws; RGroup 1 (RAlt (lit_ci "LIMITED") (lit_ci "LTD"))] ].

Definition mrp : list regex :=
  [ seqs [lit_ci "M"; dot_opt; lit_ci "R"; dot_opt; lit_ci "P"; dot_opt; ws;
          opt_char (one_of ":#"); ws; currency_opt; ws; RGroup 1 amount];
    seqs [RAlt (lit_ci "Price") (lit_ci "MRP"); ws; opt_char (one_of ":#"); ws;
          currency_opt; ws; RGroup 1 amount];
    seqs [lit_ci "Rs"; dot_opt; ws; RGroup 1 amount];
    seqs [rupee; ws; RGroup 1 amount];
    seqs [lit_ci "M"; lit "."; lit_ci "R"; lit "."; lit_ci "P"; lit ".";
          lit_ci "Rs"; dot_opt; ws; RGroup 1 amount];
    seqs [lit_ci "FOR"; ws; plus is_digit; ws;
          RAlt (RSeq (lit_ci "TAB") (opt_char (is_char_ci "s")))
               (RSeq (lit_ci "CAP") (opt_char (is_char_ci "s")));
          ws; RLazy any_char 0 None; lit_ci "Rs"; dot_opt; ws; RGroup 1 amount] ].

End Patterns.

Definition PATTERNS : pattern_table :=
  PatternTable Patterns.brand_name Patterns.dosage Patterns.batch_number
               Patterns.mfd Patterns.expiry Patterns.manufacturer Patterns.mrp.

(** ** The OCR orchestrator: [ocr_extract_text] *)

Module Ocr.

Inductive backend : Type := Tesseract | Gemini | Vision.

(** What a call to an outside service does: return, or raise. *)
Inductive outcome (A : Type) : Type :=
| Returned (a : A)
| Raised.

Arguments Returned {A} a.
Arguments Raised {A}.

(** The process-wide flags and the services, as oracles.  The answer of
    the model may differ from one call to the next. *)
Record env : Type := Env
  { TESSERACT_AVAILABLE : bool;
    GEMINI_AVAILABLE : bool;
    GEMINI_API_KEY : text;                       (* environment or fallback *)
    tesseract_engine : outcome (option text);    (* merged text of the OCR runs *)
    gemini_generate : nat -> outcome text;       (* [resp.text or ''] of call n *)
    vision_text_detection : outcome (list text)  (* descriptions of the annotations *) }.

(** The calls made so far, latest first. *)
Definition state := list backend.

Definition M (A : Type) : Type := state -> A * state.

Definition ret {A : Type} (a : A) : M A := fun st => (a, st).

Definition bind {A B : Type} (c : M A) (k : A -> M B) : M B :=
  fun st => let '(a, st') := c st in k a st'.

Definition call (b : backend) : M unit := fun st => (tt, b :: st).

Definition count_calls (b : backend) : M nat :=
  fun st => (List.length (filter (fun x => match x, b with
                                           | Tesseract, Tesseract
                                           | Gemini, Gemini
                                           | Vision, Vision => true
                                           | _, _ => false
                                           end) st), st).

Notation "x <~ c ;; k" := (bind c (fun x => k))
  (at level 61, c at next level, right associativity).

Section Orchestrator.

Variable E : env.

(** Every exception inside is caught and turned into [None]. *)
Definition tesseract_extract_text : M (option text) :=
  _ <~ call Tesseract ;;
  if negb (TESSERACT_AVAILABLE E) then ret None
  else
    match tesseract_engine E with
    | Returned t => ret t
    | Raised => ret None
    end.

Definition gemini_extract_text : M (option text) :=
  n <~ count_calls Gemini ;;
  _ <~ call Gemini ;;
  if negb (GEMINI_AVAILABLE E) then ret None
  else if negb (truthy (GEMINI_API_KEY E)) then ret None
  else
    match gemini_generate E n with
    | Returned t => ret (nonempty (strip t))
    | Raised => ret None
    end.

(** Step 3: the cloud service inside its [try]. *)
Definition vision_extract : M (option text) :=
  _ <~ call Vision ;;
  match vision_text_detection E with
  | Returned (t :: _) => ret (Some t)
  | Returned [] => ret None
  | Raised => ret None
  end.

Definition gemini_ready : bool :=
  GEMINI_AVAILABLE E && truthy (GEMINI_API_KEY E).

Definition ocr_extract_text : M (option text) :=
  t1 <~ (if TESSERACT_AVAILABLE E then tesseract_extract_text else ret None) ;;
  if negb (falsy t1) then ret t1
  else
    t2 <~ (if gemini_ready then gemini_extract_text else ret None) ;;
    if negb (falsy t2) then ret t2
    else
      t3 <~ vision_extract ;;
      match t3 with
      | Some t => ret (Some t)
      | None =>
          t4 <~ (if gemini_ready then gemini_extract_text else ret None) ;;
          if negb (falsy t4) then ret t4 else ret None
      end.

End Orchestrator.

(** The result and the calls in the order they were made. *)
Definition run_ocr (E : env) : option text * list backend :=
  let '(r, st) := ocr_extract_text E [] in (r, rev st).

End Ocr.

(** *** The rewriting of [normalize_vertical] in the words of the specification *)

(** The maximal runs of consecutive lines on which [p] keeps one value,
    each with that value. *)
Fixpoint maximal_runs (p : text -> bool) (ls : list text)
  : list (bool * list text) :=
  match ls with
  | [] => []
  | l :: rest =>
      match maximal_runs p rest with
      | (b, run) :: gs =>
          if Bool.eqb b (p l) then (b, l :: run) :: gs
          else (p l, [l]) :: (b, run) :: gs
      | [] => [(p l, [l])]
      end
  end.

(** A run of two or more one-character lines becomes one line, its
    characters in order; every other line is stripped and kept. *)
Definition spec_rewrite_run (g : bool * list text) : list text :=
  let '(single, run) := g in
  if single && (2 <=? List.length run)%nat
  then [List.concat (map strip run)]
  else map strip run.

Definition spec_normalize_lines (lines : list text) : list text :=
  flat_map spec_rewrite_run (maximal_runs single_alnum lines).

Definition spec_normalize_vertical (text_ : text) : text :=
  join (s2l (String "010"%char EmptyString))
       (spec_normalize_lines (splitlines text_)).

(** ** The date parser of the cascade: [parse_date_from_gemini] *)

Definition gemini_placeholders : list text :=
  map s2l ["n/a"; "na"; ""; "information not available"]%string.

Definition gemini_month_map : list (string * Z) :=
  [("jan", 1); ("feb", 2); ("mar", 3); ("apr", 4); ("may", 5); ("jun", 6);
   ("jul", 7); ("aug", 8); ("sep", 9); ("sept", 9); ("oct", 10); ("nov", 11);
   ("dec", 12)]%string.

(** [(?i)(jan|feb|mar|apr|may|jun|jul|aug|sep|sept|oct|nov|dec)] *)
Definition re_month_anywhere : regex :=
  RGroup 1 (alts (map lit_ci ["jan"; "feb"; "mar"; "apr"; "may"; "jun"; "jul";
                              "aug"; "sep"; "sept"; "oct"; "nov"; "dec"]%string)).

(** [(\d{2,4})] *)
Definition re_digits_2_4 : regex := RGroup 1 (between is_digit 2 4).

(** [parse_date_from_gemini(date_str)]: the flexible parser first, then
    any month name with any run of two to four digits.  The group of a
    match and [int] of a run of digits are always there, and
    [datetime(year, month, 1)] is called on a year of the window only;
    [None] in their places stands for the exception that would leave
    the function. *)
Definition parse_date_from_gemini (now : date) (date_str : text) : option date :=
  if negb (truthy date_str) then None
  else
    let s := strip date_str in
    if negb (truthy s) || text_in (lower s) gemini_placeholders then None
    else
      match parse_date_flexible now s with
      | Some result => Some result
      | None =>
          match search re_month_anywhere s with
          | None => None
          | Some m =>
              match group m 1 with
              | None => None
              | Some g =>
                  let mm := dict_get gemini_month_map (firstn 3 (lower g)) 1 in
                  match search re_digits_2_4 s with
                  | None => None
                  | Some y =>
                      match Strptime.bind (group y 1) int with
                      | None => None
                      | Some year0 =>
                          let yyyy :=
                            if year0 <? 100
                            then (if year0 <? 50 then 2000 + year0 else 1900 + year0)
                            else year0 in
                          if (1990 <=? yyyy) && (yyyy <=? year now + 20)
                          then mk_date yyyy mm 1 else None
                      end
                  end
              end
          end
      end.

(** ** The dates of [save_ocr] *)

(** The two dates [save_ocr] stores for the date fields of the form;
    [None] stands for an exception, which the handler of [save_ocr]
    turns into a failure message.  The reconciler is given the empty
    text.  [if not mfd_dt] is left out: the reconciler returns dates,
    and a date is never false. *)
Definition save_ocr_dates (now : date) (mfd_input exp_input : text)
  : option (date * date) :=
  let mfd_dt := if truthy mfd_input then parse_date_flexible now mfd_input else None in
  let exp_dt := if truthy exp_input then parse_date_flexible now exp_input else None in
  match reconcile_dates_from_text now [] mfd_dt exp_dt with
  | None => None
  | Some (mfd_dt', exp_dt') =>
      if date_ltb exp_dt' mfd_dt'
      then with_expiry mfd_dt' (add_months mfd_dt' 12)
      else Some (mfd_dt', exp_dt')
  end.

(** ** The dates as [index] shows them: [strftime("%b %Y")] *)

Definition MONTH_ABBR : list string :=
  ["Jan"; "Feb"; "Mar"; "Apr"; "May"; "Jun";
   "Jul"; "Aug"; "Sep"; "Oct"; "Nov"; "Dec"]%string.

(** [%Y] for a year from 1000 on: four digits. *)
Definition year_digits (y : Z) : text :=
  [digit_char (y / 1000); digit_char ((y / 100) mod 10);
   digit_char ((y / 10) mod 10); digit_char (y mod 10)].

(** [d.strftime("%b %Y")] in the C locale, for a year from 1000 on. *)
Definition strftime_b_Y (d : date) : text :=
  s2l (nth (Z.to_nat (month d - 1)) MONTH_ABBR ""%string)
  ++ s2l " " ++ year_digits (year d).

(** ** Corrections after the cascade: [post_process_extracted_data] *)

(** [s.startswith(p)] *)
Fixpoint starts_with (p s : text) : bool :=
  match p, s with
  | [], _ => true
  | a :: p', b :: s' => ascii_eqb a b && starts_with p' s'
  | _ :: _, [] => false
  end.

(** [needle in hay] for strings. *)
Fixpoint contains (needle hay : text) : bool :=
  starts_with needle hay
  || match hay with
     | [] => false
     | _ :: hay' => contains needle hay'
     end.

(** [d.get(k)] on a dictionary of strings, in the order it is written. *)
Fixpoint dict_find (d : list (string * string)) (k : text) : option text :=
  match d with
  | [] => None
  | (k', v) :: rest => if text_eqb k (s2l k') then Some (s2l v) else dict_find rest k
  end.

Definition brand_corrections : list (string * string) :=
  [("bifilac", "BIFILAC"); ("bifiiac", "BIFILAC"); ("bifllac", "BIFILAC");
   ("bif1lac", "BIFILAC");
   ("o 2", "O2"); ("02", "O2"); ("oz", "O2");
   ("dolo 650", "Dolo-650"); ("dolo650", "Dolo-650"); ("dol0 650", "Dolo-650");
   ("dolo-65o", "Dolo-650");
   ("rabemi dsr", "RABEMI-DSR"); ("rabemidsr", "RABEMI-DSR");
   ("rabemi-dsr", "RABEMI-DSR")]%string.

Definition manufacturer_corrections : list (string * string) :=
  [("toa", "TOA Pharmaceuticals"); ("toa pharma", "TOA Pharmaceuticals");
   ("meyer", "Meyer Organics"); ("meyer organics", "Meyer Organics");
   ("micro labs", "Micro Labs"); ("microlabs", "Micro Labs");
   ("paalmi", "Paalmi Pharmaceuticals");
   ("renewed life", "Renewed Life Sciences")]%string.

Definition has (needle : string) (hay : text) : bool := contains (s2l needle) hay.

(** [if brand:], the corrections by table and by content. *)
Definition correct_brand (brand : option text) : option text :=
  match brand with
  | None => None
  | Some b =>
      if negb (truthy b) then brand
      else
        let brand_lower := strip (lower b) in
        match dict_find brand_corrections brand_lower with
        | Some v => Some v
        | None =>
            if has "bifilac" brand_lower then Some (s2l "BIFILAC")
            else if has "rabemi" brand_lower && has "dsr" brand_lower
                 then Some (s2l "RABEMI-DSR")
            else if has "dolo" brand_lower && has "650" brand_lower
                 then Some (s2l "Dolo-650")
            else if text_in brand_lower (map s2l ["o2"; "o 2"; "02"]%string)
                 then Some (s2l "O2")
            else brand
        end
  end.

(** [if not brand and full_text:], the brand read off the text. *)
Definition detect_brand (brand : option text) (full_text : option text)
  : option text :=
  if falsy brand && negb (falsy full_text) then
    let text_lower := lower (match full_text with Some t => t | None => [] end) in
    if has "bifilac" text_lower then Some (s2l "BIFILAC")
    else if has "rabemi" text_lower && has "dsr" text_lower
         then Some (s2l "RABEMI-DSR")
    else if has "dolo" text_lower && has "650" text_lower
         then Some (s2l "Dolo-650")
    else if has "ofloxacin" text_lower && has "ornidazole" text_lower
         then Some (s2l "O2")
    else if has "paracetamol" text_lower && has "650" text_lower
         then Some (s2l "Dolo-650")
    else if has "rabeprazole" text_lower && has "domperidone" text_lower
         then Some (s2l "RABEMI-DSR")
    else brand
  else brand.

(** The loop over [manufacturer_corrections.items()]: the first key that
    the lowered name contains gives the name. *)
Fixpoint first_correction (d : list (string * string)) (mfr_lower : text)
  : option text :=
  match d with
  | [] => None
  | (key, value) :: rest =>
      if has key mfr_lower then Some (s2l value) else first_correction rest mfr_lower
  end.

Definition correct_manufacturer (manufacturer : option text) : option text :=
  match manufacturer with
  | None => None
  | Some m =>
      if negb (truthy m) then manufacturer
      else
        match first_correction manufacturer_corrections (strip (lower m)) with
        | Some v => Some v
        | None => manufacturer
        end
  end.

Definition detect_manufacturer (manufacturer : option text)
    (full_text : option text) : option text :=
  if falsy manufacturer && negb (falsy full_text) then
    let text_lower := lower (match full_text with Some t => t | None => [] end) in
    if has "toa" text_lower && has "pharma" text_lower
    then Some (s2l "TOA Pharmaceuticals")
    else if has "meyer" text_lower then Some (s2l "Meyer Organics")
    else if has "micro labs" text_lower || has "microlabs" text_lower
         then Some (s2l "Micro Labs")
    else if has "paalmi" text_lower then Some (s2l "Paalmi Pharmaceuticals")
    else if has "renewed life" text_lower then Some (s2l "Renewed Life Sciences")
    else manufacturer
  else manufacturer.

(** [(\d+)\s*(mg|mcg|g|ml)] under IGNORECASE *)
Definition re_dose_unit : regex :=
  seqs [RGroup 1 (plus is_digit); star is_space;
        RGroup 2 (alts [lit_ci "mg"; lit_ci "mcg"; lit_ci "g"; lit_ci "ml"])].

(** The replacement [r'\1 \2']. *)
Definition dose_space_unit (caps : captures) : text :=
  match lookup 1 caps with Some g => g | None => [] end
  ++ s2l " " ++ match lookup 2 caps with Some g => g | None => [] end.

Definition clean_dosage (dosage : option text) : option text :=
  match dosage with
  | None => None
  | Some d =>
      if negb (truthy d) then dosage
      else Some (sub re_dose_unit dose_space_unit (strip d))
  end.

(** [post_process_extracted_data(brand, dosage, batch, mfd_date, exp_date,
    manufacturer, mrp_str, full_text)] *)
Definition post_process_extracted_data (e : extracted) (full_text : option text)
  : extracted :=
  {| brand := detect_brand (correct_brand (brand e)) full_text;
     dosage := clean_dosage (dosage e);
     batch := batch e;
     mfd_date := mfd_date e;
     exp_date := exp_date e;
     manufacturer := detect_manufacturer (correct_manufacturer (manufacturer e))
                                         full_text;
     mrp_str := mrp_str e |}.

(** ** Dates next to a label: [find_labeled_date_dt] *)

(** [DATE_TOKEN_RE], under IGNORECASE:
    [\b((Jan|...|Dec)[a-z]*\.?\s+\d{2,4}|\d{1,2}[./-]\d{2,4}|(?:19|20)\d{2})\b] *)
Definition DATE_TOKEN_RE : regex :=
  seqs [RWordB;
        RGroup 1
          (alts [seqs [RGroup 2 (alts (map lit_ci month_words)); star is_alpha;
                       opt_char (is_char "."); plus is_space; between is_digit 2 4];
                 seqs [between is_digit 1 2; RChar date_sep; between is_digit 2 4];
                 seqs [RAlt (lit "19") (lit "20"); between is_digit 2 2]]);
        RWordB].

(** [(Jan|...|Dec)[a-z]*\.?\b] under IGNORECASE, written with the flag in
    the first loop and with [(?i)] in the second. *)
Definition mon_re : regex :=
  seqs [RGroup 1 (alts (map lit_ci month_words)); star is_alpha;
        opt_char (is_char "."); RWordB].

(** [\b(?:19|20)\d{2}\b] *)
Definition yr_re : regex :=
  seqs [RWordB; RAlt (lit "19") (lit "20"); between is_digit 2 2; RWordB].

(** [m.end()] and [m.start()] of a match found in [s]. *)
Definition m_end (s : text) (m : match_obj) : nat :=
  (List.length s - List.length (m_post m))%nat.

Definition m_start (s : text) (m : match_obj) : nat :=
  (m_end s m - List.length (m_text m))%nat.

(** [s[i:j]] for [0 <= i <= j]. *)
Definition slice (s : text) (i j : nat) : text := firstn (j - i) (skipn i s).

(** [hay.find(needle)]; [None] is the result -1. *)
Fixpoint str_find (needle hay : text) : option nat :=
  if starts_with needle hay then Some O
  else
    match hay with
    | [] => None
    | _ :: hay' => option_map S (str_find needle hay')
    end.

(** A loop that returns at the first date its body gives. *)
Fixpoint first_date {A : Type} (body : A -> option date) (xs : list A)
  : option date :=
  match xs with
  | [] => None
  | x :: rest => first_some (body x) (first_date body rest)
  end.

Section Labeled.

Variable now : date.

(** The body of the two loops over [mons] and [yrs]: a year that starts
    at most 12 characters after the end of the month. *)
Definition month_with_year (scope : text) (mon yr : match_obj) : option date :=
  if (m_end scope mon <=? m_start scope yr)%nat
     && (m_start scope yr - m_end scope mon <=? 12)%nat
  then parse_date_flexible now (slice scope (m_start scope mon) (m_end scope yr))
  else None.

Definition month_and_year (scope : text) : option date :=
  let mons := finditer mon_re scope in
  let yrs := finditer yr_re scope in
  match mons, yrs with
  | _ :: _, _ :: _ =>
      first_date (fun mon => first_date (month_with_year scope mon) yrs) mons
  | _, _ => None
  end.

(** What both loops do with a scope or a window: the first date token,
    when the parser reads it, else a month and a year close to it. *)
Definition date_in_scope (scope : text) : option date :=
  first_some
    match search DATE_TOKEN_RE scope with
    | Some m => parse_date_flexible now (m_text m)
    | None => None
    end
    (month_and_year scope).

(** The loop over the lines; [rest] holds [lines[i + 1]] when there is one. *)
Fixpoint labeled_lines (kws : list text) (lines : list text) : option date :=
  match lines with
  | [] => None
  | line :: rest =>
      let low := lower line in
      if existsb (fun k => contains k low) kws then
        if has "lic" low || has "license" low then labeled_lines kws rest
        else
          let scope :=
            match rest with
            | next :: _ => line ++ s2l " " ++ next
            | [] => line
            end in
          first_some (date_in_scope scope) (labeled_lines kws rest)
      else labeled_lines kws rest
  end.

(** The loop over the keywords: 120 characters from the first occurrence. *)
Definition labeled_window (text_ : text) (kws : list text) : option date :=
  let low_text := lower text_ in
  first_date (fun k =>
                match str_find k low_text with
                | Some idx => date_in_scope (slice text_ idx (idx + 120))
                | None => None
                end) kws.

Definition find_labeled_date_dt (text_ : text) (keywords : list text)
  : option date :=
  if negb (truthy text_) then None
  else
    let kws := map lower keywords in
    first_some (labeled_lines kws (splitlines text_)) (labeled_window text_ kws).

(** ** The dates [index] stores *)

Definition mfg_keywords : list text :=
  map s2l ["mfg"; "mfg."; "mfd"; "manufactured"; "mfg.dt"; "mfg dt"]%string.

Definition exp_keywords : list text :=
  map s2l ["exp"; "exp."; "expiry"; "use before"; "best before"; "exp.dt";
           "exp dt"]%string.

(** [if mfd_date and mfd_date != 'Information not available'] *)
Definition extracted_date (field : option text) : option date :=
  match field with
  | Some v =>
      if truthy v && negb (text_eqb v INFO_NA)
      then parse_date_from_gemini now v
      else None
  | None => None
  end.

(** [x or y] on dates that may be missing. *)
Definition date_or (x y : option date) : option date :=
  match x with Some _ => x | None => y end.

(** The date stage of [index]: the extracted strings, the labels of the
    text, the reconciler when there is a text, today and 24 months for
    what is still missing, and the closing swap.  [None] stands for an
    exception out of [add_months], which the handler of [index] turns
    into an error page. *)
Definition index_dates (mfd_date exp_date full_text : option text)
  : option (date * date) :=
  let text_ := match full_text with Some t => t | None => [] end in
  let mfd_dt := date_or (extracted_date mfd_date)
                        (find_labeled_date_dt text_ mfg_keywords) in
  let exp_dt := date_or (extracted_date exp_date)
                        (find_labeled_date_dt text_ exp_keywords) in
  let reconciled :=
    if truthy text_
    then option_map (fun p => (Some (fst p), Some (snd p)))
                    (reconcile_dates_from_text now text_ mfd_dt exp_dt)
    else Some (mfd_dt, exp_dt) in
  match reconciled with
  | None => None
  | Some (mfd_dt', exp_dt') =>
      let mfd := match mfd_dt' with Some d => d | None => now end in
      match date_or exp_dt' (add_months mfd 24) with
      | None => None
      | Some exp => if date_ltb exp mfd then Some (exp, mfd) else Some (mfd, exp)
      end
  end.

End Labeled.

(** ** The batch number [index] reads off the text when none was extracted *)

(** [[A-Z]?\d{4,}[A-Z0-9]*] under IGNORECASE *)
Definition fallback_code : regex :=
  seqs [opt_char is_alpha; RRep is_digit 4 None; star is_alnum].

(** [(?i)B\.?\s*No\.?\s*[:#.\-]?\s*(...)] and [(?i)Batch\s*[:#.\-]?\s*(...)]
    with [fallback_code] for the group, [\b([A-Z]\d{5,})\b] and
    [(\d{6,})]. *)
Definition batch_patterns : list regex :=
  [ seqs [lit_ci "B"; Patterns.dot_opt; Patterns.ws; lit_ci "No"; Patterns.dot_opt;
          Patterns.ws; Patterns.label_end; RGroup 1 fallback_code];
    seqs [lit_ci "Batch"; Patterns.ws; Patterns.label_end; RGroup 1 fallback_code];
    seqs [RWordB; RGroup 1 (RSeq (RChar is_upper) (RRep is_digit 5 None)); RWordB];
    RGroup 1 (RRep is_digit 6 None) ].

(** The loop over the patterns: [m.group(1)] of the first one found;
    [None] when the loop ends without [break]. *)
Fixpoint first_batch (text_ : text) (patterns : list regex) : option (option text) :=
  match patterns with
  | [] => None
  | pattern :: rest =>
      match search pattern text_ with
      | Some m => Some (group m 1)
      | None => first_batch text_ rest
      end
  end.

(** [if not batch or batch == "Information not available": ...] *)
Definition fallback_batch (batch full_text : option text) : option text :=
  if falsy batch
     || match batch with Some b => text_eqb b INFO_NA | None => false end
  then
    match first_batch (match full_text with Some t => t | None => [] end)
                      batch_patterns with
    | Some found => found
    | None => batch
    end
  else batch.

(** ** Sample inputs *)

(** A reading of the clock. *)
Definition sample_now : date := Date 2026 11 4.

Definition sample_text_two_dates : text := s2l "MFG 06/22 EXP 06/25".

Definition sample_text_shelf_life : text := s2l "shelf life 24 months".

(** Backends: the local engine raises, the model answers, the cloud
    service would answer too. *)
Definition sample_env : Ocr.env :=
  Ocr.Env true true (s2l "api-key") Ocr.Raised
          (fun _ => Ocr.Returned (s2l "  Dolo-650 B.No. ALA306 "))
          (Ocr.Returned [s2l "cloud text"]).

(** The local engine is switched off, the model answers with nothing at
    first and with text when asked again, and the cloud service returns
    one annotation with an empty description. *)
Definition sample_env_empty_description : Ocr.env :=
  Ocr.Env false true (s2l "api-key") Ocr.Raised
          (fun n => match n with
                    | O => Ocr.Returned []
                    | S _ => Ocr.Returned (s2l "Dolo-650 B.No. ALA306")
                    end)
          (Ocr.Returned [[]]).

(** A brand printed one letter per line. *)
Definition sample_vertical_text : text :=
  s2l "D
O
L
O
 650 mg ".

(** What the model answers when it is asked to read a label. *)
Definition sample_reply : model_reply :=
  ModelReply (Some (s2l "Dolo 650")) (Some (s2l "650 mg")) (Some (s2l "ALA306"))
             (Some (s2l "JAN.24")) (Some (s2l "DEC.26")) (Some (s2l "Micro Labs"))
             (Some (s2l "30.00")).

(** * Properties *)

(** ** The matcher against a relational reading of the patterns *)

Module ReFacts.

Definition last_char (w : text) (prev : option ascii) : option ascii :=
  match rev w with
  | c :: _ => Some c
  | [] => prev
  end.

Definition within (hi : option nat) (n : nat) : Prop :=
  match hi with Some h => (n <= h)%nat | None => True end.

(** [steps r prev s caps prev' s' caps']: the pattern [r] can read from
    the position [(prev, s)] to the position [(prev', s')], turning the
    groups [caps] into [caps']. *)
Inductive steps : regex -> option ascii -> text -> captures ->
                  option ascii -> text -> captures -> Prop :=
| St_Char p c s prev caps :
    p c = true -> steps (RChar p) prev (c :: s) caps (Some c) s caps
| St_Eps prev s caps : steps REps prev s caps prev s caps
| St_Seq r1 r2 p0 s0 c0 p1 s1 c1 p2 s2 c2 :
    steps r1 p0 s0 c0 p1 s1 c1 -> steps r2 p1 s1 c1 p2 s2 c2 ->
    steps (RSeq r1 r2) p0 s0 c0 p2 s2 c2
| St_AltL r1 r2 p0 s0 c0 p1 s1 c1 :
    steps r1 p0 s0 c0 p1 s1 c1 -> steps (RAlt r1 r2) p0 s0 c0 p1 s1 c1
| St_AltR r1 r2 p0 s0 c0 p1 s1 c1 :
    steps r2 p0 s0 c0 p1 s1 c1 -> steps (RAlt r1 r2) p0 s0 c0 p1 s1 c1
| St_Rep p lo hi prev w s caps :
    forallb p w = true -> (lo <= List.length w)%nat -> within hi (List.length w) ->
    steps (RRep p lo hi) prev (w ++ s) caps (last_char w prev) s caps
| St_Lazy p lo hi prev w s caps :
    forallb p w = true -> (lo <= List.length w)%nat -> within hi (List.length w) ->
    steps (RLazy p lo hi) prev (w ++ s) caps (last_char w prev) s caps
| St_Group n r p0 s0 c0 p1 s1 c1 :
    steps r p0 s0 c0 p1 s1 c1 ->
    steps (RGroup n r) p0 s0 c0 p1 s1 ((n, consumed s0 s1) :: c1)
| St_Look r p0 s0 c0 p1 s1 c1 :
    steps r p0 s0 c0 p1 s1 c1 -> steps (RLook r) p0 s0 c0 p0 s0 c1
| St_WordB prev s caps :
    at_boundary prev s = true -> steps RWordB prev s caps prev s caps
| St_Begin s caps : steps RBegin None s caps None s caps
| St_End prev s caps :
    at_end s = true -> steps REnd prev s caps prev s caps.

Lemma orelse_some {A : Type} (x y : option A) (v : A) :
  orelse x y = Some v -> x = Some v \/ y = Some v.
Proof. destruct x; simpl; intros H; [left|right]; assumption. Qed.

Lemma within_pred hi n : hi_open hi = true -> within (hi_pred hi) n -> within hi (S n).
Proof.
  destruct hi as [[|h]|]; simpl; intros Ho Hw; try discriminate; try lia; exact I.
Qed.

Lemma rep_greedy_sound {A : Type} p (k : @cont A) :
  forall s lo hi prev caps res,
    rep_greedy p lo hi prev s caps k = Some res ->
    exists w s', s = w ++ s' /\ forallb p w = true /\ (lo <= List.length w)%nat
                 /\ within hi (List.length w)
                 /\ k (last_char w prev) s' caps = Some res.
Proof.
  induction s as [|c s IH]; intros lo hi prev caps res H; simpl in H.
  - destruct lo; [|discriminate].
    exists [], []. repeat split; auto. destruct hi; simpl; auto with arith.
  - assert (Hstop : (match lo with O => k prev (c :: s) caps | S _ => None end) = Some res ->
              exists w s', c :: s = w ++ s' /\ forallb p w = true /\ (lo <= List.length w)%nat
                 /\ within hi (List.length w)
                 /\ k (last_char w prev) s' caps = Some res).
    { destruct lo; [|discriminate]. intros Hk.
      exists [], (c :: s). repeat split; auto. destruct hi; simpl; auto with arith. }
    destruct (p c && hi_open hi) eqn:Hc; [|auto].
    apply andb_true_iff in Hc. destruct Hc as [Hpc Hopen].
    apply orelse_some in H. destruct H as [H|H]; [|auto].
    apply IH in H. destruct H as (w & s' & -> & Hall & Hlo & Hhi & Hk).
    exists (c :: w), s'. simpl. rewrite Hpc, Hall.
    repeat split; auto; try lia.
    + apply within_pred; assumption.
    + unfold last_char in *. simpl. destruct (rev w) eqn:Hr; simpl; auto.
Qed.

Lemma rep_lazy_sound {A : Type} p (k : @cont A) :
  forall s lo hi prev caps res,
    rep_lazy p lo hi prev s caps k = Some res ->
    exists w s', s = w ++ s' /\ forallb p w = true /\ (lo <= List.length w)%nat
                 /\ within hi (List.length w)
                 /\ k (last_char w prev) s' caps = Some res.
Proof.
  induction s as [|c s IH]; intros lo hi prev caps res H; simpl in H.
  - destruct lo; [|discriminate].
    exists [], []. repeat split; auto. destruct hi; simpl; auto with arith.
  - assert (Hstop : (match lo with O => k prev (c :: s) caps | S _ => None end) = Some res ->
              exists w s', c :: s = w ++ s' /\ forallb p w = true /\ (lo <= List.length w)%nat
                 /\ within hi (List.length w)
                 /\ k (last_char w prev) s' caps = Some res).
    { destruct lo; [|discriminate]. intros Hk.
      exists [], (c :: s). repeat split; auto. destruct hi; simpl; auto with arith. }
    destruct (p c && hi_open hi) eqn:Hc; [|auto].
    apply andb_true_iff in Hc. destruct Hc as [Hpc Hopen].
    apply orelse_some in H. destruct H as [H|H]; [auto|].
    apply IH in H. destruct H as (w & s' & -> & Hall & Hlo & Hhi & Hk).
    exists (c :: w), s'. simpl. rewrite Hpc, Hall.
    repeat split; auto; try lia.
    + apply within_pred; assumption.
    + unfold last_char in *. simpl. destruct (rev w) eqn:Hr; simpl; auto.
Qed.

(** Whatever the matcher finds is a reading of the pattern. *)
Lemma run_sound :
  forall r (A : Type) prev s caps (k : @cont A) res,
    run r prev s caps k = Some res ->
    exists prev' s' caps',
      steps r prev s caps prev' s' caps' /\ k prev' s' caps' = Some res.
Proof.
  induction r; intros A prev s caps k res H; simpl in H.
  - destruct s as [|c s]; [discriminate|].
    destruct (p c) eqn:Hp; [|discriminate].
    exists (Some c), s, caps. split; [constructor; assumption|assumption].
  - exists prev, s, caps. split; [constructor|assumption].
  - apply IHr1 in H. destruct H as (p1 & s1 & c1 & H1 & H).
    apply IHr2 in H. destruct H as (p2 & s2 & c2 & H2 & H).
    exists p2, s2, c2. split; [econstructor; eassumption|assumption].
  - apply orelse_some in H. destruct H as [H|H].
    + apply IHr1 in H. destruct H as (p1 & s1 & c1 & H1 & H).
      exists p1, s1, c1. split; [apply St_AltL|]; assumption.
    + apply IHr2 in H. destruct H as (p1 & s1 & c1 & H1 & H).
      exists p1, s1, c1. split; [apply St_AltR|]; assumption.
  - apply rep_greedy_sound in H. destruct H as (w & s' & -> & Hall & Hlo & Hhi & Hk).
    exists (last_char w prev), s', caps. split; [constructor|]; assumption.
  - apply rep_lazy_sound in H. destruct H as (w & s' & -> & Hall & Hlo & Hhi & Hk).
    exists (last_char w prev), s', caps. split; [constructor|]; assumption.
  - apply IHr in H. destruct H as (p1 & s1 & c1 & H1 & H).
    exists p1, s1, ((n, consumed s s1) :: c1). split; [constructor|]; assumption.
  - destruct (run r prev s caps (fun _ _ caps' => Some caps')) as [c1|] eqn:Hl; [|discriminate].
    apply IHr in Hl. destruct Hl as (p1 & s1 & c1' & H1 & Hl). injection Hl as ->.
    exists prev, s, c1. split; [econstructor; eassumption|assumption].
  - destruct (at_boundary prev s) eqn:Hb; [|discriminate].
    exists prev, s, caps. split; [constructor|]; assumption.
  - destruct prev; [discriminate|].
    exists None, s, caps. split; [constructor|]; assumption.
  - destruct (at_end s) eqn:He; [|discriminate].
    exists prev, s, caps. split; [constructor|]; assumption.
Qed.

Lemma match_here_sound r prev s rest caps :
  match_here r prev s = Some (rest, caps) ->
  exists prev', steps r prev s [] prev' rest caps.
Proof.
  unfold match_here. intros H. apply run_sound in H.
  destruct H as (p1 & s1 & c1 & H1 & H). injection H as -> ->.
  exists p1. assumption.
Qed.

(** A reading of a pattern only moves forward in the text. *)
Lemma steps_suffix r p0 s0 c0 p1 s1 c1 :
  steps r p0 s0 c0 p1 s1 c1 -> exists w, s0 = w ++ s1.
Proof.
  induction 1; try (exists []; reflexivity).
  - exists [c]; reflexivity.
  - destruct IHsteps1 as [w1 ->]. destruct IHsteps2 as [w2 ->].
    exists (w1 ++ w2). rewrite app_assoc. reflexivity.
  - assumption.
  - assumption.
  - exists w; reflexivity.
  - exists w; reflexivity.
  - assumption.
Qed.

Lemma consumed_app (w s : text) : consumed (w ++ s) s = w.
Proof.
  unfold consumed. rewrite length_app, Nat.add_sub.
  rewrite firstn_app, Nat.sub_diag, firstn_all. simpl. apply app_nil_r.
Qed.

Lemma match_here_text r prev s rest caps :
  match_here r prev s = Some (rest, caps) ->
  exists prev', s = consumed s rest ++ rest
                /\ steps r prev (consumed s rest ++ rest) [] prev' rest caps.
Proof.
  intros Hm. apply match_here_sound in Hm. destruct Hm as [p1 Hm].
  destruct (steps_suffix _ _ _ _ _ _ _ Hm) as [w Hw]. subst s.
  rewrite consumed_app. exists p1. split; [reflexivity|assumption].
Qed.

Lemma last_char_cons c pre prev :
  last_char (c :: pre) prev = last_char pre (Some c).
Proof.
  unfold last_char. simpl. destruct (rev pre) eqn:Hr; simpl; [|reflexivity].
  destruct pre; [reflexivity|]. simpl in Hr.
  apply (f_equal (@List.length ascii)) in Hr.
  rewrite length_app in Hr. simpl in Hr. lia.
Qed.

(** [re.search] answers with a reading of the pattern somewhere in the text. *)
Lemma search_from_sound r :
  forall s prev m,
    search_from r prev s = Some m ->
    exists pre prev1,
      s = pre ++ m_text m ++ m_post m
      /\ steps r (last_char pre prev) (m_text m ++ m_post m) [] prev1
               (m_post m) (m_caps m).
Proof.
  induction s as [|c s IH]; intros prev m H; simpl in H.
  - destruct (match_here r prev []) as [[rest caps]|] eqn:Hm; [|discriminate].
    injection H as <-. simpl.
    apply match_here_text in Hm. destruct Hm as (p1 & Hs & Hm).
    exists [], p1. split; assumption.
  - destruct (match_here r prev (c :: s)) as [[rest caps]|] eqn:Hm.
    + injection H as <-. simpl.
      apply match_here_text in Hm. destruct Hm as (p1 & Hs & Hm).
      exists [], p1. split; assumption.
    + apply IH in H. destruct H as (pre & p1 & -> & Hs).
      exists (c :: pre), p1. rewrite last_char_cons. split; [reflexivity|assumption].
Qed.

Lemma search_sound r s m :
  search r s = Some m ->
  exists pre prev1,
    s = pre ++ m_text m ++ m_post m
    /\ steps r (last_char pre None) (m_text m ++ m_post m) [] prev1
             (m_post m) (m_caps m).
Proof. apply search_from_sound. Qed.

End ReFacts.

(** ** Order and arithmetic of dates *)

Module DateFacts.

Lemma date_ltb_spec a b :
  date_ltb a b = true <->
  year a < year b
  \/ (year a = year b
      /\ (month a < month b \/ (month a = month b /\ day a < day b))).
Proof.
  unfold date_ltb.
  rewrite orb_true_iff, andb_true_iff, orb_true_iff, andb_true_iff.
  rewrite !Z.ltb_lt, !Z.eqb_eq. tauto.
Qed.

Lemma date_ltb_false a b :
  date_ltb a b = false <->
  ~ (year a < year b
     \/ (year a = year b
         /\ (month a < month b \/ (month a = month b /\ day a < day b)))).
Proof.
  rewrite <- date_ltb_spec. destruct (date_ltb a b); split; intros; congruence.
Qed.

Lemma date_leb_spec a b :
  date_leb a b = true <->
  ~ (year b < year a
     \/ (year b = year a
         /\ (month b < month a \/ (month b = month a /\ day b < day a)))).
Proof.
  unfold date_leb. rewrite negb_true_iff. apply date_ltb_false.
Qed.

Lemma date_leb_refl a : date_leb a a = true.
Proof. apply date_leb_spec. lia. Qed.

Lemma date_leb_trans a b c :
  date_leb a b = true -> date_leb b c = true -> date_leb a c = true.
Proof. rewrite !date_leb_spec. lia. Qed.

Lemma date_ltb_leb a b : date_ltb a b = true -> date_leb a b = true.
Proof. rewrite date_ltb_spec, date_leb_spec. lia. Qed.

Lemma date_eqb_eq a b : date_eqb a b = true <-> a = b.
Proof.
  unfold date_eqb. rewrite !andb_true_iff, !Z.eqb_eq.
  destruct a, b; simpl. split.
  - intros [[-> ->] ->]. reflexivity.
  - intros H. injection H as -> -> ->. auto.
Qed.

(** [min] and [max] of a list are members and bounds. *)
Lemma date_min_in ds : forall d, date_min d ds = d \/ In (date_min d ds) ds.
Proof.
  unfold date_min. induction ds as [|x ds IH]; intros d; simpl; [left; reflexivity|].
  destruct (IH (if date_ltb x d then x else d)) as [H|H]; [|right; right; exact H].
  rewrite H. destruct (date_ltb x d); [right; left|left]; reflexivity.
Qed.

Lemma date_max_in ds : forall d, date_max d ds = d \/ In (date_max d ds) ds.
Proof.
  unfold date_max. induction ds as [|x ds IH]; intros d; simpl; [left; reflexivity|].
  destruct (IH (if date_ltb d x then x else d)) as [H|H]; [|right; right; exact H].
  rewrite H. destruct (date_ltb d x); [right; left|left]; reflexivity.
Qed.

Lemma date_min_lower ds :
  forall d x, x = d \/ In x ds -> date_leb (date_min d ds) x = true.
Proof.
  unfold date_min. induction ds as [|y ds IH]; intros d x Hx; simpl.
  - destruct Hx as [->|[]]. apply date_leb_refl.
  - destruct Hx as [->|[->|Hx]].
    + apply date_leb_trans with (if date_ltb y d then y else d).
      * apply IH. left; reflexivity.
      * destruct (date_ltb y d) eqn:E; [apply date_ltb_leb; exact E|apply date_leb_refl].
    + apply date_leb_trans with (if date_ltb x d then x else d).
      * apply IH. left; reflexivity.
      * destruct (date_ltb x d) eqn:E; [apply date_leb_refl|].
        unfold date_leb. rewrite E. reflexivity.
    + apply IH. right; exact Hx.
Qed.


Lemma list_min_in ds d : ds <> [] -> In (list_min ds d) ds.
Proof.
  destruct ds as [|x ds]; [congruence|]. intros _. simpl.
  destruct (date_min_in ds x) as [->|H]; [left; reflexivity|right; exact H].
Qed.

Lemma list_max_in ds d : ds <> [] -> In (list_max ds d) ds.
Proof.
  destruct ds as [|x ds]; [congruence|]. intros _. simpl.
  destruct (date_max_in ds x) as [->|H]; [left; reflexivity|right; exact H].
Qed.

Lemma list_min_lower ds d x : In x ds -> date_leb (list_min ds d) x = true.
Proof.
  destruct ds as [|y ds]; [intros []|]. intros H. simpl.
  apply date_min_lower. destruct H as [->|H]; auto.
Qed.


Lemma list_min_le_max ds d : ds <> [] -> date_leb (list_min ds d) (list_max ds d) = true.
Proof.
  intros H. apply list_min_lower. apply list_max_in. exact H.
Qed.

(** [sorted(set(ds))] has the elements of [ds]. *)
Lemma insert_date_in d ds x : In x (insert_date d ds) <-> x = d \/ In x ds.
Proof.
  induction ds as [|y ds IH]; simpl; [intuition congruence|].
  destruct (date_ltb y d).
  - simpl. rewrite IH. tauto.
  - destruct (date_eqb y d) eqn:E.
    + apply date_eqb_eq in E. subst y. simpl. intuition congruence.
    + simpl. intuition congruence.
Qed.

Lemma sorted_set_in ds x : In x (sorted_set ds) <-> In x ds.
Proof.
  unfold sorted_set. induction ds as [|y ds IH]; simpl; [tauto|].
  rewrite insert_date_in, IH. intuition congruence.
Qed.

(** [sorted(set(ds))] is strictly ascending. *)
Fixpoint ascending (ds : list date) : bool :=
  match ds with
  | a :: rest =>
      match rest with b :: _ => date_ltb a b | [] => true end && ascending rest
  | [] => true
  end.

Lemma date_trichotomy x d :
  date_ltb x d = false -> date_eqb x d = false -> date_ltb d x = true.
Proof.
  intros H1 H2. apply date_ltb_spec.
  assert (N1 : ~ (year x < year d
                  \/ (year x = year d
                      /\ (month x < month d \/ (month x = month d /\ day x < day d))))).
  { intros H. apply date_ltb_spec in H. congruence. }
  assert (N2 : ~ (year x = year d /\ month x = month d /\ day x = day d)).
  { intros (Hy & Hm & Hd). destruct x, d. simpl in *. subst.
    unfold date_eqb in H2. simpl in H2. rewrite !Z.eqb_refl in H2. discriminate. }
  lia.
Qed.

Lemma insert_date_head d ds :
  hd_error (insert_date d ds) = Some d
  \/ (hd_error (insert_date d ds) = hd_error ds
      /\ exists x, hd_error ds = Some x /\ (date_ltb x d = true \/ x = d)).
Proof.
  destruct ds as [|x rest]; simpl; [left; reflexivity|].
  destruct (date_ltb x d) eqn:E1; simpl.
  - right. split; [reflexivity|]. exists x. auto.
  - destruct (date_eqb x d) eqn:E2; simpl.
    + right. split; [reflexivity|]. exists x. apply date_eqb_eq in E2. auto.
    + left. reflexivity.
Qed.

Lemma insert_date_ascending d ds :
  ascending ds = true -> ascending (insert_date d ds) = true.
Proof.
  induction ds as [|x rest IH]; intros H; [reflexivity|].
  cbn [insert_date]. destruct (date_ltb x d) eqn:E1.
  - cbn [ascending] in H |- *. apply andb_true_iff in H. destruct H as [Hx Hr].
    rewrite (IH Hr), andb_true_r.
    destruct (insert_date_head d rest) as [Hh|(Hh & y & Hy & _)].
    + destruct (insert_date d rest); [discriminate|].
      simpl in Hh. injection Hh as ->. exact E1.
    + destruct (insert_date d rest) as [|z l]; [reflexivity|].
      destruct rest as [|y' rest']; [discriminate|].
      simpl in Hh. injection Hh as ->. exact Hx.
  - destruct (date_eqb x d) eqn:E2; [exact H|].
    cbn [ascending] in H |- *. rewrite (date_trichotomy x d E1 E2). exact H.
Qed.

Lemma sorted_set_ascending ds : ascending (sorted_set ds) = true.
Proof.
  unfold sorted_set. induction ds as [|d ds IH]; [reflexivity|].
  simpl. apply insert_date_ascending. exact IH.
Qed.

Lemma ascending_lt a ds x :
  ascending (a :: ds) = true -> In x ds -> date_ltb a x = true.
Proof.
  revert a. induction ds as [|b ds IH]; intros a H Hx; [destruct Hx|].
  cbn [ascending] in H. apply andb_true_iff in H. destruct H as [Hab Hr].
  destruct Hx as [<-|Hx]; [exact Hab|].
  pose proof (IH b Hr Hx) as Hbx.
  apply date_ltb_spec in Hab. apply date_ltb_spec in Hbx. apply date_ltb_spec. lia.
Qed.

Lemma valid_date_spec y m d :
  valid_date y m d = true <->
  1 <= y <= 9999 /\ 1 <= m <= 12 /\ 1 <= d <= days_in_month y m.
Proof.
  unfold valid_date, MINYEAR, MAXYEAR.
  rewrite !andb_true_iff, !Z.leb_le. tauto.
Qed.

Lemma days_in_month_ge_28 y m : 28 <= days_in_month y m.
Proof.
  unfold days_in_month.
  destruct (m =? 2); [destruct (is_leap y); lia|].
  destruct ((m =? 4) || (m =? 6) || (m =? 9) || (m =? 11)); lia.
Qed.

Lemma mk_date_some y m d r :
  mk_date y m d = Some r -> r = Date y m d /\ valid_date y m d = true.
Proof.
  unfold mk_date. destruct (valid_date y m d); [|discriminate].
  intros H. injection H as <-. auto.
Qed.

Lemma mk_date_wf y m d r : mk_date y m d = Some r -> wf_date r.
Proof. intros H. apply mk_date_some in H. destruct H as [-> H]. exact H. Qed.

(** The month reached by [add_months]. *)
Lemma add_months_fields d n e :
  add_months d n = Some e ->
  12 * year e + month e = 12 * year d + month d + n
  /\ 1 <= month e <= 12 /\ wf_date e
  /\ (day e = Z.min (day d) 28 \/ day e = 1).
Proof.
  unfold add_months. intros H.
  assert (Hm : 12 * (year d + (month d - 1 + n) / 12)
               + ((month d - 1 + n) mod 12 + 1) = 12 * year d + month d + n).
  { pose proof (Z.div_mod (month d - 1 + n) 12 ltac:(lia)). lia. }
  assert (Hr : 1 <= (month d - 1 + n) mod 12 + 1 <= 12).
  { pose proof (Z.mod_pos_bound (month d - 1 + n) 12 ltac:(lia)). lia. }
  destruct (mk_date _ _ (Z.min (day d) 28)) as [r|] eqn:E.
  - injection H as <-. pose proof (mk_date_wf _ _ _ _ E) as Hw.
    apply mk_date_some in E. destruct E as [-> _]. simpl. auto.
  - pose proof (mk_date_wf _ _ _ _ H) as Hw.
    apply mk_date_some in H. destruct H as [-> _]. simpl. auto.
Qed.

Lemma add_months_later d n e :
  wf_date d -> 0 < n -> add_months d n = Some e -> date_ltb d e = true.
Proof.
  intros Hw Hn H. apply add_months_fields in H.
  destruct H as (Hm & Hr & _ & _).
  apply valid_date_spec in Hw. apply date_ltb_spec. lia.
Qed.

Lemma add_months_earlier d n e :
  wf_date d -> n < 0 -> add_months d n = Some e -> date_ltb e d = true.
Proof.
  intros Hw Hn H. apply add_months_fields in H.
  destruct H as (Hm & Hr & _ & _).
  apply valid_date_spec in Hw. apply date_ltb_spec. lia.
Qed.

(** [add_months] raises only when the year leaves [1, 9999]. *)
Lemma add_months_total d n :
  wf_date d -> 1 <= year d + (month d - 1 + n) / 12 <= 9999 ->
  exists e, add_months d n = Some e.
Proof.
  intros Hw Hy. unfold add_months.
  assert (Hr : 1 <= (month d - 1 + n) mod 12 + 1 <= 12).
  { pose proof (Z.mod_pos_bound (month d - 1 + n) 12 ltac:(lia)). lia. }
  apply valid_date_spec in Hw.
  assert (Hv : valid_date (year d + (month d - 1 + n) / 12)
                 ((month d - 1 + n) mod 12 + 1) (Z.min (day d) 28) = true).
  { apply valid_date_spec.
    pose proof (days_in_month_ge_28 (year d + (month d - 1 + n) / 12)
                  ((month d - 1 + n) mod 12 + 1)). lia. }
  unfold mk_date at 1. rewrite Hv. eexists; reflexivity.
Qed.

End DateFacts.

(** ** What the parser returns *)

Module ParseFacts.

Import DateFacts.

Lemma bind_some {A B : Type} (x : option A) (f : A -> option B) (b : B) :
  Strptime.bind x f = Some b -> exists a, x = Some a /\ f a = Some b.
Proof. destruct x; simpl; [eauto|discriminate]. Qed.

Lemma first_some_some {A : Type} (x y : option A) (v : A) :
  first_some x y = Some v -> x = Some v \/ (x = None /\ y = Some v).
Proof. destruct x; simpl; auto. Qed.

Lemma strptime_wf s f dt : Strptime.strptime s f = Some dt -> wf_date dt.
Proof.
  unfold Strptime.strptime.
  destruct (match_start _ s) as [m|]; [|discriminate].
  destruct (m_post m); [|discriminate].
  intros H.
  repeat (apply bind_some in H; destruct H as (? & _ & H)).
  eapply mk_date_wf; eassumption.
Qed.

Section Clock.

Variable now : date.

(** A date a stage returns is a real date of an accepted year. *)
Definition accepted (d : date) : Prop :=
  wf_date d /\ valid_year now (year d) = true.

Lemma guarded_mk_date yyyy mm dd d :
  (if valid_year now yyyy then mk_date yyyy mm dd else None) = Some d ->
  accepted d /\ d = Date yyyy mm dd.
Proof.
  destruct (valid_year now yyyy) eqn:Hv; [|discriminate]. intros H.
  pose proof (mk_date_wf _ _ _ _ H) as Hw.
  apply mk_date_some in H. destruct H as [-> _].
  repeat split; assumption.
Qed.

Lemma pattern1_accepted s d : pattern1 now s = Some d -> accepted d /\ day d = 1.
Proof.
  unfold pattern1. destruct (search _ s) as [m|]; [|discriminate].
  destruct (group m 1); [|discriminate].
  destruct (Strptime.bind _ _); [|discriminate].
  intros H. apply guarded_mk_date in H. destruct H as [Ha ->]. auto.
Qed.

Lemma pattern2_accepted s d : pattern2 now s = Some d -> accepted d /\ day d = 1.
Proof.
  unfold pattern2. destruct (search _ s) as [m|]; [|discriminate].
  destruct (Strptime.bind (group m 1) int); [|discriminate].
  destruct (Strptime.bind (group m 2) int); [|discriminate].
  destruct ((1 <=? z) && (z <=? 12)); simpl; [|discriminate].
  intros H. apply guarded_mk_date in H. destruct H as [Ha ->]. auto.
Qed.

Lemma pattern3_accepted s d : pattern3 now s = Some d -> accepted d /\ day d = 1.
Proof.
  unfold pattern3. destruct (search _ s) as [m|]; [|discriminate].
  destruct (Strptime.bind _ _); [|discriminate].
  intros H. apply guarded_mk_date in H. destruct H as [Ha ->]. auto.
Qed.

Lemma pattern4_accepted s d : pattern4 now s = Some d -> accepted d /\ day d = 1.
Proof.
  unfold pattern4. destruct (search _ s) as [m|]; [|discriminate].
  destruct (Strptime.bind _ _); [|discriminate].
  intros H. apply guarded_mk_date in H. destruct H as [Ha ->]. auto.
Qed.

Lemma try_format_accepted s f d : try_format now s f = Some d -> accepted d.
Proof.
  unfold try_format. destruct (Strptime.strptime s f) as [dt|] eqn:E; [|discriminate].
  destruct (year dt <? 100).
  - destruct (mk_date _ _ _) as [dt'|] eqn:E'; [|discriminate].
    destruct (valid_year now _) eqn:Hv; [|discriminate].
    intros H. injection H as <-.
    pose proof (mk_date_wf _ _ _ _ E') as Hw.
    apply mk_date_some in E'. destruct E' as [-> _]. split; assumption.
  - destruct (valid_year now _) eqn:Hv; [|discriminate].
    intros H. injection H as <-. split; [eapply strptime_wf; eassumption|assumption].
Qed.

Lemma strptime_fallback_some s fs d :
  strptime_fallback now s fs = Some d ->
  exists f, In f fs /\ try_format now s f = Some d.
Proof.
  induction fs as [|f fs IH]; simpl; [discriminate|].
  intros H. apply first_some_some in H. destruct H as [H|[_ H]].
  - exists f. auto.
  - destruct (IH H) as (f' & Hin & Hf). exists f'. auto.
Qed.

(** The stage a result of [parse_date_flexible] comes from. *)
Lemma parse_date_flexible_cases date_str d :
  parse_date_flexible now date_str = Some d ->
  exists s, s = strip date_str /\
  (pattern1 now s = Some d
  \/ (pattern1 now s = None /\ pattern2 now s = Some d)
  \/ (pattern1 now s = None /\ pattern2 now s = None /\ pattern3 now s = Some d)
  \/ (pattern1 now s = None /\ pattern2 now s = None /\ pattern3 now s = None
      /\ pattern4 now s = Some d)
  \/ (pattern1 now s = None /\ pattern2 now s = None /\ pattern3 now s = None
      /\ pattern4 now s = None
      /\ strptime_fallback now (normalize_periods s) fmts = Some d)).
Proof.
  unfold parse_date_flexible.
  destruct (negb (truthy date_str)); [discriminate|].
  destruct (text_in _ placeholders); [discriminate|].
  intros H. exists (strip date_str). split; [reflexivity|].
  apply first_some_some in H. destruct H as [H|[H1 H]]; [auto|].
  apply first_some_some in H. destruct H as [H|[H2 H]]; [auto|].
  apply first_some_some in H. destruct H as [H|[H3 H]]; [auto 6|].
  apply first_some_some in H. destruct H as [H|[H4 H]]; [auto 8|].
  right; right; right; right. auto 8.
Qed.

Lemma parse_date_flexible_accepted date_str d :
  parse_date_flexible now date_str = Some d -> accepted d.
Proof.
  intros H. apply parse_date_flexible_cases in H. destruct H as (s & _ & H).
  destruct H as [H|[[_ H]|[(_ & _ & H)|[(_ & _ & _ & H)|(_ & _ & _ & _ & H)]]]].
  - apply pattern1_accepted in H. tauto.
  - apply pattern2_accepted in H. tauto.
  - apply pattern3_accepted in H. tauto.
  - apply pattern4_accepted in H. tauto.
  - apply strptime_fallback_some in H. destruct H as (f & _ & H).
    eapply try_format_accepted; eassumption.
Qed.

(** Every mined candidate is a result of the parser on some token. *)
Lemma candidate_step_inv st m :
  forall d, In d (snd (candidate_step now st m)) ->
            In d (snd st) \/ exists raw, parse_date_flexible now raw = Some d.
Proof.
  destruct st as [seen cands]. unfold candidate_step.
  destruct (text_in _ seen); [auto|].
  destruct (parse_date_flexible now _) as [dt|] eqn:E; simpl; [|auto].
  intros d Hd. apply in_app_or in Hd. destruct Hd as [Hd|[<-|[]]]; [auto|].
  right. eexists; eassumption.
Qed.

Lemma candidate_fold_inv ms :
  forall st d, In d (snd (fold_left (candidate_step now) ms st)) ->
               In d (snd st) \/ exists raw, parse_date_flexible now raw = Some d.
Proof.
  induction ms as [|m ms IH]; simpl; intros st d Hd; [auto|].
  apply IH in Hd. destruct Hd as [Hd|Hd]; [|auto].
  apply candidate_step_inv in Hd. exact Hd.
Qed.

Lemma find_date_candidates_parsed text_ d :
  In d (find_date_candidates now text_) ->
  exists raw, parse_date_flexible now raw = Some d.
Proof.
  unfold find_date_candidates. destruct (negb (truthy text_)); [intros []|].
  rewrite sorted_set_in. unfold candidate_patterns. simpl.
  intros Hd.
  repeat (apply candidate_fold_inv in Hd; destruct Hd as [Hd|Hd]; [|exact Hd]).
  destruct Hd.
Qed.

Lemma find_date_candidates_accepted text_ d :
  In d (find_date_candidates now text_) -> accepted d.
Proof.
  intros H. apply find_date_candidates_parsed in H. destruct H as [raw H].
  eapply parse_date_flexible_accepted; eassumption.
Qed.

End Clock.

End ParseFacts.

(** ** What a group can hold *)

Module GroupFacts.

Import ReFacts.

(** The bodies of the groups numbered [n] inside a pattern. *)
Fixpoint bodies (n : nat) (r : regex) : list regex :=
  match r with
  | RSeq a b | RAlt a b => bodies n a ++ bodies n b
  | RGroup k a => (if (k =? n)%nat then [a] else []) ++ bodies n a
  | RLook a => bodies n a
  | _ => []
  end.

(** The text of a group is what a reading of its body went over. *)
Definition read_by (body : regex) (v : text) : Prop :=
  exists p0 s0 c0 p1 s1 c1, steps body p0 s0 c0 p1 s1 c1 /\ v = consumed s0 s1.

Lemma steps_capture r p0 s0 c0 p1 s1 c1 :
  steps r p0 s0 c0 p1 s1 c1 ->
  forall n v, lookup n c1 = Some v ->
    lookup n c0 = Some v
    \/ exists body, In body (bodies n r) /\ read_by body v.
Proof.
  induction 1; intros k v Hl; simpl; auto.
  - apply IHsteps2 in Hl. destruct Hl as [Hl|(b & Hb & Hr)].
    + apply IHsteps1 in Hl. destruct Hl as [Hl|(b & Hb & Hr)]; [auto|].
      right. exists b. split; [apply in_or_app; auto|assumption].
    + right. exists b. split; [apply in_or_app; auto|assumption].
  - apply IHsteps in Hl. destruct Hl as [Hl|(b & Hb & Hr)]; [auto|].
    right. exists b. split; [apply in_or_app; auto|assumption].
  - apply IHsteps in Hl. destruct Hl as [Hl|(b & Hb & Hr)]; [auto|].
    right. exists b. split; [apply in_or_app; auto|assumption].
  - simpl in Hl. destruct (n =? k)%nat eqn:E.
    + injection Hl as <-. right. exists r. split; [left; reflexivity|].
      red. eauto 10.
    + apply IHsteps in Hl. destruct Hl as [Hl|(b & Hb & Hr)]; [auto|].
      right. exists b. split; [simpl; assumption|assumption].
Qed.

(** A group of the match [re.search] returns. *)
Lemma search_group r s m n v :
  search r s = Some m -> group m n = Some v ->
  exists body, In body (bodies n r) /\ read_by body v.
Proof.
  intros Hs Hg. apply search_sound in Hs. destruct Hs as (pre & p1 & _ & Hs).
  destruct (steps_capture _ _ _ _ _ _ _ Hs n v Hg) as [H|H]; [discriminate|exact H].
Qed.

Lemma match_start_group r s m n v :
  match_start r s = Some m -> group m n = Some v ->
  exists body, In body (bodies n r) /\ read_by body v.
Proof.
  unfold match_start. destruct (match_here r None s) as [[rest caps]|] eqn:E; [|discriminate].
  intros H Hg. injection H as <-. unfold group in Hg. simpl in Hg.
  apply match_here_sound in E. destruct E as [p1 E].
  destruct (steps_capture _ _ _ _ _ _ _ E n v Hg) as [H|H]; [discriminate|exact H].
Qed.

(** A repeated class reads a run of the class, of a length in range. *)
Lemma read_by_rep p lo hi v :
  read_by (RRep p lo (Some hi)) v ->
  forallb p v = true /\ (lo <= List.length v <= hi)%nat.
Proof.
  intros (p0 & s0 & c0 & p1 & s1 & c1 & H & ->).
  inversion H; subst. rewrite consumed_app. simpl in *. auto.
Qed.

Lemma digit_val_range c : is_digit c = true -> 0 <= digit_val c <= 9.
Proof.
  unfold is_digit, digit_val. intros H. apply andb_true_iff in H.
  destruct H as [H1 H2]. apply Nat.leb_le in H1, H2. lia.
Qed.

Lemma int_digits_range w :
  forall acc n,
    forallb is_digit w = true -> int_digits w acc = Some n -> 0 <= acc ->
    acc * 10 ^ Z.of_nat (List.length w) <= n
    < (acc + 1) * 10 ^ Z.of_nat (List.length w).
Proof.
  induction w as [|c w IH]; intros acc n Hall H Hacc.
  - simpl in *. injection H as <-. lia.
  - simpl in Hall. apply andb_true_iff in Hall. destruct Hall as [Hc Hall].
    cbn [int_digits] in H. rewrite Hc in H.
    pose proof (digit_val_range c Hc) as Hd.
    apply IH in H; [|assumption|lia].
    change (List.length (c :: w)) with (S (List.length w)).
    rewrite Nat2Z.inj_succ, Z.pow_succ_r by lia. nia.
Qed.

Lemma lstrip_no_space w : forallb (fun c => negb (is_space c)) w = true -> lstrip w = w.
Proof.
  destruct w as [|c w]; simpl; [reflexivity|].
  intros H. apply andb_true_iff in H. destruct H as [H _].
  apply negb_true_iff in H. rewrite H. reflexivity.
Qed.

Lemma digit_not_space c : is_digit c = true -> is_space c = false.
Proof.
  unfold is_digit, is_space. intros H. apply andb_true_iff in H.
  destruct H as [H1 H2]. apply Nat.leb_le in H1, H2.
  apply orb_false_iff. split; apply andb_false_iff.
  - right. apply Nat.leb_gt. lia.
  - right. apply Nat.leb_gt. lia.
Qed.

Lemma strip_digits w : forallb is_digit w = true -> strip w = w.
Proof.
  intros H. unfold strip, rstrip.
  assert (Hn : forall u, forallb is_digit u = true ->
                         forallb (fun c => negb (is_space c)) u = true).
  { induction u as [|c u IH]; simpl; [reflexivity|].
    intros Hu. apply andb_true_iff in Hu. destruct Hu as [Hc Hu].
    rewrite (digit_not_space c Hc). simpl. auto. }
  rewrite (lstrip_no_space w (Hn w H)).
  assert (Hr : forallb is_digit (rev w) = true).
  { rewrite forallb_forall in *. intros x Hx. apply H. apply in_rev. exact Hx. }
  rewrite (lstrip_no_space _ (Hn _ Hr)). apply rev_involutive.
Qed.

(** [int] of a run of one to [k] digits. *)
Lemma int_of_digits w k n :
  forallb is_digit w = true -> (1 <= List.length w <= k)%nat ->
  int w = Some n -> 0 <= n < 10 ^ Z.of_nat k.
Proof.
  intros Hall Hlen H. unfold int in H. rewrite strip_digits in H by assumption.
  destruct w as [|c w]; [simpl in Hlen; lia|].
  apply int_digits_range in H; [|assumption|lia].
  assert (10 ^ Z.of_nat (List.length (c :: w)) <= 10 ^ Z.of_nat k).
  { apply Z.pow_le_mono_r; lia. }
  lia.
Qed.

Lemma int_of_digits_total w :
  forallb is_digit w = true -> (1 <= List.length w)%nat -> exists n, int w = Some n.
Proof.
  intros Hall Hlen. unfold int. rewrite strip_digits by assumption.
  destruct w as [|c w]; [simpl in Hlen; lia|].
  assert (Ht : forall u acc, forallb is_digit u = true -> exists n, int_digits u acc = Some n).
  { induction u as [|x u IH]; intros acc Hu; simpl; [eauto|].
    simpl in Hu. apply andb_true_iff in Hu. destruct Hu as [Hx Hu].
    rewrite Hx. apply IH. exact Hu. }
  apply Ht. exact Hall.
Qed.

(** A shelf life read from the text has at most two digits. *)
Lemma shelf_life_months_range text_ n :
  shelf_life_months text_ = Some n -> 0 <= n <= 99.
Proof.
  unfold shelf_life_months. destruct (negb (truthy text_)); [discriminate|].
  destruct (search re_shelf_life text_) as [m|] eqn:E.
  - intros H. apply ParseFacts.bind_some in H. destruct H as (g & Hg & Hi).
    destruct (search_group _ _ _ _ _ E Hg) as (body & Hb & Hr).
    simpl in Hb. destruct Hb as [<-|[]].
    apply read_by_rep in Hr. destruct Hr as [Hd Hl].
    pose proof (int_of_digits g 2 n Hd Hl Hi). simpl in H. lia.
  - destruct (search re_months_from text_) as [m|] eqn:E2; [|discriminate].
    intros H. apply ParseFacts.bind_some in H. destruct H as (g & Hg & Hi).
    destruct (search_group _ _ _ _ _ E2 Hg) as (body & Hb & Hr).
    simpl in Hb. destruct Hb as [<-|[]].
    apply read_by_rep in Hr. destruct Hr as [Hd Hl].
    pose proof (int_of_digits g 2 n Hd Hl Hi). simpl in H. lia.
Qed.

End GroupFacts.

(** ** The date reconciler *)

Module ReconcileFacts.

Import DateFacts ParseFacts GroupFacts.

Definition opt_wf (d : option date) : Prop :=
  match d with Some x => wf_date x | None => True end.

Definition opt_years (lo hi : Z) (d : option date) : Prop :=
  match d with Some x => lo <= year x <= hi | None => True end.

Lemma with_expiry_some mfd e a b :
  with_expiry mfd e = Some (a, b) -> a = mfd /\ e = Some b.
Proof. destruct e; simpl; intros H; [injection H as <- <-; auto|discriminate]. Qed.

Lemma with_manufacture_some m exp a b :
  with_manufacture m exp = Some (a, b) -> b = exp /\ m = Some a.
Proof. destruct m; simpl; intros H; [injection H as <- <-; auto|discriminate]. Qed.

Lemma life_known_some life n :
  life_known life = Some n -> life = Some n /\ n <> 0.
Proof.
  destruct life as [k|]; simpl; [|discriminate].
  destruct (k =? 0) eqn:E; [discriminate|].
  intros H. injection H as <-. apply Z.eqb_neq in E. auto.
Qed.

Lemma life_known_positive text_ n :
  life_known (shelf_life_months text_) = Some n -> 1 <= n <= 99.
Proof.
  intros H. apply life_known_some in H. destruct H as [H Hn].
  apply shelf_life_months_range in H. lia.
Qed.

Lemma month_shift_bounds m n :
  1 <= m <= 12 -> -99 <= n <= 99 -> -9 <= (m - 1 + n) / 12 <= 9.
Proof.
  intros Hm Hn. split.
  - apply Z.div_le_lower_bound; lia.
  - assert ((m - 1 + n) / 12 < 10) by (apply Z.div_lt_upper_bound; lia). lia.
Qed.

Lemma add_months_in_range d n :
  wf_date d -> -99 <= n <= 99 -> 10 <= year d <= 9990 ->
  exists e, add_months d n = Some e.
Proof.
  intros Hw Hn Hy. apply add_months_total; [assumption|].
  pose proof Hw as Hv. apply valid_date_spec in Hv.
  pose proof (month_shift_bounds (month d) n ltac:(lia) Hn). lia.
Qed.

Lemma add_months_forward d n :
  wf_date d -> 0 <= n <= 99 -> year d <= 9990 ->
  exists e, add_months d n = Some e.
Proof.
  intros Hw Hn Hy. apply add_months_total; [assumption|].
  pose proof Hw as Hv. apply valid_date_spec in Hv.
  pose proof (month_shift_bounds (month d) n ltac:(lia) ltac:(lia)).
  assert (0 <= (month d - 1 + n) / 12) by (apply Z.div_pos; lia). lia.
Qed.

Lemma nonempty_of_length {A : Type} (l : list A) :
  (2 <=? List.length l)%nat = true -> l <> [].
Proof. destruct l; simpl; [discriminate|congruence]. Qed.

Section Clock.

Variable now : date.

(** Ordering: whatever pair the reconciler returns is in order. *)
Lemma reconcile_pair_ordered full_text mfd_dt exp_dt a b :
  wf_date now -> opt_wf mfd_dt -> opt_wf exp_dt ->
  reconcile_dates_from_text now full_text mfd_dt exp_dt = Some (a, b) ->
  date_leb a b = true.
Proof.
  intros Hnow Hm He. unfold reconcile_dates_from_text.
  destruct mfd_dt as [mfd|], exp_dt as [exp|]; simpl in Hm, He.
  - destruct (date_ltb exp mfd) eqn:Hinv.
    + destruct (2 <=? _)%nat eqn:Hlen; intros H; injection H as <- <-.
      * apply list_min_le_max. apply nonempty_of_length. exact Hlen.
      * apply date_ltb_leb. exact Hinv.
    + intros H; injection H as <- <-. unfold date_leb. rewrite Hinv. reflexivity.
  - destruct (life_known _) as [n|] eqn:Hl.
    + intros H. apply with_expiry_some in H. destruct H as [-> H].
      apply life_known_positive in Hl.
      apply date_ltb_leb. eapply add_months_later; [exact Hm| |exact H]. lia.
    + destruct (filter _ _) as [|x later] eqn:Hf.
      * intros H. apply with_expiry_some in H. destruct H as [-> H].
        apply date_ltb_leb. eapply add_months_later; [exact Hm| |exact H]. lia.
      * intros H. injection H as <- <-.
        assert (Hin : In (list_min (x :: later) mfd) (x :: later))
          by (apply list_min_in; discriminate).
        rewrite <- Hf in Hin at 2. apply filter_In in Hin.
        apply date_ltb_leb. apply Hin.
  - destruct (filter _ _) as [|x earlier] eqn:Hf.
    + destruct (life_known _) as [n|] eqn:Hl.
      * intros H. apply with_manufacture_some in H. destruct H as [-> H].
        apply life_known_positive in Hl.
        apply date_ltb_leb. eapply add_months_earlier; [exact He| |exact H]. lia.
      * intros H. apply with_manufacture_some in H. destruct H as [-> H].
        apply date_ltb_leb. eapply add_months_earlier; [exact He| |exact H]. lia.
    + intros H. injection H as <- <-.
      assert (Hin : In (list_max (x :: earlier) exp) (x :: earlier))
        by (apply list_max_in; discriminate).
      rewrite <- Hf in Hin at 2. apply filter_In in Hin.
      apply date_ltb_leb. apply Hin.
  - destruct (2 <=? _)%nat eqn:Hlen.
    + intros H; injection H as <- <-.
      apply list_min_le_max. apply nonempty_of_length. exact Hlen.
    + destruct (find_date_candidates now full_text) as [|d [|d' rest]] eqn:Hc.
      * intros H. apply with_expiry_some in H. destruct H as [-> H].
        apply date_ltb_leb. eapply add_months_later; [exact Hnow| |exact H]. lia.
      * intros H. apply with_expiry_some in H. destruct H as [-> H].
        assert (Hd : accepted now d).
        { apply find_date_candidates_accepted with full_text. rewrite Hc. left. reflexivity. }
        apply date_ltb_leb. eapply add_months_later; [apply Hd| |exact H]. lia.
      * simpl in Hlen. discriminate.
Qed.

(** Result: away from the ends of the calendar a pair is returned. *)
Lemma reconcile_returns full_text mfd_dt exp_dt :
  wf_date now -> opt_wf mfd_dt -> opt_wf exp_dt ->
  year now <= 9900 -> opt_years 10 9990 mfd_dt -> opt_years 10 9990 exp_dt ->
  exists a b, reconcile_dates_from_text now full_text mfd_dt exp_dt = Some (a, b).
Proof.
  intros Hnow Hm He Hy Hym Hye. unfold reconcile_dates_from_text.
  pose proof Hnow as Hnv. apply valid_date_spec in Hnv.
  destruct mfd_dt as [mfd|], exp_dt as [exp|]; simpl in Hm, He, Hym, Hye.
  - destruct (date_ltb exp mfd); [destruct (2 <=? _)%nat|]; eauto.
  - destruct (life_known _) as [n|] eqn:Hl.
    + apply life_known_positive in Hl.
      destruct (add_months_in_range mfd n Hm ltac:(lia) Hym) as [e ->]. simpl. eauto.
    + destruct (filter _ _); [|eauto].
      destruct (add_months_in_range mfd 24 Hm ltac:(lia) Hym) as [e ->]. simpl. eauto.
  - destruct (filter _ _); [|eauto].
    destruct (life_known _) as [n|] eqn:Hl.
    + apply life_known_positive in Hl.
      destruct (add_months_in_range exp (- n) He ltac:(lia) Hye) as [e ->]. simpl. eauto.
    + destruct (add_months_in_range exp (-24) He ltac:(lia) Hye) as [e ->]. simpl. eauto.
  - destruct (2 <=? _)%nat; [eauto|].
    destruct (find_date_candidates now full_text) as [|d [|d' rest]] eqn:Hc.
    + destruct (add_months_forward now 12 Hnow ltac:(lia) ltac:(lia)) as [e ->].
      simpl. eauto.
    + assert (Hd : accepted now d).
      { apply find_date_candidates_accepted with full_text. rewrite Hc. left. reflexivity. }
      destruct Hd as [Hdw Hdy]. unfold valid_year in Hdy.
      apply andb_true_iff in Hdy. rewrite !Z.leb_le in Hdy.
      destruct (add_months_in_range d 24 Hdw ltac:(lia) ltac:(lia)) as [e ->].
      simpl. eauto.
    + destruct (add_months_forward now 12 Hnow ltac:(lia) ltac:(lia)) as [e ->].
      simpl. eauto.
Qed.

End Clock.

(** *** The candidates as a set of parsed tokens *)



Section Miner.

Variable now : date.








End Miner.





End ReconcileFacts.

(** ** Claims about the reconciler *)

Module Reconciler.

Import DateFacts ParseFacts GroupFacts ReconcileFacts.

Lemma add_months_exact d n e :
  wf_date d -> add_months d n = Some e ->
  e = Date (year d + (month d - 1 + n) / 12) ((month d - 1 + n) mod 12 + 1)
           (Z.min (day d) 28).
Proof.
  intros Hw. unfold add_months.
  destruct (mk_date _ _ (Z.min (day d) 28)) as [r|] eqn:E.
  - intros H. injection H as <-. apply mk_date_some in E. tauto.
  - intros H. apply mk_date_some in H. destruct H as [_ H].
    unfold mk_date in E.
    destruct (valid_date _ _ (Z.min (day d) 28)) eqn:Hv; [discriminate|].
    exfalso. apply valid_date_spec in H. apply valid_date_spec in Hw.
    assert (Hv' : valid_date (year d + (month d - 1 + n) / 12)
                    ((month d - 1 + n) mod 12 + 1) (Z.min (day d) 28) = true).
    { apply valid_date_spec.
      pose proof (days_in_month_ge_28 (year d + (month d - 1 + n) / 12)
                    ((month d - 1 + n) mod 12 + 1)). lia. }
    congruence.
Qed.

(** C1: for every full text and every combination of present and absent
    manufacture and expiry dates, the pair [(mfd, exp)] that
    [reconcile_dates_from_text] returns satisfies [mfd <= exp]; and a
    pair is returned whenever the years involved stay clear of the ends
    of the calendar, where [add_months] would raise. *)
Theorem reconcile_dates_ordered now full_text mfd_dt exp_dt :
  wf_date now -> opt_wf mfd_dt -> opt_wf exp_dt ->
  (forall a b,
      reconcile_dates_from_text now full_text mfd_dt exp_dt = Some (a, b) ->
      date_leb a b = true)
  /\ (year now <= 9900 -> opt_years 10 9990 mfd_dt -> opt_years 10 9990 exp_dt ->
      exists a b,
        reconcile_dates_from_text now full_text mfd_dt exp_dt = Some (a, b)
        /\ date_leb a b = true).
Proof.
  intros Hnow Hm He. split.
  - intros a b H.
    exact (reconcile_pair_ordered now full_text mfd_dt exp_dt a b Hnow Hm He H).
  - intros Hy Hym Hye.
    destruct (reconcile_returns now full_text mfd_dt exp_dt Hnow Hm He Hy Hym Hye)
      as (a & b & H).
    exists a, b. split; [exact H|].
    exact (reconcile_pair_ordered now full_text mfd_dt exp_dt a b Hnow Hm He H).
Qed.

Lemma reconcile_dates_ordered_witness :
  exists a b,
    reconcile_dates_from_text sample_now sample_text_two_dates
      (Some (Date 2026 1 1)) (Some (Date 2023 1 1)) = Some (a, b)
    /\ date_leb a b = true.
Proof.
  refine (proj2 (reconcile_dates_ordered sample_now sample_text_two_dates
                   (Some (Date 2026 1 1)) (Some (Date 2023 1 1)) _ _ _) _ _ _).
  - reflexivity.
  - reflexivity.
  - reflexivity.
  - vm_compute. discriminate.
  - vm_compute. split; discriminate.
  - vm_compute. split; discriminate.
Defined.



(** Written with four-digit years, the two dates of the scenario come
    with two more tokens, the years alone, which the parser reads as
    January: the least candidate is then (2022,1). *)
Lemma four_digit_years_are_tokens :
  mined_tokens (s2l "MFG 06/2022 EXP 06/2025")
  = map s2l ["06/2022"; "06/2025"; "2022"; "2025"]%string
  /\ reconcile_dates_from_text sample_now (s2l "MFG 06/2022 EXP 06/2025")
       (Some (Date 2026 1 1)) (Some (Date 2023 1 1))
     = Some (Date 2022 1 1, Date 2025 6 1).
Proof. split; vm_compute; reflexivity. Qed.

(** C3 as stated fails for a shelf life of zero months: "shelf life 0
    months" is read as 0, which the reconciler treats as unknown. *)
Lemma shelf_life_zero_counterexample :
  ~ (forall now full_text mfd n,
        wf_date mfd -> shelf_life_months full_text = Some n ->
        reconcile_dates_from_text now full_text (Some mfd) None
        = with_expiry mfd (add_months mfd n)).
Proof.
  intros H.
  specialize (H sample_now (s2l "shelf life 0 months") (Date 2024 1 1) 0
                eq_refl eq_refl).
  vm_compute in H. discriminate.
Qed.

(** C3, amended: with the manufacture date present, the expiry absent and
    a shelf life of [n] months read from the text, [n] not zero, the
    reconciler returns expiry = manufacture + [n] months, whatever date
    candidates the text holds; manufacture (2024,1) with a shelf life of
    24 months gives expiry (2026,1); a shelf life read as 0 months
    counts as unknown, and the expiry is the least candidate after the
    manufacture date or, without one, 24 months after it. *)
Theorem reconcile_missing_expiry_shelf_life :
  (forall now full_text mfd n,
      wf_date mfd -> shelf_life_months full_text = Some n -> n <> 0 ->
      reconcile_dates_from_text now full_text (Some mfd) None
      = with_expiry mfd (add_months mfd n)
      /\ (year mfd <= 9990 ->
          reconcile_dates_from_text now full_text (Some mfd) None
          = Some (mfd, Date (year mfd + (month mfd - 1 + n) / 12)
                            ((month mfd - 1 + n) mod 12 + 1)
                            (Z.min (day mfd) 28))))
  /\ (forall now full_text,
         shelf_life_months full_text = Some 24 ->
         reconcile_dates_from_text now full_text (Some (Date 2024 1 1)) None
         = Some (Date 2024 1 1, Date 2026 1 1))
  /\ (forall now full_text mfd,
         shelf_life_months full_text = Some 0 ->
         reconcile_dates_from_text now full_text (Some mfd) None
         = match filter (fun d => date_ltb mfd d)
                        (find_date_candidates now full_text) with
           | [] => with_expiry mfd (add_months mfd 24)
           | _ :: _ =>
               Some (mfd, list_min (filter (fun d => date_ltb mfd d)
                                           (find_date_candidates now full_text))
                                   mfd)
           end).
Proof.
  split; [|split]; cycle 2.
  { intros now full_text mfd Hl. unfold reconcile_dates_from_text. rewrite Hl.
    reflexivity. }
  - intros now full_text mfd n Hw Hl Hn.
    assert (Hk : life_known (shelf_life_months full_text) = Some n).
    { rewrite Hl. simpl. apply Z.eqb_neq in Hn. rewrite Hn. reflexivity. }
    assert (Hr : reconcile_dates_from_text now full_text (Some mfd) None
                 = with_expiry mfd (add_months mfd n)).
    { unfold reconcile_dates_from_text. rewrite Hk. reflexivity. }
    split; [exact Hr|].
    intros Hy. rewrite Hr.
    apply shelf_life_months_range in Hl.
    destruct (add_months_forward mfd n Hw ltac:(lia) Hy) as [e He].
    rewrite He. simpl. rewrite (add_months_exact mfd n e Hw He). reflexivity.
  - intros now full_text Hl. unfold reconcile_dates_from_text. rewrite Hl.
    reflexivity.
Qed.

Lemma reconcile_missing_expiry_shelf_life_witness :
  shelf_life_months sample_text_shelf_life = Some 24
  /\ reconcile_dates_from_text sample_now sample_text_shelf_life
       (Some (Date 2024 1 1)) None
     = Some (Date 2024 1 1, Date 2026 1 1)
  /\ reconcile_dates_from_text sample_now (s2l "use within 18 months from mfg")
       (Some (Date 2024 3 31)) None
     = Some (Date 2024 3 31, Date 2025 9 28).
Proof.
  split; [vm_compute; reflexivity|]. split.
  - apply (proj1 (proj2 reconcile_missing_expiry_shelf_life) sample_now
             sample_text_shelf_life).
    vm_compute. reflexivity.
  - refine (proj2 (proj1 reconcile_missing_expiry_shelf_life sample_now
                     (s2l "use within 18 months from mfg") (Date 2024 3 31) 18 _ _ _) _).
    + reflexivity.
    + vm_compute. reflexivity.
    + discriminate.
    + vm_compute. discriminate.
Defined.

End Reconciler.

(** ** Claims about the OCR orchestrator *)

Module Orchestrator.

Import Ocr.

(** What each backend hands to the orchestrator. *)
Definition local_result (E : env) : option text :=
  if TESSERACT_AVAILABLE E
  then match tesseract_engine E with Returned t => t | Raised => None end
  else None.

Definition model_result (E : env) (n : nat) : option text :=
  if gemini_ready E
  then match gemini_generate E n with
       | Returned t => nonempty (strip t)
       | Raised => None
       end
  else None.

Definition cloud_result (E : env) : option text :=
  match vision_text_detection E with
  | Returned (t :: _) => Some t
  | _ => None
  end.

Definition local_calls (E : env) : list backend :=
  if TESSERACT_AVAILABLE E then [Tesseract] else [].

Definition model_calls (E : env) : list backend :=
  if gemini_ready E then [Gemini] else [].

Definition all_calls (E : env) : list backend :=
  local_calls E ++ model_calls E ++ [Vision] ++ model_calls E.

(** The orchestrator as a decision list over the answers of the backends. *)
Lemma run_ocr_cases E :
  run_ocr E =
  if negb (falsy (local_result E)) then (local_result E, local_calls E)
  else if negb (falsy (model_result E 0))
       then (model_result E 0, local_calls E ++ model_calls E)
       else match cloud_result E with
            | Some t => (Some t, local_calls E ++ model_calls E ++ [Vision])
            | None =>
                if negb (falsy (model_result E (List.length (model_calls E))))
                then (model_result E (List.length (model_calls E)), all_calls E)
                else (None, all_calls E)
            end.
Proof.
  unfold run_ocr, ocr_extract_text, local_result, model_result, cloud_result,
    all_calls, local_calls, model_calls, tesseract_extract_text,
    gemini_extract_text, vision_extract, gemini_ready, bind, call,
    count_calls, ret.
  destruct E as [ta ga key te gg vt]; simpl.
  destruct ta, ga, (truthy key); simpl;
    try (destruct te as [[[|c0 t0]|]|]; simpl);
    try (destruct (gg 0%nat) as [g0|]; simpl;
         try (destruct (strip g0) as [|c1 s1]; simpl));
    try (destruct vt as [[|v0 vs]|]; simpl);
    try (destruct (gg 1%nat) as [g1|]; simpl;
         try (destruct (strip g1) as [|c2 s2]; simpl));
    reflexivity.
Qed.

(** A backend that gives no text: it raised, gave nothing, or gave the
    empty string. *)
Definition no_text (x : outcome (option text)) : Prop :=
  x = Raised \/ x = Returned None \/ x = Returned (Some []).

Definition local_gives_nothing (E : env) : Prop :=
  TESSERACT_AVAILABLE E = false \/ no_text (tesseract_engine E).

(** The answer of the model to its [n]-th call is unusable. *)
Definition model_gives_nothing (E : env) (n : nat) : Prop :=
  gemini_ready E = false
  \/ gemini_generate E n = Raised
  \/ exists t, gemini_generate E n = Returned t /\ strip t = [].

Definition cloud_gives_nothing (E : env) : Prop :=
  vision_text_detection E = Raised \/ vision_text_detection E = Returned [].

Lemma local_result_falsy E :
  falsy (local_result E) = true <-> local_gives_nothing E.
Proof.
  unfold local_result, local_gives_nothing, no_text.
  destruct (TESSERACT_AVAILABLE E); [|simpl; tauto].
  destruct (tesseract_engine E) as [[[|c t]|]|]; simpl; split; intros H;
    auto; try discriminate;
    destruct H as [H|[H|[H|H]]]; discriminate.
Qed.

Lemma nonempty_falsy t : falsy (nonempty t) = true <-> t = [].
Proof. destruct t; simpl; split; intros H; auto; discriminate. Qed.

Lemma model_result_falsy E n :
  falsy (model_result E n) = true <-> model_gives_nothing E n.
Proof.
  unfold model_result, model_gives_nothing.
  destruct (gemini_ready E); [|simpl; tauto].
  destruct (gemini_generate E n) as [t|].
  - rewrite nonempty_falsy. split.
    + intros H. right. right. exists t. auto.
    + intros [H|[H|(t' & H & Hs)]]; try discriminate.
      injection H as <-. exact Hs.
  - simpl. split; auto.
Qed.

Lemma cloud_result_none E :
  cloud_result E = None <-> cloud_gives_nothing E.
Proof.
  unfold cloud_result, cloud_gives_nothing.
  destruct (vision_text_detection E) as [[|t ts]|]; split; intros H; auto;
    try discriminate; destruct H; discriminate.
Qed.

Lemma falsy_not_none x : falsy x = false -> x <> None.
Proof. destruct x; simpl; [discriminate|discriminate]. Qed.

(** C9 as stated fails for the cloud OCR backend: its first annotation
    is returned without the test [if text:] of the other backends, so an
    empty description ends the cascade, and the model is not tried
    again although it would give text. *)
Lemma cloud_empty_description_counterexample :
  ~ (forall E,
        local_gives_nothing E -> model_gives_nothing E 0 ->
        (cloud_gives_nothing E
         \/ exists ts, vision_text_detection E = Returned ([] :: ts)) ->
        snd (run_ocr E) = all_calls E).
Proof.
  intros H. specialize (H sample_env_empty_description).
  assert (Hl : local_gives_nothing sample_env_empty_description)
    by (left; reflexivity).
  assert (Hm : model_gives_nothing sample_env_empty_description 0)
    by (right; right; exists []; split; reflexivity).
  specialize (H Hl Hm (or_intror (ex_intro _ [] eq_refl))).
  vm_compute in H. discriminate.
Qed.

(** C9, amended: when the local OCR backend yields nothing (it is
    switched off, returns null or the empty string, or raises) and the
    vision-language model yields non-empty text, [ocr_extract_text]
    returns the model's text and the cloud OCR backend is never called;
    an exception or an empty result of the local backend or of the
    model, and an exception or an empty list of annotations of the cloud
    backend, only move the cascade on, and the result is null exactly
    when every backend, the final retry of the model included, has
    given nothing in this sense, all of them having been called; when
    the cloud backend returns an annotation, its description is the
    result as it is, empty or not, and the model is not tried again. *)
Theorem ocr_backend_cascade (E : env) :
  (forall t,
      local_gives_nothing E -> gemini_ready E = true ->
      gemini_generate E 0 = Returned t -> strip t <> [] ->
      run_ocr E = (Some (strip t), local_calls E ++ [Gemini])
      /\ ~ In Vision (snd (run_ocr E)))
  /\ (fst (run_ocr E) = None <->
      local_gives_nothing E /\ model_gives_nothing E 0
      /\ cloud_gives_nothing E
      /\ model_gives_nothing E (List.length (model_calls E)))
  /\ (fst (run_ocr E) = None -> snd (run_ocr E) = all_calls E)
  /\ (forall t ts,
        local_gives_nothing E -> model_gives_nothing E 0 ->
        vision_text_detection E = Returned (t :: ts) ->
        run_ocr E = (Some t, local_calls E ++ model_calls E ++ [Vision])).
Proof.
  rewrite run_ocr_cases.
  pose proof (local_result_falsy E) as L1.
  pose proof (model_result_falsy E 0) as L2.
  pose proof (cloud_result_none E) as L3.
  pose proof (model_result_falsy E (List.length (model_calls E))) as L4.
  split; [|split; [|split]]; cycle 3.
  { intros t ts Hl Hm Hv. apply L1 in Hl. apply L2 in Hm. rewrite Hl, Hm.
    cbn [negb]. unfold cloud_result. rewrite Hv. reflexivity. }
  - intros t Hl Hr Hg Hne. apply L1 in Hl. rewrite Hl. simpl.
    assert (Hm : model_result E 0 = Some (strip t)).
    { unfold model_result. rewrite Hr, Hg.
      destruct (strip t); [congruence|reflexivity]. }
    assert (Hf : falsy (model_result E 0) = false).
    { rewrite Hm. simpl. destruct (strip t); [congruence|reflexivity]. }
    rewrite Hf. simpl. unfold model_calls. rewrite Hr, Hm.
    split; [reflexivity|]. simpl.
    unfold local_calls. destruct (TESSERACT_AVAILABLE E); simpl;
      intros H; repeat (destruct H as [H|H]; try discriminate); exact H.
  - rewrite <- L1, <- L2, <- L3, <- L4.
    destruct (falsy (local_result E)) eqn:H1; simpl.
    + destruct (falsy (model_result E 0)) eqn:H2; simpl.
      * destruct (cloud_result E) as [t|] eqn:H3; simpl.
        -- split; [discriminate|]. intros (_ & _ & H & _). discriminate.
        -- destruct (falsy (model_result E (List.length (model_calls E)))) eqn:H4; simpl.
           ++ split; [intros _; repeat split; reflexivity|reflexivity].
           ++ split; [|intros (_ & _ & _ & H); discriminate].
              intros H. apply falsy_not_none in H4. contradiction.
      * split; [|intros (_ & H & _); discriminate].
        intros H. apply falsy_not_none in H2. contradiction.
    + split; [|intros (H & _); discriminate].
      intros H. apply falsy_not_none in H1. contradiction.
  - destruct (falsy (local_result E)) eqn:H1; simpl.
    + destruct (falsy (model_result E 0)) eqn:H2; simpl.
      * destruct (cloud_result E) as [t|] eqn:H3; simpl; [discriminate|].
        destruct (falsy (model_result E (List.length (model_calls E)))) eqn:H4; simpl; [reflexivity|].
        intros H. apply falsy_not_none in H4. contradiction.
      * intros H. apply falsy_not_none in H2. contradiction.
    + intros H. apply falsy_not_none in H1. contradiction.
Qed.

Lemma ocr_backend_cascade_witness :
  run_ocr sample_env = (Some (s2l "Dolo-650 B.No. ALA306"), [Tesseract; Gemini])
  /\ ~ In Vision (snd (run_ocr sample_env)).
Proof.
  refine (proj1 (ocr_backend_cascade sample_env) (s2l "  Dolo-650 B.No. ALA306 ") _ _ _ _).
  - right. left. reflexivity.
  - reflexivity.
  - reflexivity.
  - vm_compute. discriminate.
Defined.

End Orchestrator.

(** ** Claims about [normalize_vertical] *)

Module Vertical.

Section Runs.

Variable p : text -> bool.

(** The first run starts with the first line and carries its value. *)
Lemma maximal_runs_cons l rest :
  exists run gs,
    maximal_runs p (l :: rest) = (p l, l :: run) :: gs
    /\ ((maximal_runs p rest = (p l, run) :: gs)
        \/ (run = [] /\ gs = maximal_runs p rest
            /\ match gs with
               | (b, _) :: _ => b = negb (p l)
               | [] => rest = []
               end)).
Proof.
  simpl. destruct (maximal_runs p rest) as [|[b run] gs] eqn:E.
  - exists [], []. split; [reflexivity|]. right. repeat split.
    destruct rest as [|x xs]; [reflexivity|].
    simpl in E. destruct (maximal_runs p xs) as [|[b' r'] g']; [discriminate|].
    destruct (Bool.eqb b' (p x)); discriminate.
  - destruct (Bool.eqb b (p l)) eqn:Eb.
    + apply Bool.eqb_prop in Eb. subst b.
      exists run, gs. split; [reflexivity|]. left. reflexivity.
    + exists [], ((b, run) :: gs). split; [reflexivity|]. right. repeat split.
      destruct b, (p l); simpl in *; congruence.
Qed.

(** The runs, put back together, are the lines. *)
Lemma maximal_runs_concat ls :
  List.concat (map snd (maximal_runs p ls)) = ls.
Proof.
  induction ls as [|l rest IH]; [reflexivity|].
  simpl. destruct (maximal_runs p rest) as [|[b run] gs].
  - simpl in *. rewrite <- IH. reflexivity.
  - destruct (Bool.eqb b (p l)); simpl in *; rewrite <- IH; reflexivity.
Qed.

(** Every run is non-empty and [p] has the value of the run on each of
    its lines. *)
Lemma maximal_runs_uniform ls :
  Forall (fun g => snd g <> [] /\ Forall (fun l => p l = fst g) (snd g))
         (maximal_runs p ls).
Proof.
  induction ls as [|l rest IH]; [constructor|].
  simpl. destruct (maximal_runs p rest) as [|[b run] gs].
  - constructor; [|constructor]. simpl. split; [discriminate|]. repeat constructor.
  - inversion IH as [|g gs' [Hne Hall] Hgs]; subst. simpl in *.
    destruct (Bool.eqb b (p l)) eqn:Eb.
    + apply Bool.eqb_prop in Eb. constructor; [|assumption].
      simpl. split; [discriminate|]. constructor; [symmetry; assumption|assumption].
    + constructor; [|constructor; [|assumption]].
      * simpl. split; [discriminate|]. repeat constructor.
      * simpl. split; assumption.
Qed.

(** Runs next to each other differ in the value of [p]: each run is
    maximal. *)
Fixpoint alternating (gs : list (bool * list text)) : Prop :=
  match gs with
  | g1 :: rest =>
      match rest with
      | g2 :: _ => fst g1 <> fst g2 /\ alternating rest
      | [] => True
      end
  | [] => True
  end.

Lemma maximal_runs_alternating ls : alternating (maximal_runs p ls).
Proof.
  induction ls as [|l rest IH]; [exact I|].
  simpl. destruct (maximal_runs p rest) as [|[b run] gs]; [exact I|].
  destruct (Bool.eqb b (p l)) eqn:Eb.
  - simpl in *. destruct gs; [exact I|]. exact IH.
  - simpl. split; [|exact IH].
    intros H. rewrite H, Bool.eqb_reflx in Eb. discriminate.
Qed.

End Runs.

Lemma rewrite_single_run l run :
  spec_rewrite_run (true, l :: run) = [List.concat (map strip (l :: run))].
Proof.
  unfold spec_rewrite_run. destruct run as [|x run]; [|reflexivity].
  simpl. rewrite app_nil_r. reflexivity.
Qed.

(** A one-character line opens a run that is joined into one line. *)
Lemma spec_single_line rest :
  forall l, single_alnum l = true ->
    spec_normalize_lines (l :: rest)
    = List.concat (strip l :: fst (collect_run rest))
      :: spec_normalize_lines (snd (collect_run rest)).
Proof.
  unfold spec_normalize_lines.
  induction rest as [|x xs IH]; intros l Hl.
  - simpl. rewrite Hl. simpl. rewrite app_nil_r. reflexivity.
  - destruct (maximal_runs_cons single_alnum l (x :: xs)) as (run & gs & Hr & Hc).
    rewrite Hr, Hl. cbn [flat_map]. rewrite rewrite_single_run.
    destruct (maximal_runs_cons single_alnum x xs) as (r & g & Hr' & _).
    cbn [collect_run]. destruct (single_alnum x) eqn:Hx.
    + specialize (IH x Hx).
      destruct (collect_run xs) as [cr rest'] eqn:Hcr. cbn [fst snd] in *.
      destruct Hc as [Hc|(-> & -> & Hc)].
      * rewrite Hl, Hr' in Hc. injection Hc as <- <-.
        rewrite Hr' in IH. cbn [flat_map] in IH.
        rewrite rewrite_single_run in IH. cbn [app] in IH.
        injection IH as IH1 IH2.
        cbn [map List.concat app] in *. rewrite IH1, IH2. reflexivity.
      * exfalso. rewrite Hr', Hl in Hc. discriminate.
    + cbn [fst snd]. destruct Hc as [Hc|(-> & -> & Hc)].
      * exfalso. rewrite Hr', Hl in Hc. discriminate.
      * cbn [map List.concat app]. rewrite app_nil_r. reflexivity.
Qed.

(** Any other line is stripped and stays a line of its own. *)
Lemma spec_other_line l rest :
  single_alnum l = false ->
  spec_normalize_lines (l :: rest) = strip l :: spec_normalize_lines rest.
Proof.
  unfold spec_normalize_lines. intros Hl. simpl.
  destruct (maximal_runs single_alnum rest) as [|[b run] gs]; rewrite ?Hl.
  - reflexivity.
  - destruct b; simpl; reflexivity.
Qed.

(** The loop of the program computes the rewriting of the specification. *)
Lemma normalize_lines_spec lines :
  normalize_lines lines = spec_normalize_lines lines.
Proof.
  funelim (normalize_lines lines).
  - reflexivity.
  - rewrite spec_single_line by assumption. f_equal. assumption.
  - rewrite spec_other_line by assumption. f_equal. assumption.
Qed.

(** C10: [normalize_vertical] joins every maximal run of two or more
    consecutive lines that each consist of one alphanumeric character
    (after stripping) into a single line, in order, strips every other
    line and keeps it, and keeps the order of the lines; the runs are
    maximal, uniform and cover the lines; and it is this rewritten text
    that the regular expressions of the cascade read. *)
Theorem normalize_vertical_spec :
  (forall text_, normalize_vertical text_ = spec_normalize_vertical text_)
  /\ (forall lines,
         let runs := maximal_runs single_alnum lines in
         List.concat (map snd runs) = lines
         /\ Forall (fun g => snd g <> []
                             /\ Forall (fun l => single_alnum l = fst g) (snd g)) runs
         /\ alternating runs)
  /\ (forall P gem_direct ocr_text gem_fields,
         truthy ocr_text = true ->
         extract_fields P gem_direct (Some ocr_text) gem_fields
         = Strptime.bind
             (method2 P (normalize_vertical ocr_text) (method1 gem_direct))
             (fun e2 => Some (method3 gem_fields (normalize_vertical ocr_text) e2,
                              Some (normalize_vertical ocr_text)))).
Proof.
  split; [|split].
  - intros text_. unfold normalize_vertical, spec_normalize_vertical.
    rewrite normalize_lines_spec. reflexivity.
  - intros lines runs. subst runs. split; [apply maximal_runs_concat|].
    split; [apply maximal_runs_uniform|apply maximal_runs_alternating].
  - intros P gd t gf Ht. unfold extract_fields. simpl. rewrite Ht. reflexivity.
Qed.

Lemma normalize_vertical_spec_witness :
  normalize_vertical sample_vertical_text = s2l "DOLO
650 mg"
  /\ extract_fields PATTERNS None (Some sample_vertical_text) (fun _ => None)
     = Strptime.bind
         (method2 PATTERNS (normalize_vertical sample_vertical_text)
                  (method1 None))
         (fun e2 => Some (method3 (fun _ => None)
                                  (normalize_vertical sample_vertical_text) e2,
                          Some (normalize_vertical sample_vertical_text))).
Proof.
  split; [vm_compute; reflexivity|].
  apply (proj2 (proj2 normalize_vertical_spec)). vm_compute. reflexivity.
Defined.

End Vertical.

(** ** Claims about the value normaliser *)

Module Normalizer.

Import ReFacts.

Lemma is_space_lower_char c : is_space (lower_char c) = is_space c.
Proof.
  destruct c as [b0 b1 b2 b3 b4 b5 b6 b7].
  destruct b0, b1, b2, b3, b4, b5, b6, b7; reflexivity.
Qed.

Lemma split_aux_lower s :
  forall cur, split_aux (lower s) (lower cur) = map lower (split_aux s cur).
Proof.
  unfold lower.
  induction s as [|c s IH]; intros cur.
  - destruct cur as [|x cur]; [reflexivity|].
    simpl. rewrite map_app, map_rev. reflexivity.
  - cbn [map split_aux]. rewrite is_space_lower_char. destruct (is_space c).
    + destruct cur as [|x cur].
      * apply (IH []).
      * simpl. rewrite map_app, map_rev. simpl. f_equal. apply (IH []).
    + apply (IH (c :: cur)).
Qed.

(** Lower-casing does not move the token boundaries. *)
Lemma split_lower s : split (lower s) = map lower (split s).
Proof. apply (split_aux_lower s []). Qed.

Lemma split_aux_tokens s :
  forall cur, Forall (fun t => t <> []) (split_aux s cur).
Proof.
  induction s as [|c s IH]; intros cur; simpl.
  - destruct cur as [|x cur]; constructor; [|constructor].
    intros H. apply (f_equal (@rev ascii)) in H.
    rewrite rev_involutive in H. discriminate.
  - destruct (is_space c); [|apply IH].
    destruct cur as [|x cur]; [apply IH|].
    constructor; [|apply IH].
    intros H. apply (f_equal (@rev ascii)) in H.
    rewrite rev_involutive in H. discriminate.
Qed.

Lemma split_aux_nil s :
  forall cur, split_aux s cur = [] -> cur = [] /\ forallb is_space s = true.
Proof.
  induction s as [|c s IH]; intros cur; simpl.
  - destruct cur; [auto|discriminate].
  - destruct (is_space c) eqn:Hc.
    + destruct cur; [|discriminate]. intros H. apply IH in H. tauto.
    + intros H. apply IH in H. destruct H; discriminate.
Qed.

(** With a token in the value the brand filter always fires. *)
Lemma brand_filter_fires value :
  split value <> [] -> brand_filter_condition value = true.
Proof.
  unfold brand_filter_condition. intros H.
  destruct (split value) as [|t ts] eqn:E; [congruence|].
  rewrite split_lower, E. simpl.
  pose proof (split_aux_tokens value []) as Ht. fold (split value) in Ht.
  rewrite E in Ht. inversion Ht as [|? ? Hne _]; subst.
  destruct t; [congruence|reflexivity].
Qed.

Lemma is_space_noise c : is_space c = true -> noise c = true.
Proof. unfold noise, either. intros ->. apply orb_true_r. Qed.

(** A greedy repetition over a text that is all in the class reads all
    of it first. *)
Lemma rep_greedy_all {A : Type} p (k : @cont A) r :
  forall s lo prev caps,
    forallb p s = true -> (lo <= List.length s)%nat ->
    k (last_char s prev) [] caps = Some r ->
    rep_greedy p lo None prev s caps k = Some r.
Proof.
  induction s as [|c s IH]; intros lo prev caps Hall Hlo Hk; simpl.
  - destruct lo; [exact Hk|simpl in Hlo; lia].
  - simpl in Hall. apply andb_true_iff in Hall. destruct Hall as [Hc Hall].
    rewrite Hc. simpl.
    rewrite (IH (pred lo) (Some c) caps Hall); [reflexivity|simpl in Hlo; lia|].
    rewrite <- last_char_cons with (prev := prev). exact Hk.
Qed.

Lemma trailing_noise_all prev s :
  forallb noise s = true -> s <> [] ->
  match_here re_trailing_noise prev s = Some ([], []).
Proof.
  intros Hall Hne. unfold match_here, re_trailing_noise, plus. simpl.
  apply rep_greedy_all; [assumption| |reflexivity].
  destruct s; [congruence|simpl; lia].
Qed.

Lemma trailing_noise_match prev s rest caps :
  match_here re_trailing_noise prev s = Some (rest, caps) ->
  forallb noise s = true.
Proof.
  intros H. apply match_here_sound in H. destruct H as [p1 H].
  unfold re_trailing_noise, plus in H.
  inversion H as [| |? ? ? ? ? ? ? ? ? ? ? H1 H2| | | | | | | | |]; subst.
  inversion H1; subst. inversion H2; subst.
  rewrite forallb_app. apply andb_true_iff. split; [assumption|].
  destruct rest as [|c [|d rest']]; simpl in *; try discriminate; [reflexivity|].
  rewrite andb_true_r. unfold noise, either, is_space.
  match goal with H : (code c =? 10)%nat = true |- _ =>
    apply Nat.eqb_eq in H; rewrite H end.
  apply orb_true_r.
Qed.

Lemma sub_from_skip_noise r :
  forall s prev k, (List.length s <= k)%nat -> sub_from r erase prev s k = [].
Proof.
  induction s as [|c s IH]; intros prev k Hk.
  - destruct k; simpl; [|reflexivity].
    destruct (match_here r prev []) as [[rest caps]|]; reflexivity.
  - destruct k; [simpl in Hk; lia|]. simpl. apply IH. simpl in Hk. lia.
Qed.

(** Erasing a match that covers a text of noise leaves nothing. *)
Lemma sub_trailing_noise_all :
  forall s prev, forallb noise s = true ->
                 sub_from re_trailing_noise erase prev s 0 = [].
Proof.
  intros s prev Hall. destruct s as [|c s]; simpl.
  - destruct (match_here re_trailing_noise prev []) as [[rest caps]|]; reflexivity.
  - rewrite (trailing_noise_all prev (c :: s) Hall) by discriminate.
    cbn [erase app List.length Nat.sub].
    apply sub_from_skip_noise. lia.
Qed.

Lemma sub_trailing_noise_empty :
  forall s prev, sub_from re_trailing_noise erase prev s 0 = [] ->
                 forallb noise s = true.
Proof.
  intros s prev. destruct s as [|c s]; [reflexivity|].
  cbn [sub_from].
  destruct (match_here re_trailing_noise prev (c :: s)) as [[rest caps]|] eqn:E.
  - intros _. exact (trailing_noise_match prev (c :: s) rest caps E).
  - discriminate.
Qed.

(** After the trailing noise is gone, a value made of whitespace only is
    empty. *)
Lemma sub_trailing_noise_blank :
  forall s prev,
    forallb is_space (sub_from re_trailing_noise erase prev s 0) = true ->
    sub_from re_trailing_noise erase prev s 0 = [].
Proof.
  induction s as [|c s IH]; intros prev Hb.
  - simpl. destruct (match_here re_trailing_noise prev []) as [[rest caps]|];
      reflexivity.
  - destruct (match_here re_trailing_noise prev (c :: s)) as [[rest caps]|] eqn:E.
    + apply sub_trailing_noise_all. eapply trailing_noise_match. exact E.
    + exfalso. simpl in Hb. rewrite E in Hb. simpl in Hb.
      apply andb_true_iff in Hb. destruct Hb as [Hc Hb].
      pose proof (IH (Some c) Hb) as Hnil.
      apply sub_trailing_noise_empty in Hnil.
      assert (Hall : forallb noise (c :: s) = true).
      { simpl. rewrite (is_space_noise c Hc), Hnil. reflexivity. }
      rewrite (trailing_noise_all prev (c :: s) Hall) in E by discriminate.
      discriminate.
Qed.

(** The brand branch of the normaliser rejects every value. *)
Lemma clean_brand_always_none value :
  clean_extracted_value value FBrand = None.
Proof.
  unfold clean_extracted_value. destruct value as [v0|]; [|reflexivity].
  destruct (negb (truthy v0) || text_eqb v0 INFO_NA); [reflexivity|].
  set (v3 := sub re_trailing_noise erase _).
  destruct (split v3) as [|t ts] eqn:E.
  - pose proof (split_aux_nil v3 [] E) as [_ Hb].
    assert (Hnil : v3 = []) by (apply sub_trailing_noise_blank; exact Hb).
    rewrite Hnil. reflexivity.
  - rewrite brand_filter_fires; [reflexivity|]. rewrite E. discriminate.
Qed.

(** C7: the brand value "Dolo-650", whose first token is not in the
    deny-list of generic lead words, is rejected by
    [clean_extracted_value]: read as Python reads it, the deny-list test
    is true for every value that has a token, so the normaliser returns
    null for every brand value, listed or not.  As plain text the same
    value is kept. *)
Theorem clean_brand_dolo_rejected :
  clean_extracted_value (Some (s2l "Dolo-650")) FBrand = None
  /\ text_in (hd [] (split (lower (s2l "Dolo-650")))) invalid_starts = false
  /\ clean_extracted_value (Some (s2l "Dolo-650")) FText = Some (s2l "Dolo-650")
  /\ clean_extracted_value (Some (s2l "Each film coated tablet")) FBrand = None
  /\ forall value, clean_extracted_value value FBrand = None.
Proof.
  split; [vm_compute; reflexivity|].
  split; [vm_compute; reflexivity|].
  split; [vm_compute; reflexivity|].
  split; [vm_compute; reflexivity|].
  apply clean_brand_always_none.
Qed.

End Normalizer.

(** ** Claims about the extraction cascade *)

Module Cascade.

Import ParseFacts.

Lemma regex_fill_keeps field full_text ps :
  falsy field = false -> regex_fill field full_text ps = Some field.
Proof. unfold regex_fill. intros ->. reflexivity. Qed.

Lemma model_fill_keeps field answer :
  falsy field = false -> model_fill field answer = field.
Proof. unfold model_fill. intros ->. reflexivity. Qed.

Lemma regex_fill_unfound field full_text ps r :
  falsy field = true -> find_first_match full_text ps = Some INFO_NA ->
  regex_fill field full_text ps = Some r -> r = Some INFO_NA.
Proof.
  unfold regex_fill. intros -> ->. simpl. intros H. injection H as <-. reflexivity.
Qed.

(** What [method2] returns, field by field. *)
Lemma method2_fields P full_text e e2 :
  method2 P full_text e = Some e2 ->
  regex_fill (dosage e) full_text (p_dosage P) = Some (dosage e2)
  /\ regex_fill (batch e) full_text (p_batch_number P) = Some (batch e2)
  /\ regex_fill (mfd_date e) full_text (p_mfd P) = Some (mfd_date e2)
  /\ regex_fill (exp_date e) full_text (p_expiry P) = Some (exp_date e2)
  /\ regex_fill (manufacturer e) full_text (p_manufacturer P)
     = Some (manufacturer e2)
  /\ regex_fill (mrp_str e) full_text (p_mrp P) = Some (mrp_str e2)
  /\ (falsy (brand e) = false -> brand e2 = brand e).
Proof.
  unfold method2. intros H.
  apply bind_some in H. destruct H as (b & Hb & H).
  apply bind_some in H. destruct H as (d & Hd & H).
  apply bind_some in H. destruct H as (bn & Hbn & H).
  apply bind_some in H. destruct H as (mf & Hmf & H).
  apply bind_some in H. destruct H as (ex & Hex & H).
  apply bind_some in H. destruct H as (ma & Hma & H).
  apply bind_some in H. destruct H as (mr & Hmr & H).
  injection H as <-. simpl. repeat split; try assumption.
  intros Hf. rewrite Hf in Hb. injection Hb as <-. reflexivity.
Qed.

Lemma extract_fields_passes P gem_direct ocr_text gem_fields e ft :
  truthy ocr_text = true ->
  extract_fields P gem_direct (Some ocr_text) gem_fields = Some (e, ft) ->
  exists e2,
    method2 P (normalize_vertical ocr_text) (method1 gem_direct) = Some e2
    /\ e = method3 gem_fields (normalize_vertical ocr_text) e2.
Proof.
  unfold extract_fields. simpl. intros -> H. simpl in H.
  apply bind_some in H. destruct H as (e2 & H2 & H).
  injection H as <- _. exists e2. auto.
Qed.

(** No pass overwrites a field that an earlier pass has filled. *)
Lemma filled_fields_are_kept P gem_direct ocr_text gem_fields e ft :
  truthy ocr_text = true ->
  extract_fields P gem_direct (Some ocr_text) gem_fields = Some (e, ft) ->
  let e1 := method1 gem_direct in
  (falsy (brand e1) = false -> brand e = brand e1)
  /\ (falsy (dosage e1) = false -> dosage e = dosage e1)
  /\ (falsy (batch e1) = false -> batch e = batch e1)
  /\ (falsy (mfd_date e1) = false -> mfd_date e = mfd_date e1)
  /\ (falsy (exp_date e1) = false -> exp_date e = exp_date e1)
  /\ (falsy (manufacturer e1) = false -> manufacturer e = manufacturer e1)
  /\ (falsy (mrp_str e1) = false -> mrp_str e = mrp_str e1).
Proof.
  intros Ht H e1. subst e1.
  destruct (extract_fields_passes _ _ _ _ _ _ Ht H) as (e2 & H2 & ->).
  apply method2_fields in H2.
  destruct H2 as (Hd & Hbn & Hmf & Hex & Hma & Hmr & Hb).
  set (e1 := method1 gem_direct) in *.
  set (full := normalize_vertical ocr_text) in *.
  assert (K : forall (f : extracted -> option text) ps,
             regex_fill (f e1) full ps = Some (f e2) ->
             falsy (f e1) = false -> f e2 = f e1).
  { intros f ps Hr Hf. rewrite regex_fill_keeps in Hr by exact Hf.
    injection Hr as <-. reflexivity. }
  unfold method3.
  destruct (falsy (brand e2) || falsy (batch e2) || falsy (mfd_date e2)
            || falsy (exp_date e2)) eqn:Hcond;
    [destruct (gem_fields full) as [g|]|]; cbn [brand dosage batch mfd_date
      exp_date manufacturer mrp_str];
    repeat split; intros Hf;
    try (rewrite model_fill_keeps;
         [eapply K; eassumption
         |erewrite K by eassumption; exact Hf]);
    try (eapply K; eassumption);
    try (apply Hb; exact Hf).
  rewrite (Hb Hf), Hf. reflexivity.
Qed.

(** A field the regular expressions did not find carries the truthy
    placeholder, and the third pass leaves it alone. *)
Lemma unfound_fields_stay_unfound P gem_direct ocr_text gem_fields e ft :
  truthy ocr_text = true ->
  extract_fields P gem_direct (Some ocr_text) gem_fields = Some (e, ft) ->
  let e1 := method1 gem_direct in
  let full_text := normalize_vertical ocr_text in
  (falsy (batch e1) = true ->
   find_first_match full_text (p_batch_number P) = Some INFO_NA ->
   batch e = Some INFO_NA)
  /\ (falsy (mfd_date e1) = true ->
      find_first_match full_text (p_mfd P) = Some INFO_NA ->
      mfd_date e = Some INFO_NA)
  /\ (falsy (exp_date e1) = true ->
      find_first_match full_text (p_expiry P) = Some INFO_NA ->
      exp_date e = Some INFO_NA)
  /\ (falsy (dosage e1) = true ->
      find_first_match full_text (p_dosage P) = Some INFO_NA ->
      dosage e = Some INFO_NA).
Proof.
  intros Ht H e1 full_text. subst e1 full_text.
  destruct (extract_fields_passes _ _ _ _ _ _ Ht H) as (e2 & H2 & ->).
  apply method2_fields in H2.
  destruct H2 as (Hd & Hbn & Hmf & Hex & Hma & Hmr & Hb).
  unfold method3.
  destruct (_ || _); [destruct (gem_fields _) as [g|]|];
    cbn [brand dosage batch mfd_date exp_date manufacturer mrp_str];
    repeat split; intros Hf Hu;
    match goal with
    | Hr : regex_fill ?x _ ?ps = Some ?y, Hu : find_first_match _ ?ps = _ |- _ =>
        pose proof (regex_fill_unfound _ _ _ _ Hf Hu Hr) as Hs
    end; rewrite Hs; reflexivity.
Qed.

(** C8: on an OCR text in which the regular expressions find no batch
    number and no dates, the third pass does not fill them, although the
    model answers with a batch number and both dates: the regex pass
    leaves the truthy placeholder "Information not available" in every
    field it does not find, so the fields count as filled.  With the
    brand found ("take care") the third pass is not even asked; with the
    brand rejected ("keep cool") it is asked and fills the brand only. *)
Theorem third_pass_does_not_fill_unfound_fields :
  extract_fields PATTERNS None (Some (s2l "take care")) (fun _ => Some sample_reply)
  = Some (Extracted (Some (s2l "take")) (Some INFO_NA) (Some INFO_NA)
                    (Some INFO_NA) (Some INFO_NA) (Some INFO_NA) (Some INFO_NA),
          Some (s2l "take care"))
  /\ extract_fields PATTERNS None (Some (s2l "keep cool")) (fun _ => Some sample_reply)
     = Some (Extracted (Some (s2l "Dolo 650")) (Some INFO_NA) (Some INFO_NA)
                       (Some INFO_NA) (Some INFO_NA) (Some INFO_NA) (Some INFO_NA),
             Some (s2l "keep cool"))
  /\ r_batch_number sample_reply = Some (s2l "ALA306")
  /\ r_manufacture_date sample_reply = Some (s2l "JAN.24")
  /\ r_expiry_date sample_reply = Some (s2l "DEC.26").
Proof.
  split; [vm_compute; reflexivity|].
  split; [vm_compute; reflexivity|].
  repeat split.
Qed.

End Cascade.

(** ** The parser, clock apart

    What each rule of [parse_date_flexible] reads from the text does not
    depend on the clock; only the range check of the year does. *)

Module ParseTrace.

Import DateFacts ParseFacts.

(** The text the rules work on: [None] when the parser gives up at once. *)
Definition parse_input (date_str : text) : option text :=
  if negb (truthy date_str) then None
  else if text_in (lower (strip date_str)) placeholders then None
       else Some (strip date_str).

(** Year and month of rule 1, before the range check. *)
Definition rule1_fields (s : text) : option (Z * Z) :=
  match search re_month_year s with
  | None => None
  | Some m =>
      match group m 1, Strptime.bind (group m 2) int with
      | Some g1, Some y =>
          Some (fix_year y, dict_get month_map (firstn 3 (lower g1)) 1)
      | _, _ => None
      end
  end.

Definition rule2_fields (s : text) : option (Z * Z) :=
  match search re_numeric s with
  | None => None
  | Some m =>
      match Strptime.bind (group m 1) int, Strptime.bind (group m 2) int with
      | Some mm, Some y =>
          if (1 <=? mm) && (mm <=? 12) then Some (fix_year y, mm) else None
      | _, _ => None
      end
  end.

Definition rule3_fields (s : text) : option (Z * Z) :=
  match search re_year4 s with
  | None => None
  | Some m =>
      match Strptime.bind (group m 1) int with
      | Some yyyy => Some (yyyy, 1)
      | None => None
      end
  end.

Definition rule4_fields (s : text) : option (Z * Z) :=
  match search re_year2 s with
  | None => None
  | Some m =>
      match Strptime.bind (group m 1) int with
      | Some y => Some (fix_year y, 1)
      | None => None
      end
  end.

(** The first template of the fallback table that reads the text. *)
Fixpoint first_parsed (s_normalized : text) (fs : list text) : option date :=
  match fs with
  | [] => None
  | fmt :: rest =>
      first_some (Strptime.strptime s_normalized fmt) (first_parsed s_normalized rest)
  end.

Section Clock.

Variable now : date.

(** The range check of a rule. *)
Definition checked (f : option (Z * Z)) : option date :=
  match f with
  | Some (yyyy, mm) => if valid_year now yyyy then mk_date yyyy mm 1 else None
  | None => None
  end.

Lemma pattern1_checked s : pattern1 now s = checked (rule1_fields s).
Proof.
  unfold pattern1, rule1_fields, checked.
  destruct (search re_month_year s) as [m|]; [|reflexivity].
  destruct (group m 1); [|reflexivity].
  destruct (Strptime.bind (group m 2) int); reflexivity.
Qed.

Lemma pattern2_checked s : pattern2 now s = checked (rule2_fields s).
Proof.
  unfold pattern2, rule2_fields, checked.
  destruct (search re_numeric s) as [m|]; [|reflexivity].
  destruct (Strptime.bind (group m 1) int) as [mm|]; [|reflexivity].
  destruct (Strptime.bind (group m 2) int); [|reflexivity].
  destruct ((1 <=? mm) && (mm <=? 12)); reflexivity.
Qed.

Lemma pattern3_checked s : pattern3 now s = checked (rule3_fields s).
Proof.
  unfold pattern3, rule3_fields, checked.
  destruct (search re_year4 s) as [m|]; [|reflexivity].
  destruct (Strptime.bind (group m 1) int); reflexivity.
Qed.

Lemma pattern4_checked s : pattern4 now s = checked (rule4_fields s).
Proof.
  unfold pattern4, rule4_fields, checked.
  destruct (search re_year2 s) as [m|]; [|reflexivity].
  destruct (Strptime.bind (group m 1) int); reflexivity.
Qed.

Lemma parse_date_flexible_input date_str :
  parse_date_flexible now date_str =
  match parse_input date_str with
  | None => None
  | Some s =>
      first_some (pattern1 now s)
     (first_some (pattern2 now s)
     (first_some (pattern3 now s)
     (first_some (pattern4 now s)
                 (strptime_fallback now (normalize_periods s) fmts))))
  end.
Proof.
  unfold parse_date_flexible, parse_input.
  destruct (negb (truthy date_str)); [reflexivity|].
  destruct (text_in _ placeholders); reflexivity.
Qed.

Lemma checked_none_early y m : y < 1990 -> checked (Some (y, m)) = None.
Proof.
  intros H. unfold checked, valid_year.
  apply Z.leb_gt in H. rewrite H. reflexivity.
Qed.

Lemma checked_some y m :
  valid_year now y = true -> y <= 9999 -> 1 <= m <= 12 ->
  checked (Some (y, m)) = Some (Date y m 1).
Proof.
  intros Hv Hy Hm. unfold checked. rewrite Hv.
  unfold mk_date.
  assert (Hd : valid_date y m 1 = true).
  { apply valid_date_spec. unfold valid_year in Hv.
    apply andb_true_iff in Hv. rewrite !Z.leb_le in Hv.
    pose proof (days_in_month_ge_28 y m). lia. }
  rewrite Hd. reflexivity.
Qed.

(** When no template before the first one that reads the text does, the
    fallback returns what that template gives, checked. *)
Lemma strptime_fallback_first s fs dt :
  first_parsed s fs = Some dt -> 100 <= year dt -> valid_year now (year dt) = true ->
  strptime_fallback now s fs = Some dt.
Proof.
  induction fs as [|f fs IH]; simpl; [discriminate|].
  intros H Hy Hv. unfold try_format.
  destruct (Strptime.strptime s f) as [d|]; simpl in *.
  - injection H as ->. apply Z.ltb_ge in Hy. rewrite Hy, Hv. reflexivity.
  - auto.
Qed.

Lemma strptime_fallback_none s fs :
  first_parsed s fs = None -> strptime_fallback now s fs = None.
Proof.
  induction fs as [|f fs IH]; simpl; [reflexivity|].
  unfold try_format. destruct (Strptime.strptime s f) as [d|]; simpl; [discriminate|].
  exact IH.
Qed.

End Clock.

(** The integers from [lo], [n] of them. *)
Definition zrange (lo : Z) (n : nat) : list Z :=
  map (fun k => lo + Z.of_nat k) (seq 0 n).

Lemma in_zrange lo n x : lo <= x < lo + Z.of_nat n -> In x (zrange lo n).
Proof.
  intros H. unfold zrange. apply in_map_iff.
  exists (Z.to_nat (x - lo)). split; [lia|]. apply in_seq. lia.
Qed.

End ParseTrace.

(** ** Claims about the round trip through "MMM.YY" *)

Module RoundTrip.

Import DateFacts ParseFacts ParseTrace.

Definition months : list Z := zrange 1 12.

(** Rule 1 reads year [y] and month [m] back from the formatted month. *)
Definition rule1_reads (y m : Z) : bool :=
  match parse_input (format_mmm_yy y m) with
  | Some s =>
      match rule1_fields s with
      | Some (y', m') => (y' =? y) && (m' =? m)
      | None => false
      end
  | None => false
  end.

(** A rule that reads nothing, or a year before 1990, which no clock
    accepts. *)
Definition rule_fails (f : option (Z * Z)) : bool :=
  match f with
  | Some (y', _) => y' <? 1990
  | None => true
  end.

(** The four rules fail on the formatted month and the first template
    that reads it gives [(y, m)]. *)
Definition fallback_reads (y m : Z) : bool :=
  match parse_input (format_mmm_yy y m) with
  | Some s =>
      rule_fails (rule1_fields s) && rule_fails (rule2_fields s)
      && rule_fails (rule3_fields s) && rule_fails (rule4_fields s)
      && match first_parsed (normalize_periods s) fmts with
         | Some dt => date_eqb dt (Date y m 1)
         | None => false
         end
  | None => false
  end.

(** Nothing at all reads the formatted month as a year from 1990 on. *)
Definition nothing_reads (y m : Z) : bool :=
  match parse_input (format_mmm_yy y m) with
  | Some s =>
      rule_fails (rule1_fields s) && rule_fails (rule2_fields s)
      && rule_fails (rule3_fields s) && rule_fails (rule4_fields s)
      && match first_parsed (normalize_periods s) fmts with
         | Some dt => year dt <? 1990
         | None => true
         end
  | None => true
  end.

Lemma rule_fails_checked now f : rule_fails f = true -> checked now f = None.
Proof.
  destruct f as [[y m]|]; simpl; [|reflexivity].
  intros H. apply Z.ltb_lt in H. apply checked_none_early. exact H.
Qed.

Lemma rule1_reads_to_2049 :
  forallb (fun y => forallb (rule1_reads y) months) (zrange 1990 60) = true.
Proof. vm_compute. reflexivity. Qed.

Lemma fallback_reads_to_2068 :
  forallb (fun y => forallb (fallback_reads y) months) (zrange 2050 19) = true.
Proof. vm_compute. reflexivity. Qed.

Lemma all_pairs (check : Z -> Z -> bool) lo n y m :
  forallb (fun y => forallb (check y) months) (zrange lo n) = true ->
  lo <= y < lo + Z.of_nat n -> 1 <= m <= 12 -> check y m = true.
Proof.
  intros H Hy Hm. rewrite forallb_forall in H.
  specialize (H y (in_zrange lo n y Hy)). rewrite forallb_forall in H.
  apply H. apply in_zrange. simpl. lia.
Qed.

Lemma valid_year_of now y :
  1990 <= y <= year now + 20 -> valid_year now y = true.
Proof.
  intros H. unfold valid_year. apply andb_true_iff. rewrite !Z.leb_le. exact H.
Qed.

(** Years up to 2049: rule 1 and its folding of two-digit years. *)
Lemma round_trip_rule1 now y m :
  1 <= m <= 12 -> 1990 <= y <= year now + 20 -> y <= 2049 ->
  parse_date_flexible now (format_mmm_yy y m) = Some (Date y m 1)
  /\ exists s, parse_input (format_mmm_yy y m) = Some s
               /\ pattern1 now s = Some (Date y m 1).
Proof.
  intros Hm Hy Hy'.
  pose proof (all_pairs rule1_reads 1990 60 y m rule1_reads_to_2049
                ltac:(simpl; lia) Hm) as H.
  unfold rule1_reads in H. rewrite parse_date_flexible_input.
  destruct (parse_input (format_mmm_yy y m)) as [s|]; [|discriminate].
  assert (H1 : pattern1 now s = Some (Date y m 1)).
  { rewrite pattern1_checked.
    destruct (rule1_fields s) as [[y' m']|]; [|discriminate].
    apply andb_true_iff in H. destruct H as [Hy1 Hm1].
    apply Z.eqb_eq in Hy1, Hm1. subst y' m'.
    apply checked_some; [apply valid_year_of; exact Hy|lia|exact Hm]. }
  split; [rewrite H1; reflexivity|].
  exists s. split; [reflexivity|exact H1].
Qed.

(** Years 2050 to 2068: the rules reject the folded year (1950 to 1968)
    and the template "%b %y", with the pivot of [strptime], reads it. *)
Lemma round_trip_fallback now y m :
  1 <= m <= 12 -> 1990 <= y <= year now + 20 -> 2050 <= y <= 2068 ->
  parse_date_flexible now (format_mmm_yy y m) = Some (Date y m 1).
Proof.
  intros Hm Hy Hy'.
  pose proof (all_pairs fallback_reads 2050 19 y m fallback_reads_to_2068
                ltac:(simpl; lia) Hm) as H.
  unfold fallback_reads in H. rewrite parse_date_flexible_input.
  destruct (parse_input (format_mmm_yy y m)) as [s|]; [|discriminate].
  rewrite !andb_true_iff in H. destruct H as ((((H1 & H2) & H3) & H4) & H5).
  rewrite pattern1_checked, pattern2_checked, pattern3_checked, pattern4_checked.
  rewrite !rule_fails_checked by assumption. cbn [first_some].
  destruct (first_parsed (normalize_periods s) fmts) as [dt|] eqn:E; [|discriminate].
  apply date_eqb_eq in H5. subst dt.
  apply strptime_fallback_first; [exact E|simpl; lia|].
  apply valid_year_of. exact Hy.
Qed.

(** C4 as stated fails once the clock reaches 2049: the year 2069 is
    within [1990, currentYear + 20] and "JAN.69" does not parse. *)
Lemma round_trip_counterexample :
  ~ (forall now y m,
        wf_date now -> 1 <= m <= 12 -> 1990 <= y <= year now + 20 ->
        parse_date_flexible now (format_mmm_yy y m) = Some (Date y m 1)).
Proof.
  intros H.
  specialize (H (Date 2049 1 1) 2069 1 eq_refl ltac:(lia) ltac:(simpl; lia)).
  vm_compute in H. discriminate.
Qed.

(** C4, amended: for every month [(y, m)] with
    [1990 <= y <= currentYear + 20] and [y <= 2068], formatting it as
    "MMM.YY" and parsing the text returns [(y, m)], on the first of the
    month: up to 2049 by rule 1, whose folding sends two-digit years
    below 50 to the 2000s and 50 to 99 to the 1900s; from 2050 to 2068 by
    the template "%b %y" of the fallback. *)
Theorem format_parse_round_trip now y m :
  1 <= m <= 12 -> 1990 <= y <= year now + 20 -> y <= 2068 ->
  parse_date_flexible now (format_mmm_yy y m) = Some (Date y m 1)
  /\ (y <= 2049 ->
      exists s, parse_input (format_mmm_yy y m) = Some s
                /\ pattern1 now s = Some (Date y m 1))
  /\ (forall yy, 0 <= yy < 50 -> fix_year yy = 2000 + yy)
  /\ (forall yy, 50 <= yy < 100 -> fix_year yy = 1900 + yy).
Proof.
  intros Hm Hy Hy'. split; [|split; [|split]].
  - destruct (Z_le_gt_dec y 2049) as [Hlo|Hhi].
    + apply round_trip_rule1; assumption.
    + apply round_trip_fallback; [assumption|assumption|lia].
  - intros Hlo. apply round_trip_rule1; assumption.
  - intros yy Hyy. unfold fix_year.
    destruct (yy <? 100) eqn:E1; [|apply Z.ltb_ge in E1; lia].
    destruct (yy <? 50) eqn:E2; [reflexivity|apply Z.ltb_ge in E2; lia].
  - intros yy Hyy. unfold fix_year.
    destruct (yy <? 100) eqn:E1; [|apply Z.ltb_ge in E1; lia].
    destruct (yy <? 50) eqn:E2; [apply Z.ltb_lt in E2; lia|reflexivity].
Qed.

Lemma format_parse_round_trip_witness :
  parse_date_flexible sample_now (s2l "JAN.24") = Some (Date 2024 1 1)
  /\ parse_date_flexible (Date 2049 1 1) (s2l "SEP.68") = Some (Date 2068 9 1).
Proof.
  split.
  - apply (format_parse_round_trip sample_now 2024 1); vm_compute;
      try split; discriminate.
  - apply (format_parse_round_trip (Date 2049 1 1) 2068 9); vm_compute;
      try split; discriminate.
Defined.

End RoundTrip.

(** ** Claims about a year standing alone *)

Module BareYear.

Import ReFacts GroupFacts DateFacts ParseFacts ParseTrace.

Lemma ascii_eqb_eq a b : ascii_eqb a b = true -> a = b.
Proof.
  unfold ascii_eqb, code. intros H. apply Nat.eqb_eq in H.
  rewrite <- (ascii_nat_embedding a), <- (ascii_nat_embedding b), H.
  reflexivity.
Qed.

(** What rule 3 takes for a year is "20" and two digits. *)
Lemma year4_group s m g :
  search re_year4 s = Some m -> group m 1 = Some g ->
  exists d1 d2, g = s2l "20" ++ [d1; d2]
                /\ is_digit d1 = true /\ is_digit d2 = true.
Proof.
  intros Hs Hg. destruct (search_group _ _ _ _ _ Hs Hg) as (body & Hb & Hr).
  simpl in Hb. destruct Hb as [<-|[]].
  destruct Hr as (p0 & s0 & c0 & p1 & s1 & c1 & H & ->).
  unfold lit, between in H. simpl in H.
  inversion H as [| |? ? ? ? ? ? ? ? ? ? ? H1 H2| | | | | | | | |]; subst.
  inversion H1 as [| |? ? ? ? ? ? ? ? ? ? ? H3 H4| | | | | | | | |]; subst.
  inversion H3; subst. inversion H4; subst. inversion H2; subst.
  repeat match goal with
         | H : is_char _ _ = true |- _ => apply ascii_eqb_eq in H; subst
         end.
  match goal with
  | Hl : (2 <= List.length ?w)%nat, Hh : within (Some 2%nat) (List.length ?w),
    Hd : forallb is_digit ?w = true |- _ =>
      destruct w as [|d1 [|d2 [|d3 w']]]; simpl in Hl, Hh; try lia;
      simpl in Hd; rewrite !andb_true_iff in Hd; destruct Hd as (Hd1 & Hd2 & _);
      exists d1, d2
  end.
  split; [|auto].
  change ("2"%char :: "0"%char :: [d1; d2] ++ s1)
    with (("2"%char :: "0"%char :: [d1; d2]) ++ s1).
  rewrite consumed_app. reflexivity.
Qed.

Definition digit_chars : list ascii := s2l "0123456789".

Lemma is_digit_cases c : is_digit c = true -> In c digit_chars.
Proof.
  destruct c as [b0 b1 b2 b3 b4 b5 b6 b7].
  destruct b0, b1, b2, b3, b4, b5, b6, b7; intros H;
    try discriminate H; simpl; tauto.
Qed.

(** A year "19dd" that is the whole text: the rules read nothing and the
    template "%Y" reads the year. *)
Definition whole_year_reads (d1 d2 : ascii) : bool :=
  let s := s2l "19" ++ [d1; d2] in
  match parse_input s, int s with
  | Some s', Some y =>
      match rule1_fields s', rule2_fields s', rule3_fields s', rule4_fields s' with
      | None, None, None, None =>
          match first_parsed (normalize_periods s') fmts with
          | Some dt => date_eqb dt (Date y 1 1)
          | None => false
          end
      | _, _, _, _ => false
      end
  | _, _ => false
  end.

Lemma whole_year_reads_all :
  forallb (fun d1 => forallb (whole_year_reads d1) digit_chars) digit_chars = true.
Proof. vm_compute. reflexivity. Qed.

Lemma whole_year_19 now d1 d2 y :
  is_digit d1 = true -> is_digit d2 = true ->
  int (s2l "19" ++ [d1; d2]) = Some y -> valid_year now y = true ->
  parse_date_flexible now (s2l "19" ++ [d1; d2]) = Some (Date y 1 1).
Proof.
  intros H1 H2 Hi Hv.
  pose proof whole_year_reads_all as H. rewrite forallb_forall in H.
  specialize (H d1 (is_digit_cases d1 H1)). rewrite forallb_forall in H.
  specialize (H d2 (is_digit_cases d2 H2)). unfold whole_year_reads in H.
  rewrite parse_date_flexible_input. rewrite Hi in H.
  destruct (parse_input _) as [s'|]; [|discriminate].
  rewrite pattern1_checked, pattern2_checked, pattern3_checked, pattern4_checked.
  destruct (rule1_fields s'); [discriminate|].
  destruct (rule2_fields s'); [discriminate|].
  destruct (rule3_fields s'); [discriminate|].
  destruct (rule4_fields s'); [discriminate|]. cbn [checked first_some].
  destruct (first_parsed _ fmts) as [dt|] eqn:E; [|discriminate].
  apply date_eqb_eq in H. subst dt.
  apply strptime_fallback_first; [exact E| |exact Hv].
  simpl. unfold valid_year in Hv. apply andb_true_iff in Hv.
  rewrite !Z.leb_le in Hv. lia.
Qed.

(** C5 as stated fails for a year beginning with "19" inside a longer
    text: "Year 1995" holds the bare year 1995, no earlier rule reads
    it, and the parser returns null. *)
Lemma bare_year_19_counterexample :
  ~ (forall now date_str s m y,
        parse_input date_str = Some s ->
        search re_cand_year s = Some m -> int (m_text m) = Some y ->
        pattern1 now s = None -> pattern2 now s = None ->
        valid_year now y = true ->
        parse_date_flexible now date_str = Some (Date y 1 1)).
Proof.
  intros H.
  assert (Hs : exists m, search re_cand_year (s2l "Year 1995") = Some m
                         /\ m_text m = s2l "1995").
  { eexists. split; vm_compute; reflexivity. }
  destruct Hs as (m & Hs & Hm).
  specialize (H sample_now (s2l "Year 1995") (s2l "Year 1995") m 1995
                eq_refl Hs).
  rewrite Hm in H. specialize (H eq_refl eq_refl eq_refl eq_refl).
  vm_compute in H. discriminate.
Qed.

(** C5, amended: when rules 1 and 2 return nothing and rule 3 finds a
    bare four-digit year, which begins with "20", the parser returns
    January of that year provided the year lies in
    [1990, currentYear + 20]; a bare year beginning with "19" is read,
    as January of that year, when it is the whole text (by the template
    "%Y" of the fallback), so that "1995" yields (1995, 1). *)
Theorem bare_year_parses_as_january :
  (forall now date_str s m g y,
      wf_date now -> parse_input date_str = Some s ->
      pattern1 now s = None -> pattern2 now s = None ->
      search re_year4 s = Some m -> group m 1 = Some g -> int g = Some y ->
      valid_year now y = true ->
      parse_date_flexible now date_str = Some (Date y 1 1)
      /\ exists d1 d2, g = s2l "20" ++ [d1; d2]
                       /\ is_digit d1 = true /\ is_digit d2 = true)
  /\ (forall now d1 d2 y,
         is_digit d1 = true -> is_digit d2 = true ->
         int (s2l "19" ++ [d1; d2]) = Some y -> valid_year now y = true ->
         parse_date_flexible now (s2l "19" ++ [d1; d2]) = Some (Date y 1 1))
  /\ (forall now, 1975 <= year now ->
                  parse_date_flexible now (s2l "1995") = Some (Date 1995 1 1)).
Proof.
  split; [|split].
  - intros now date_str s m g y Hnow Hin H1 H2 Hs Hg Hi Hv.
    destruct (year4_group s m g Hs Hg) as (d1 & d2 & Hgd & Hd1 & Hd2).
    split; [|exists d1, d2; auto].
    rewrite parse_date_flexible_input, Hin, H1, H2. cbn [first_some].
    assert (H3 : pattern3 now s = Some (Date y 1 1)).
    { unfold pattern3. rewrite Hs, Hg. cbn [Strptime.bind]. rewrite Hi, Hv.
      assert (Hy : 0 <= y < 10 ^ Z.of_nat 4).
      { apply (int_of_digits g 4 y); [|subst g; simpl; lia|exact Hi].
        subst g. simpl. rewrite Hd1, Hd2. reflexivity. }
      unfold mk_date.
      assert (Hd : valid_date y 1 1 = true).
      { apply valid_date_spec. unfold valid_year in Hv.
        apply andb_true_iff in Hv. rewrite !Z.leb_le in Hv.
        pose proof (days_in_month_ge_28 y 1). simpl in Hy. lia. }
      rewrite Hd. reflexivity. }
    rewrite H3. reflexivity.
  - apply whole_year_19.
  - intros now Hy. apply (whole_year_19 now "9"%char "5"%char 1995);
      try reflexivity.
    unfold valid_year. apply andb_true_iff. rewrite !Z.leb_le. lia.
Qed.

Lemma bare_year_parses_as_january_witness :
  parse_date_flexible sample_now (s2l "Best before 2027") = Some (Date 2027 1 1)
  /\ parse_date_flexible sample_now (s2l "1995") = Some (Date 1995 1 1)
  /\ parse_date_flexible sample_now (s2l "1990") = Some (Date 1990 1 1).
Proof.
  split; [|split].
  - assert (Hs : exists m, search re_year4 (s2l "Best before 2027") = Some m
                           /\ group m 1 = Some (s2l "2027")).
    { eexists. split; vm_compute; reflexivity. }
    destruct Hs as (m & Hs & Hg).
    refine (proj1 (proj1 bare_year_parses_as_january sample_now
                     (s2l "Best before 2027") (s2l "Best before 2027") m
                     (s2l "2027") 2027 _ _ _ _ Hs Hg _ _));
      vm_compute; reflexivity.
  - apply (proj2 (proj2 bare_year_parses_as_january) sample_now).
    vm_compute. discriminate.
  - apply (proj1 (proj2 bare_year_parses_as_january) sample_now
             "9"%char "0"%char 1990); vm_compute; reflexivity.
Defined.

End BareYear.

(** ** The normalisation of periods and whitespace, spelled out *)

Module PeriodFacts.

Import ReFacts.

Definition no_space (t : text) : Prop := forallb (fun c => negb (is_space c)) t = true.
Definition all_space (t : text) : Prop := forallb is_space t = true.

Definition starts_with_digit (s : text) : bool :=
  match s with d :: _ => is_digit d | [] => false end.

(** A period before a digit becomes a space: [re.sub(r'\.(\d)', r' \1', s)]. *)
Fixpoint dots (s : text) : text :=
  match s with
  | [] => []
  | c :: r =>
      (if is_char "." c && starts_with_digit r then " "%char else c) :: dots r
  end.

(** A run of whitespace becomes one space: [re.sub(r'\s+', ' ', s)].
    [sp] tells that the character before was whitespace. *)
Fixpoint collapse_aux (s : text) (sp : bool) : text :=
  match s with
  | [] => []
  | c :: r =>
      if is_space c
      then (if sp then [] else [" "%char]) ++ collapse_aux r true
      else c :: collapse_aux r false
  end.

Definition collapse (s : text) : text := collapse_aux s false.

Definition re_dot_digit : regex := RSeq (lit ".") (RGroup 1 (RChar is_digit)).

Definition space_digit (caps : captures) : text :=
  s2l " " ++ match lookup 1 caps with Some g => g | None => [] end.

Lemma normalize_periods_unfold s :
  normalize_periods s
  = strip (sub (plus is_space) (fun _ => s2l " ") (sub re_dot_digit space_digit s)).
Proof. reflexivity. Qed.

Lemma consumed_one (d : ascii) (r : text) : consumed (d :: r) r = [d].
Proof. apply (consumed_app [d] r). Qed.

Lemma digit_not_dot d : is_digit d = true -> is_char "." d = false.
Proof.
  destruct d as [b0 b1 b2 b3 b4 b5 b6 b7].
  destruct b0, b1, b2, b3, b4, b5, b6, b7; intros H;
    try discriminate H; reflexivity.
Qed.

Lemma sub_dot_digit n :
  forall s prev, (List.length s <= n)%nat ->
                 sub_from re_dot_digit space_digit prev s 0 = dots s.
Proof.
  induction n as [|n IH]; intros s prev Hn.
  - destruct s; [reflexivity|simpl in Hn; lia].
  - destruct s as [|c r]; [reflexivity|].
    cbn [sub_from dots]. unfold match_here, re_dot_digit, lit. cbn [s2l list_ascii_of_string map seqs run].
    destruct (is_char "." c) eqn:Hc; cbn [andb].
    + destruct r as [|d r']; cbn [starts_with_digit].
      * f_equal.
      * destruct (is_digit d) eqn:Hd.
        -- rewrite consumed_one. cbn [space_digit lookup Nat.eqb s2l list_ascii_of_string app].
           assert (Hl : (List.length (c :: d :: r') - List.length r' = 2)%nat)
             by (cbn [List.length]; lia).
           rewrite Hl. cbn [sub_from dots].
           rewrite (digit_not_dot d Hd). cbn [andb].
           f_equal. f_equal. apply IH. simpl in Hn. lia.
        -- f_equal. apply IH. simpl in Hn |- *. lia.
    + f_equal. apply IH. simpl in Hn. lia.
Qed.

Lemma sub_dots s : sub re_dot_digit space_digit s = dots s.
Proof. apply (sub_dot_digit (List.length s)). lia. Qed.

(** *** Whitespace runs *)

Lemma lstrip_length s : (List.length (lstrip s) <= List.length s)%nat.
Proof.
  induction s as [|c r IH]; simpl; [lia|].
  destruct (is_space c); simpl; lia.
Qed.

(** A greedy run before a continuation that accepts anything stops at
    the first character outside the class. *)
Lemma rep_greedy_spaces :
  forall s lo prev caps,
    rep_greedy is_space lo None prev s caps (fun _ s' caps' => Some (s', caps'))
    = if (lo <=? List.length s - List.length (lstrip s))%nat
      then Some (lstrip s, caps) else None.
Proof.
  induction s as [|c r IH]; intros lo prev caps.
  - simpl. destruct lo; reflexivity.
  - cbn [rep_greedy lstrip]. destruct (is_space c) eqn:Hc; cbn [andb hi_open hi_pred option_map].
    + rewrite IH. pose proof (lstrip_length r) as Hl.
      destruct (pred lo <=? List.length r - List.length (lstrip r))%nat eqn:E.
      * cbn [orelse]. apply Nat.leb_le in E.
        replace (lo <=? List.length (c :: r) - List.length (lstrip r))%nat with true;
          [reflexivity|].
        symmetry. apply Nat.leb_le. cbn [List.length]. lia.
      * cbn [orelse]. apply Nat.leb_gt in E.
        replace (lo <=? List.length (c :: r) - List.length (lstrip r))%nat with false;
          [destruct lo; [lia|reflexivity]|].
        symmetry. apply Nat.leb_gt. cbn [List.length]. lia.
    + rewrite Nat.sub_diag. destruct lo; reflexivity.
Qed.

Lemma match_spaces prev c r :
  match_here (plus is_space) prev (c :: r)
  = if is_space c then Some (lstrip r, []) else None.
Proof.
  unfold match_here, plus. cbn [run]. rewrite rep_greedy_spaces.
  cbn [lstrip]. destruct (is_space c).
  - pose proof (lstrip_length r).
    replace (1 <=? List.length (c :: r) - List.length (lstrip r))%nat with true;
      [reflexivity|].
    symmetry. apply Nat.leb_le. cbn [List.length]. lia.
  - rewrite Nat.sub_diag. reflexivity.
Qed.

Lemma skip_spaces (re : regex) (repl : captures -> text) :
  forall r prev,
    exists prev',
      sub_from re repl prev r (List.length r - List.length (lstrip r))
      = sub_from re repl prev' (lstrip r) 0.
Proof.
  induction r as [|c r IH]; intros prev.
  - exists prev. reflexivity.
  - cbn [lstrip]. destruct (is_space c).
    + pose proof (lstrip_length r).
      replace (List.length (c :: r) - List.length (lstrip r))%nat
        with (S (List.length r - List.length (lstrip r))) by (cbn [List.length]; lia).
      cbn [sub_from]. apply IH.
    + rewrite Nat.sub_diag. exists prev. reflexivity.
Qed.

Lemma collapse_after_space r :
  collapse_aux r true = collapse_aux (lstrip r) false.
Proof.
  induction r as [|c r IH]; [reflexivity|].
  cbn [collapse_aux lstrip]. destruct (is_space c) eqn:Hc.
  - exact IH.
  - cbn [collapse_aux]. rewrite Hc. reflexivity.
Qed.

Lemma sub_spaces n :
  forall s prev, (List.length s <= n)%nat ->
                 sub_from (plus is_space) (fun _ => s2l " ") prev s 0 = collapse s.
Proof.
  induction n as [|n IH]; intros s prev Hn.
  - destruct s; [reflexivity|simpl in Hn; lia].
  - destruct s as [|c r]; [reflexivity|].
    unfold collapse. cbn [sub_from collapse_aux]. rewrite match_spaces.
    destruct (is_space c) eqn:Hc.
    + pose proof (lstrip_length r) as Hl.
      replace (List.length (c :: r) - List.length (lstrip r))%nat
        with (S (List.length r - List.length (lstrip r))) by (cbn [List.length]; lia).
      destruct (skip_spaces (plus is_space) (fun _ => s2l " ") r (Some c))
        as [prev' Hs].
      rewrite Hs, collapse_after_space.
      cbn [s2l list_ascii_of_string app]. f_equal.
      apply IH. simpl in Hn. lia.
    + f_equal. apply IH. simpl in Hn. lia.
Qed.

Lemma sub_collapse s : sub (plus is_space) (fun _ => s2l " ") s = collapse s.
Proof. apply (sub_spaces (List.length s)). lia. Qed.

(** [normalize_periods] without regular expressions. *)
Lemma normalize_periods_direct s :
  normalize_periods s = strip (collapse (dots s)).
Proof. rewrite normalize_periods_unfold, sub_dots, sub_collapse. reflexivity. Qed.

(** *** Stripping *)

Lemma lstrip_decomp s : exists a, s = a ++ lstrip s /\ all_space a.
Proof.
  induction s as [|c r IH]; [exists []; split; reflexivity|].
  cbn [lstrip]. destruct (is_space c) eqn:Hc.
  - destruct IH as (a & Ha & Hs). exists (c :: a). split.
    + simpl. rewrite <- Ha. reflexivity.
    + unfold all_space. simpl. rewrite Hc. exact Hs.
  - exists []. split; reflexivity.
Qed.

Lemma lstrip_head s c r : lstrip s = c :: r -> is_space c = false.
Proof.
  induction s as [|x s IH]; [discriminate|].
  cbn [lstrip]. destruct (is_space x) eqn:Hx; [exact IH|].
  intros H. injection H as <- _. exact Hx.
Qed.

Lemma lstrip_all_space a s : all_space a -> lstrip (a ++ s) = lstrip s.
Proof.
  induction a as [|c a IH]; [reflexivity|].
  unfold all_space. simpl. intros H. apply andb_true_iff in H.
  destruct H as [Hc Ha]. rewrite Hc. apply IH. exact Ha.
Qed.

Lemma lstrip_nonspace c r : is_space c = false -> lstrip (c :: r) = c :: r.
Proof. intros H. simpl. rewrite H. reflexivity. Qed.

Lemma all_space_rev a : all_space a -> all_space (rev a).
Proof.
  unfold all_space. rewrite !forallb_forall. intros H x Hx.
  apply H. apply in_rev. exact Hx.
Qed.

Lemma no_space_rev t : no_space t -> no_space (rev t).
Proof.
  unfold no_space. rewrite !forallb_forall. intros H x Hx.
  apply H. apply in_rev. exact Hx.
Qed.

Lemma lstrip_no_space_id t : no_space t -> lstrip t = t.
Proof.
  destruct t as [|c r]; [reflexivity|].
  unfold no_space. simpl. intros H. apply andb_true_iff in H.
  destruct H as [Hc _]. apply negb_true_iff in Hc. rewrite Hc. reflexivity.
Qed.

Lemma rstrip_decomp s : exists b, s = rstrip s ++ b /\ all_space b.
Proof.
  unfold rstrip. destruct (lstrip_decomp (rev s)) as (a & Ha & Hs).
  exists (rev a). split; [|apply all_space_rev; exact Hs].
  rewrite <- rev_app_distr, <- Ha, rev_involutive. reflexivity.
Qed.

Lemma rstrip_spaces t b : no_space t -> all_space b -> rstrip (t ++ b) = t.
Proof.
  intros Ht Hb. unfold rstrip. rewrite rev_app_distr.
  rewrite lstrip_all_space by (apply all_space_rev; exact Hb).
  rewrite lstrip_no_space_id by (apply no_space_rev; exact Ht).
  apply rev_involutive.
Qed.

(** [rstrip] leaves a text alone when its last character is no space. *)
Lemma rstrip_last u c : is_space c = false -> rstrip (u ++ [c]) = u ++ [c].
Proof.
  intros Hc. unfold rstrip. rewrite rev_app_distr. simpl. rewrite Hc.
  change (c :: rev u) with (rev [c] ++ rev u).
  rewrite <- rev_app_distr, rev_involutive. reflexivity.
Qed.

Lemma strip_head s c r : strip s = c :: r -> is_space c = false.
Proof.
  unfold strip. intros H.
  destruct (rstrip_decomp (lstrip s)) as (b & Hb & Hs).
  rewrite H in Hb. destruct (lstrip s) as [|x l] eqn:E; [discriminate|].
  injection Hb as -> _. eapply lstrip_head. exact E.
Qed.

Lemma strip_last s u c : strip s = u ++ [c] -> is_space c = false.
Proof.
  unfold strip, rstrip. intros H.
  apply (f_equal (@rev ascii)) in H. rewrite rev_involutive, rev_app_distr in H.
  simpl in H. eapply lstrip_head. exact H.
Qed.

(** *** Collapsing *)

Lemma collapse_no_space_prefix t :
  forall y b, collapse_aux y false = t ++ b -> no_space t ->
              exists y', y = t ++ y' /\ collapse_aux y' false = b.
Proof.
  induction t as [|c t IH]; intros y b H Ht.
  - exists y. split; [reflexivity|exact H].
  - unfold no_space in Ht. simpl in Ht. apply andb_true_iff in Ht.
    destruct Ht as [Hc Ht]. apply negb_true_iff in Hc.
    destruct y as [|x y]; [discriminate|].
    cbn [collapse_aux] in H. destruct (is_space x) eqn:Hx.
    + simpl in H. injection H as <- _. simpl in Hc. discriminate.
    + simpl in H. injection H as -> H.
      destruct (IH y b H Ht) as (y' & -> & Hy'). exists y'. auto.
Qed.

Lemma collapse_all_space y :
  forall sp, all_space (collapse_aux y sp) -> all_space y.
Proof.
  induction y as [|c y IH]; intros sp H; [reflexivity|].
  cbn [collapse_aux] in H. unfold all_space in *.
  destruct (is_space c) eqn:Hc.
  - simpl. rewrite Hc. simpl. apply (IH true).
    destruct sp; simpl in H; exact H.
  - simpl in H. rewrite Hc in H. discriminate.
Qed.

Lemma collapse_lstrip x : lstrip (collapse x) = collapse (lstrip x).
Proof.
  unfold collapse. induction x as [|c r IH]; [reflexivity|].
  cbn [collapse_aux lstrip]. destruct (is_space c) eqn:Hc.
  - cbn [app]. rewrite collapse_after_space.
    change (lstrip (" "%char :: collapse_aux (lstrip r) false))
      with (lstrip (collapse_aux (lstrip r) false)).
    destruct (lstrip r) as [|x l] eqn:E; [reflexivity|].
    pose proof (lstrip_head r x l E) as Hx.
    cbn [collapse_aux]. rewrite Hx. cbn [lstrip]. rewrite Hx. reflexivity.
  - cbn [lstrip collapse_aux]. rewrite Hc. reflexivity.
Qed.

(** When nothing is left of the whitespace after collapsing and
    stripping, collapsing did nothing to the stripped text. *)
Lemma strip_collapse_no_space x :
  no_space (strip (collapse x)) -> strip (collapse x) = strip x.
Proof.
  unfold strip. rewrite collapse_lstrip.
  generalize (lstrip x). intros y.
  remember (rstrip (collapse y)) as t eqn:Et. intros Ht.
  destruct (rstrip_decomp (collapse y)) as (b & Hb & Hs).
  rewrite <- Et in Hb. unfold collapse in Hb.
  destruct (collapse_no_space_prefix _ _ _ Hb Ht) as (y' & Hy & Hy').
  rewrite <- Hy' in Hs. apply collapse_all_space in Hs.
  rewrite Hy. symmetry. apply rstrip_spaces; assumption.
Qed.

(** *** Periods *)

Lemma dots_no_space u : no_space (dots u) -> dots u = u.
Proof.
  induction u as [|c r IH]; [reflexivity|].
  unfold no_space. cbn [dots forallb]. intros H.
  apply andb_true_iff in H. destruct H as [Hc H].
  destruct (is_char "." c && starts_with_digit r); [discriminate|].
  f_equal. apply IH. exact H.
Qed.

Lemma dots_snoc u c : exists v, dots (u ++ [c]) = v ++ [c].
Proof.
  induction u as [|x u IH].
  - exists []. simpl. rewrite andb_false_r. reflexivity.
  - destruct IH as [v Hv]. simpl. rewrite Hv.
    eexists (_ :: v). reflexivity.
Qed.

Lemma strip_dots_tail d r :
  is_space d = false ->
  (forall u c, d :: r = u ++ [c] -> is_space c = false) ->
  strip (dots (d :: r)) = dots (d :: r)
  \/ (is_char "." d = true /\ starts_with_digit r = true).
Proof.
  intros Hd Hlast.
  destruct (is_char "." d && starts_with_digit r) eqn:Hc.
  - right. apply andb_true_iff in Hc. exact Hc.
  - left.
    assert (Hd0 : dots (d :: r) = d :: dots r) by (cbn [dots]; rewrite Hc; reflexivity).
    assert (He : exists u c, d :: r = u ++ [c]).
    { destruct (rev (d :: r)) as [|c u] eqn:E.
      - apply (f_equal (@List.length ascii)) in E.
        rewrite length_rev in E. discriminate.
      - exists (rev u), c. rewrite <- (rev_involutive (d :: r)), E. reflexivity. }
    destruct He as (u & c & He).
    assert (Hcs : is_space c = false) by (eapply Hlast; exact He).
    destruct (dots_snoc u c) as [v Hv].
    unfold strip. rewrite Hd0, lstrip_nonspace by exact Hd.
    rewrite <- Hd0, He, Hv. apply rstrip_last. exact Hcs.
Qed.

Lemma is_char_eq a c : is_char a c = true -> c = a.
Proof.
  unfold is_char, ascii_eqb, code. intros H. apply Nat.eqb_eq in H.
  rewrite <- (ascii_nat_embedding a), <- (ascii_nat_embedding c), H.
  reflexivity.
Qed.

(** A stripped text that normalises to a text [t] without whitespace is
    [t], or [t] after a period; and no period of [t] stands before a
    digit. *)
Lemma normalize_periods_no_space x t :
  normalize_periods (strip x) = t -> no_space t ->
  (strip x = t \/ strip x = "."%char :: t) /\ dots t = t.
Proof.
  intros Hn Ht. rewrite normalize_periods_direct in Hn. subst t.
  pose proof (strip_collapse_no_space _ Ht) as E. rewrite E in Ht. rewrite E.
  clear E. destruct (strip x) as [|d r] eqn:Es.
  - split; [left|]; reflexivity.
  - assert (Hd : is_space d = false) by (eapply strip_head; exact Es).
    assert (Hlast : forall u c, d :: r = u ++ [c] -> is_space c = false).
    { intros u c Hu. rewrite Hu in Es. eapply strip_last. exact Es. }
    destruct (strip_dots_tail d r Hd Hlast) as [E1|[Hdot Hdig]].
    + rewrite E1 in Ht |- *. pose proof (dots_no_space _ Ht) as E2.
      rewrite E2. split; [left; reflexivity|exact E2].
    + destruct r as [|m r']; [discriminate|]. cbn [starts_with_digit] in Hdig.
      apply is_char_eq in Hdot. subst d.
      assert (E0 : strip (dots ("."%char :: m :: r')) = strip (dots (m :: r'))).
      { change (dots ("."%char :: m :: r'))
          with ((if is_char "." "." && is_digit m then " "%char else "."%char)
                  :: dots (m :: r')).
        rewrite Hdig. reflexivity. }
      rewrite E0 in Ht |- *.
      assert (Hm : is_space m = false) by (apply GroupFacts.digit_not_space; exact Hdig).
      assert (Hlast' : forall u c, m :: r' = u ++ [c] -> is_space c = false).
      { intros u c Hu. apply (Hlast ("."%char :: u) c). rewrite Hu. reflexivity. }
      destruct (strip_dots_tail m r' Hm Hlast') as [E1|[Hdot _]].
      * rewrite E1 in Ht |- *. pose proof (dots_no_space _ Ht) as E2.
        rewrite E2. split; [right; reflexivity|exact E2].
      * rewrite (digit_not_dot m Hdig) in Hdot. discriminate.
Qed.

(** A text that [dots] leaves alone has no period before a digit. *)
Lemma dots_fixed pre :
  forall t m rest, dots t = t -> t = pre ++ "."%char :: m :: rest ->
                   is_digit m = true -> False.
Proof.
  induction pre as [|c pre IH]; intros t m rest Hd -> Hm.
  - cbn [app dots starts_with_digit] in Hd. rewrite Hm in Hd. discriminate.
  - cbn [app dots] in Hd. injection Hd as _ Hd. eapply IH; [exact Hd|reflexivity|exact Hm].
Qed.

End PeriodFacts.

(** ** What the day-month-year templates read *)

Module DayMonthYear.

Import ReFacts GroupFacts DateFacts ParseFacts ParseTrace PeriodFacts.

Definition day_text (D : text) : Prop :=
  (exists d, D = [d] /\ is_digit d = true /\ 1 <= digit_val d)
  \/ (exists d1 d2, D = [d1; d2] /\ is_digit d1 = true /\ is_digit d2 = true
                    /\ 1 <= 10 * digit_val d1 + digit_val d2 <= 31)
  \/ (exists d, D = [" "%char; d]).

Definition month_text (M : text) : Prop :=
  (exists m, M = [m] /\ is_digit m = true /\ 1 <= digit_val m)
  \/ (exists m1 m2, M = [m1; m2] /\ is_digit m1 = true /\ is_digit m2 = true
                    /\ 1 <= 10 * digit_val m1 + digit_val m2 <= 12).

Definition year_text (Y : text) : Prop :=
  exists y1 y2 y3 y4, Y = [y1; y2; y3; y4] /\ forallb is_digit Y = true.

Lemma range_digit (lo hi c : ascii) :
  is_digit lo = true -> is_digit hi = true ->
  Strptime.range (String lo EmptyString) (String hi EmptyString) c = true ->
  is_digit c = true /\ digit_val lo <= digit_val c <= digit_val hi.
Proof.
  unfold Strptime.range, is_digit, digit_val. cbn [s2l list_ascii_of_string].
  rewrite !andb_true_iff, !Nat.leb_le. lia.
Qed.

Ltac inv_steps :=
  repeat match goal with
         | H : steps (RSeq _ _) _ _ _ _ _ _ |- _ => inversion H; subst; clear H
         | H : steps (RAlt _ _) _ _ _ _ _ _ |- _ => inversion H; subst; clear H
         | H : steps (RChar _) _ _ _ _ _ _ |- _ => inversion H; subst; clear H
         | H : steps (RGroup _ _) _ _ _ _ _ _ |- _ => inversion H; subst; clear H
         | H : steps (RRep _ _ _) _ _ _ _ _ _ |- _ => inversion H; subst; clear H
         end.

Ltac char_facts :=
  repeat match goal with
         | H : is_char _ _ = true |- _ => apply is_char_eq in H; subst
         | H : Strptime.range "0" "1" _ = true |- _ =>
             apply (range_digit "0" "1") in H; [|reflexivity|reflexivity]
         | H : Strptime.range "0" "2" _ = true |- _ =>
             apply (range_digit "0" "2") in H; [|reflexivity|reflexivity]
         | H : Strptime.range "1" "2" _ = true |- _ =>
             apply (range_digit "1" "2") in H; [|reflexivity|reflexivity]
         | H : Strptime.range "1" "9" _ = true |- _ =>
             apply (range_digit "1" "9") in H; [|reflexivity|reflexivity]
         end.

Ltac digit_consts :=
  repeat match goal with
         | H : context [digit_val (Ascii ?a ?b ?c ?d ?e ?f ?g ?h)] |- _ =>
             let v := eval vm_compute in (digit_val (Ascii a b c d e f g h)) in
             change (digit_val (Ascii a b c d e f g h)) with v in H
         | |- context [digit_val (Ascii ?a ?b ?c ?d ?e ?f ?g ?h)] =>
             let v := eval vm_compute in (digit_val (Ascii a b c d e f g h)) in
             change (digit_val (Ascii a b c d e f g h)) with v
         end.

Ltac split_ands :=
  repeat match goal with
         | H : _ /\ _ |- _ => destruct H
         end.

Lemma consumed_two (a b : ascii) (r : text) : consumed (a :: b :: r) r = [a; b].
Proof. apply (consumed_app [a; b] r). Qed.

Lemma day_steps p0 s0 c0 p1 s1 c1 :
  steps (Strptime.item_regex Strptime.Id) p0 s0 c0 p1 s1 c1 ->
  exists D, s0 = D ++ s1 /\ c1 = (Strptime.g_d, D) :: c0 /\ day_text D.
Proof.
  unfold Strptime.item_regex, lit. cbn [alts seqs map s2l list_ascii_of_string].
  intros H. inv_steps; char_facts.
  - exists ["3"%char; c]. rewrite consumed_two. repeat split.
    right; left. exists "3"%char, c. digit_consts. split_ands.
    repeat split; try assumption; try reflexivity; lia.
  - exists [c1; c]. rewrite consumed_two. repeat split.
    right; left. exists c1, c. digit_consts. split_ands.
    match goal with
    | Hc : is_digit c = true |- _ => pose proof (digit_val_range c Hc)
    end.
    repeat split; try assumption; try reflexivity; lia.
  - exists ["0"%char; c]. rewrite consumed_two. repeat split.
    right; left. exists "0"%char, c. digit_consts. split_ands.
    repeat split; try assumption; try reflexivity; lia.
  - exists [c]. rewrite consumed_one. repeat split.
    left. exists c. digit_consts. split_ands.
    repeat split; try assumption; try reflexivity; lia.
  - exists [" "%char; c]. rewrite consumed_two. repeat split.
    right; right. exists c. reflexivity.
Qed.

Lemma month_steps p0 s0 c0 p1 s1 c1 :
  steps (Strptime.item_regex Strptime.Im) p0 s0 c0 p1 s1 c1 ->
  exists M, s0 = M ++ s1 /\ c1 = (Strptime.g_m, M) :: c0 /\ month_text M.
Proof.
  unfold Strptime.item_regex, lit. cbn [alts seqs map s2l list_ascii_of_string].
  intros H. inv_steps; char_facts.
  - exists ["1"%char; c]. rewrite consumed_two. repeat split.
    right. exists "1"%char, c. digit_consts. split_ands.
    repeat split; try assumption; try reflexivity; lia.
  - exists ["0"%char; c]. rewrite consumed_two. repeat split.
    right. exists "0"%char, c. digit_consts. split_ands.
    repeat split; try assumption; try reflexivity; lia.
  - exists [c]. rewrite consumed_one. repeat split.
    left. exists c. digit_consts. split_ands.
    repeat split; try assumption; try reflexivity; lia.
Qed.

Lemma year_steps p0 s0 c0 p1 s1 c1 :
  steps (Strptime.item_regex Strptime.IY) p0 s0 c0 p1 s1 c1 ->
  exists Y, s0 = Y ++ s1 /\ c1 = (Strptime.g_Y, Y) :: c0 /\ year_text Y.
Proof.
  unfold Strptime.item_regex, between. intros H. inv_steps.
  exists w. rewrite consumed_app. repeat split.
  match goal with
  | Hl : (4 <= List.length w)%nat, Hh : within (Some 4%nat) (List.length w) |- _ =>
      destruct w as [|y1 [|y2 [|y3 [|y4 [|y5 w']]]]]; simpl in Hl, Hh; try lia
  end.
  exists y1, y2, y3, y4. split; [reflexivity|assumption].
Qed.

Definition is_sep (c : ascii) : Prop := c = "/"%char \/ c = "-"%char \/ c = "."%char.

Lemma sep_ci sep c : is_sep sep -> is_char_ci sep c = true -> c = sep.
Proof.
  intros Hs H. apply is_char_eq.
  destruct Hs as [-> | [-> | ->] ];
    destruct c as [b0 b1 b2 b3 b4 b5 b6 b7];
    destruct b0, b1, b2, b3, b4, b5, b6, b7; try discriminate H; reflexivity.
Qed.

Definition dmy_regex (sep : ascii) : regex :=
  seqs [Strptime.item_regex Strptime.Id; RChar (is_char_ci sep);
        Strptime.item_regex Strptime.Im; RChar (is_char_ci sep);
        Strptime.item_regex Strptime.IY].

(** The templates "%d/%m/%Y", "%d-%m-%Y" and "%d.%m.%Y" read a day, a
    month and a four-digit year with the separator between them. *)
Lemma strptime_dmy sep f s dt :
  is_sep sep -> Strptime.format_regex f = dmy_regex sep ->
  Strptime.strptime s f = Some dt ->
  exists D M Y y,
    s = D ++ sep :: M ++ sep :: Y
    /\ day_text D /\ month_text M /\ year_text Y
    /\ int Y = Some y /\ year dt = y.
Proof.
  intros Hsep Hf H. unfold Strptime.strptime in H. rewrite Hf in H.
  unfold match_start in H.
  destruct (match_here (dmy_regex sep) None s) as [[rest caps]|] eqn:E; [|discriminate].
  cbn [m_post m_caps] in H. destruct rest; [|discriminate].
  apply match_here_sound in E. destruct E as [p1 E].
  unfold dmy_regex in E. cbn [seqs] in E.
  inversion E as [| |? ? ? ? ? ? ? ? ? ? ? E1 E2| | | | | | | | |]; subst; clear E.
  inversion E2 as [| |? ? ? ? ? ? ? ? ? ? ? E3 E4| | | | | | | | |]; subst; clear E2.
  inversion E4 as [| |? ? ? ? ? ? ? ? ? ? ? E5 E6| | | | | | | | |]; subst; clear E4.
  inversion E6 as [| |? ? ? ? ? ? ? ? ? ? ? E7 E8| | | | | | | | |]; subst; clear E6.
  apply day_steps in E1. destruct E1 as (D & -> & -> & HD).
  apply month_steps in E5. destruct E5 as (M & -> & -> & HM).
  apply year_steps in E8. destruct E8 as (Y & HY & -> & HYt).
  inversion E3; subst. inversion E7; subst.
  repeat match goal with
         | Hc : is_char_ci sep _ = true |- _ => apply (sep_ci sep _ Hsep) in Hc; subst
         end.
  rewrite app_nil_r in *.
  unfold Strptime.field in H.
  cbn [lookup Strptime.g_y Strptime.g_Y Strptime.g_m Strptime.g_B Strptime.g_b
         Strptime.g_d Nat.eqb Strptime.bind] in H.
  destruct (int Y) as [y|] eqn:Ey; cbn [Strptime.bind] in H; [|discriminate].
  destruct (int M) as [mo|] eqn:Em; cbn [Strptime.bind] in H; [|discriminate].
  destruct (int D) as [d|] eqn:Ed; cbn [Strptime.bind] in H; [|discriminate].
  exists D, M, Y, y. repeat split; try assumption.
  unfold mk_date in H. destruct (valid_date y mo d); [|discriminate].
  injection H as <-. reflexivity.
Qed.

(** *** Rules 2 and 4 on a day, a month and a year *)

Lemma digit_is_word c : is_digit c = true -> is_word c = true.
Proof.
  intros H. unfold is_word, is_alnum. rewrite H.
  rewrite orb_true_r. reflexivity.
Qed.

Lemma sep_not_digit c : date_sep c = true -> is_digit c = false.
Proof.
  destruct c as [b0 b1 b2 b3 b4 b5 b6 b7].
  destruct b0, b1, b2, b3, b4, b5, b6, b7; intros H;
    try discriminate H; reflexivity.
Qed.

Lemma sep_not_word c : date_sep c = true -> is_word c = false.
Proof.
  destruct c as [b0 b1 b2 b3 b4 b5 b6 b7].
  destruct b0, b1, b2, b3, b4, b5, b6, b7; intros H;
    try discriminate H; reflexivity.
Qed.

Lemma digit_not_sep c : is_digit c = true -> date_sep c = false.
Proof.
  intros H. destruct (date_sep c) eqn:E; [|reflexivity].
  rewrite (sep_not_digit c E) in H. discriminate.
Qed.

Ltac chars :=
  repeat match goal with
         | H : is_digit ?c = true |- context [is_digit ?c] => rewrite H
         | H : is_digit ?c = false |- context [is_digit ?c] => rewrite H
         | H : is_digit ?c = true |- context [is_word ?c] => rewrite (digit_is_word c H)
         | H : is_digit ?c = true |- context [date_sep ?c] => rewrite (digit_not_sep c H)
         | H : date_sep ?c = true |- context [date_sep ?c] => rewrite H
         | H : date_sep ?c = true |- context [is_digit ?c] => rewrite (sep_not_digit c H)
         | H : date_sep ?c = true |- context [is_word ?c] => rewrite (sep_not_word c H)
         | H : word_opt ?p = false |- context [word_opt ?p] => rewrite H
         end.

Ltac eval_match :=
  unfold match_here, re_numeric, re_year2, between;
  repeat (progress (unfold at_boundary;
                    cbn [seqs run rep_greedy andb hi_open hi_pred option_map pred
                           orelse negb Bool.eqb word_opt hd_error];
                    chars)).

Section Readings.

Variables (prev : option ascii) (sep sep' : ascii) (R : text).
Hypothesis Hprev : word_opt prev = false.
Hypothesis Hsep : date_sep sep = true.
Hypothesis Hsep' : date_sep sep' = true.

Lemma numeric_d_mm d m1 m2 :
  is_digit d = true -> is_digit m1 = true -> is_digit m2 = true ->
  match_here re_numeric prev (d :: sep :: m1 :: m2 :: sep' :: R)
  = Some (sep' :: R, [(2%nat, [m1; m2]); (1%nat, [d])]).
Proof.
  intros Hd H1 H2. eval_match. rewrite consumed_one, consumed_two. reflexivity.
Qed.

Lemma numeric_dd_mm d1 d2 m1 m2 :
  is_digit d1 = true -> is_digit d2 = true ->
  is_digit m1 = true -> is_digit m2 = true ->
  match_here re_numeric prev (d1 :: d2 :: sep :: m1 :: m2 :: sep' :: R)
  = Some (sep' :: R, [(2%nat, [m1; m2]); (1%nat, [d1; d2])]).
Proof.
  intros Hd1 Hd2 H1 H2. eval_match. rewrite !consumed_two. reflexivity.
Qed.

Lemma year2_dd d1 d2 :
  is_digit d1 = true -> is_digit d2 = true ->
  match_here re_year2 prev (d1 :: d2 :: sep :: R)
  = Some (sep :: R, [(1%nat, [d1; d2])]).
Proof.
  intros Hd1 Hd2. eval_match. rewrite !consumed_two. reflexivity.
Qed.

Lemma numeric_d_m d m :
  is_digit d = true -> is_digit m = true ->
  match_here re_numeric prev (d :: sep :: m :: sep' :: R) = None.
Proof. intros Hd Hm. eval_match. reflexivity. Qed.

Lemma numeric_dd_m d1 d2 m :
  is_digit d1 = true -> is_digit d2 = true -> is_digit m = true ->
  match_here re_numeric prev (d1 :: d2 :: sep :: m :: sep' :: R) = None.
Proof. intros Hd1 Hd2 Hm. eval_match. reflexivity. Qed.

End Readings.

Lemma numeric_inside c c' R :
  is_digit c = true -> is_digit c' = true ->
  match_here re_numeric (Some c) (c' :: R) = None.
Proof. intros H H'. eval_match. reflexivity. Qed.

Lemma numeric_not_digit prev c R :
  is_digit c = false -> match_here re_numeric prev (c :: R) = None.
Proof.
  intros H. unfold match_here, re_numeric, between. cbn [seqs run].
  destruct (at_boundary prev (c :: R)); [|reflexivity].
  cbn [rep_greedy]. rewrite H. reflexivity.
Qed.

Lemma year2_not_digit prev c R :
  is_digit c = false -> match_here re_year2 prev (c :: R) = None.
Proof.
  intros H. unfold match_here, re_year2, between. cbn [seqs run].
  destruct (at_boundary prev (c :: R)); [|reflexivity].
  cbn [rep_greedy]. rewrite H. reflexivity.
Qed.

Lemma numeric_m_yyyy sep0 m sep y1 y2 y3 y4 :
  date_sep sep0 = true -> is_digit m = true -> date_sep sep = true ->
  is_digit y1 = true -> is_digit y2 = true ->
  is_digit y3 = true -> is_digit y4 = true ->
  match_here re_numeric (Some sep0) (m :: sep :: [y1; y2; y3; y4])
  = Some ([], [(2%nat, [y1; y2; y3; y4]); (1%nat, [m])]).
Proof.
  intros H0 Hm Hs H1 H2 H3 H4. eval_match. reflexivity.
Qed.

Lemma int_digits_text w :
  forallb is_digit w = true -> w <> [] -> int w = int_digits w 0.
Proof.
  intros H Hw. unfold int. rewrite strip_digits by exact H.
  destruct w; [contradiction|reflexivity].
Qed.

Lemma int_one d : is_digit d = true -> int [d] = Some (digit_val d).
Proof.
  intros H. rewrite int_digits_text; [|simpl; rewrite H; reflexivity|discriminate].
  cbn [int_digits]. rewrite H. f_equal.
Qed.

Lemma int_two d1 d2 :
  is_digit d1 = true -> is_digit d2 = true ->
  int [d1; d2] = Some (10 * digit_val d1 + digit_val d2).
Proof.
  intros H1 H2.
  rewrite int_digits_text; [|simpl; rewrite H1, H2; reflexivity|discriminate].
  cbn [int_digits]. rewrite H1, H2. f_equal.
Qed.

Lemma search_from_miss r prev c s :
  match_here r prev (c :: s) = None ->
  search_from r prev (c :: s) = search_from r (Some c) s.
Proof. intros H. cbn [search_from]. rewrite H. reflexivity. Qed.

Lemma search_from_hit r prev s rest caps :
  match_here r prev s = Some (rest, caps) ->
  exists m, search_from r prev s = Some m /\ m_caps m = caps.
Proof.
  intros H. exists (MatchObj (consumed s rest) rest caps).
  split; [|reflexivity]. destruct s; cbn [search_from]; rewrite H; reflexivity.
Qed.

(** A period at the start is passed over by a rule that begins with a
    digit. *)
Lemma lead_search r s t :
  (forall prev c R, is_digit c = false -> match_here r prev (c :: R) = None) ->
  s = t \/ s = "."%char :: t ->
  exists prev, word_opt prev = false /\ search r s = search_from r prev t.
Proof.
  intros Hr [->| ->].
  - exists None. split; reflexivity.
  - exists (Some "."%char). split; [reflexivity|].
    unfold search. apply search_from_miss. apply Hr. reflexivity.
Qed.

Lemma fix_year_low y : 0 <= y < 50 -> fix_year y = 2000 + y.
Proof.
  intros H. unfold fix_year.
  destruct (y <? 100) eqn:E1; [|apply Z.ltb_ge in E1; lia].
  destruct (y <? 50) eqn:E2; [reflexivity|apply Z.ltb_ge in E2; lia].
Qed.

Lemma fix_year_bound y : 0 <= y <= 9999 -> fix_year y <= 9999.
Proof.
  intros H. unfold fix_year.
  destruct (y <? 100) eqn:E1; [|lia]. apply Z.ltb_lt in E1.
  destruct (y <? 50); lia.
Qed.

Lemma fix_year_high y : 100 <= y -> fix_year y = y.
Proof.
  intros H. unfold fix_year.
  destruct (y <? 100) eqn:E1; [apply Z.ltb_lt in E1; lia|reflexivity].
Qed.

Section Clock.

Variable now : date.

Lemma pattern2_reads s m g1 g2 mm y :
  search re_numeric s = Some m -> m_caps m = [(2%nat, g2); (1%nat, g1)] ->
  int g1 = Some mm -> int g2 = Some y -> 1 <= mm <= 12 ->
  valid_year now (fix_year y) = true -> fix_year y <= 9999 ->
  pattern2 now s = Some (Date (fix_year y) mm 1).
Proof.
  intros Hs Hc H1 H2 Hm Hv Hy.
  rewrite pattern2_checked. unfold rule2_fields, group. rewrite Hs, Hc.
  cbn [lookup Nat.eqb Strptime.bind]. rewrite H1, H2.
  replace ((1 <=? mm) && (mm <=? 12)) with true
    by (symmetry; apply andb_true_iff; rewrite !Z.leb_le; exact Hm).
  apply checked_some; assumption.
Qed.

Lemma pattern4_reads s m g y :
  search re_year2 s = Some m -> m_caps m = [(1%nat, g)] ->
  int g = Some y ->
  valid_year now (fix_year y) = true -> fix_year y <= 9999 ->
  pattern4 now s = Some (Date (fix_year y) 1 1).
Proof.
  intros Hs Hc H1 Hv Hy.
  rewrite pattern4_checked. unfold rule4_fields, group. rewrite Hs, Hc.
  cbn [lookup Nat.eqb Strptime.bind]. rewrite H1.
  apply checked_some; [assumption|assumption|lia].
Qed.

Lemma try_format_inv s f d :
  try_format now s f = Some d ->
  exists dt, Strptime.strptime s f = Some dt /\ day d = day dt
             /\ valid_year now (fix_year (year dt)) = true.
Proof.
  unfold try_format. destruct (Strptime.strptime s f) as [dt|]; [|discriminate].
  intros H. exists dt. split; [reflexivity|].
  destruct (year dt <? 100) eqn:E.
  - unfold mk_date in H.
    destruct (valid_date _ _ _); [|discriminate].
    destruct (valid_year now (fix_year (year dt))) eqn:Ev; [|discriminate].
    injection H as <-. split; reflexivity.
  - apply Z.ltb_ge in E. rewrite (fix_year_high _ E).
    destruct (valid_year now (year dt)) eqn:Ev; [|discriminate].
    injection H as <-. split; reflexivity.
Qed.

End Clock.

(** A template without "%d" gives the first of the month. *)
Lemma strptime_no_day s f dt :
  bodies Strptime.g_d (Strptime.format_regex f) = [] ->
  Strptime.strptime s f = Some dt -> day dt = 1.
Proof.
  intros Hb H. unfold Strptime.strptime in H.
  destruct (match_start (Strptime.format_regex f) s) as [m|] eqn:E; [|discriminate].
  destruct (m_post m); [|discriminate].
  assert (Hl : lookup Strptime.g_d (m_caps m) = None).
  { destruct (lookup Strptime.g_d (m_caps m)) as [v|] eqn:Hl; [|reflexivity].
    destruct (match_start_group _ _ _ _ _ E Hl) as (body & Hin & _).
    rewrite Hb in Hin. destruct Hin. }
  apply bind_some in H. destruct H as (y0 & _ & H).
  apply bind_some in H. destruct H as (y & _ & H).
  apply bind_some in H. destruct H as (m0 & _ & H).
  apply bind_some in H. destruct H as (m1 & _ & H).
  apply bind_some in H. destruct H as (mo & _ & H).
  unfold Strptime.field in H. rewrite Hl in H. cbn [Strptime.bind] in H.
  unfold mk_date in H. destruct (valid_date y mo 1); [|discriminate].
  injection H as <-. reflexivity.
Qed.

Lemma normalize_periods_head s c r :
  normalize_periods s = c :: r -> is_space c = false.
Proof. rewrite normalize_periods_direct. apply strip_head. Qed.

Lemma sep_not_space c : date_sep c = true -> is_space c = false.
Proof.
  destruct c as [b0 b1 b2 b3 b4 b5 b6 b7].
  destruct b0, b1, b2, b3, b4, b5, b6, b7; intros H;
    try discriminate H; reflexivity.
Qed.

Section Unread.

Variable now : date.
Hypothesis Hclock : 2011 <= year now.

Lemma valid_year_day v :
  1 <= v <= 31 -> valid_year now (fix_year v) = true /\ fix_year v <= 9999.
Proof.
  intros H. rewrite fix_year_low by lia. unfold valid_year.
  split; [apply andb_true_iff; rewrite !Z.leb_le; lia|lia].
Qed.

(** With the current year at 2011 or later, rule 2 or rule 4 reads a
    text made of a day, a month and a year whenever the year is one the
    fallback would accept. *)
Lemma rules_read_dmy s D M y1 y2 y3 y4 sep y :
  date_sep sep = true ->
  (s = D ++ sep :: M ++ sep :: [y1; y2; y3; y4]
   \/ s = "."%char :: D ++ sep :: M ++ sep :: [y1; y2; y3; y4]) ->
  ((exists d, D = [d] /\ is_digit d = true /\ 1 <= digit_val d)
   \/ (exists d1 d2, D = [d1; d2] /\ is_digit d1 = true /\ is_digit d2 = true
                     /\ 1 <= 10 * digit_val d1 + digit_val d2 <= 31)) ->
  month_text M ->
  is_digit y1 = true -> is_digit y2 = true ->
  is_digit y3 = true -> is_digit y4 = true ->
  int [y1; y2; y3; y4] = Some y ->
  valid_year now (fix_year y) = true -> fix_year y <= 9999 ->
  pattern2 now s = None -> pattern4 now s = None -> False.
Proof.
  intros Hsep Hlead HD HM Hy1 Hy2 Hy3 Hy4 Hy Hv Hfy H2 H4.
  destruct HM as [(m & -> & Hm & Hm1)|(m1 & m2 & -> & Hm1 & Hm2 & Hmv)].
  - (* a month of one digit: rule 2 reads the month and the year *)
    pose proof (digit_val_range m Hm) as Hmr.
    destruct (lead_search re_numeric s _ numeric_not_digit Hlead) as (prev & Hp & Es).
    destruct (search_from_hit _ _ _ _ _
                (numeric_m_yyyy sep m sep y1 y2 y3 y4 Hsep Hm Hsep Hy1 Hy2 Hy3 Hy4))
      as (mo & Em & Ec).
    assert (Es' : search re_numeric s = Some mo).
    { rewrite Es. destruct HD as [(d & -> & Hd & _)|(d1 & d2 & -> & Hd1 & Hd2 & _)];
        cbn [app].
      - rewrite search_from_miss by (apply numeric_d_m; assumption).
        rewrite search_from_miss
          by (apply numeric_not_digit; apply sep_not_digit; assumption).
        exact Em.
      - rewrite search_from_miss by (apply numeric_dd_m; assumption).
        rewrite search_from_miss by (apply numeric_inside; assumption).
        rewrite search_from_miss
          by (apply numeric_not_digit; apply sep_not_digit; assumption).
        exact Em. }
    pose proof (pattern2_reads now s mo [m] [y1; y2; y3; y4] (digit_val m) y
                  Es' Ec (int_one m Hm) Hy ltac:(lia) Hv Hfy) as P.
    rewrite H2 in P. discriminate.
  - (* a month of two digits: rule 2 reads the day as a month, or rule 4
       reads the day as a year *)
    destruct HD as [(d & -> & Hd & Hd1)|(d1 & d2 & -> & Hd1 & Hd2 & Hdv)]; cbn [app] in Hlead.
    + pose proof (digit_val_range d Hd) as Hdr.
      destruct (lead_search re_numeric s _ numeric_not_digit Hlead) as (prev & Hp & Es).
      destruct (search_from_hit _ _ _ _ _
                  (numeric_d_mm prev sep sep [y1; y2; y3; y4] Hp Hsep Hsep d m1 m2
                     Hd Hm1 Hm2)) as (mo & Em & Ec).
      rewrite Em in Es.
      destruct (valid_year_day (10 * digit_val m1 + digit_val m2) ltac:(lia))
        as [Hv' Hfy'].
      pose proof (pattern2_reads now s mo [d] [m1; m2] (digit_val d) _
                    Es Ec (int_one d Hd) (int_two m1 m2 Hm1 Hm2) ltac:(lia) Hv' Hfy') as P.
      rewrite H2 in P. discriminate.
    + destruct (Z_le_gt_dec (10 * digit_val d1 + digit_val d2) 12) as [Hle|Hgt].
      * destruct (lead_search re_numeric s _ numeric_not_digit Hlead) as (prev & Hp & Es).
        destruct (search_from_hit _ _ _ _ _
                    (numeric_dd_mm prev sep sep [y1; y2; y3; y4] Hp Hsep Hsep d1 d2 m1 m2
                       Hd1 Hd2 Hm1 Hm2)) as (mo & Em & Ec).
        rewrite Em in Es.
        destruct (valid_year_day (10 * digit_val m1 + digit_val m2) ltac:(lia))
          as [Hv' Hfy'].
        pose proof (pattern2_reads now s mo [d1; d2] [m1; m2] _ _
                      Es Ec (int_two d1 d2 Hd1 Hd2) (int_two m1 m2 Hm1 Hm2)
                      ltac:(lia) Hv' Hfy') as P.
        rewrite H2 in P. discriminate.
      * destruct (lead_search re_year2 s _ year2_not_digit Hlead) as (prev & Hp & Es).
        destruct (search_from_hit _ _ _ _ _
                    (year2_dd prev sep (m1 :: m2 :: sep :: [y1; y2; y3; y4]) Hp Hsep d1 d2
                       Hd1 Hd2)) as (mo & Em & Ec).
        rewrite Em in Es.
        destruct (valid_year_day (10 * digit_val d1 + digit_val d2) ltac:(lia))
          as [Hv' Hfy'].
        pose proof (pattern4_reads now s mo [d1; d2] _
                      Es Ec (int_two d1 d2 Hd1 Hd2) Hv' Hfy') as P.
        rewrite H4 in P. discriminate.
Qed.

Lemma is_sep_not_space sep : is_sep sep -> is_space sep = false.
Proof. intros [-> | [-> | ->] ]; reflexivity. Qed.

(** The templates with "%d" read nothing that rules 2 and 4 left. *)
Lemma dmy_unread x sep f d :
  is_sep sep -> Strptime.format_regex f = dmy_regex sep ->
  pattern2 now (strip x) = None -> pattern4 now (strip x) = None ->
  try_format now (normalize_periods (strip x)) f = Some d -> False.
Proof.
  intros Hsep Hf H2 H4 Ht.
  apply try_format_inv in Ht. destruct Ht as (dt & Hs & _ & Hv).
  destruct (strptime_dmy sep f _ dt Hsep Hf Hs)
    as (D & M & Y & y & Hsn & HD & HM & HY & Hy & Hyd).
  rewrite Hyd in Hv.
  destruct HY as (y1 & y2 & y3 & y4 & -> & HYd).
  assert (Hy9 : 0 <= y < 10 ^ Z.of_nat 4)
    by (apply (int_of_digits _ 4 y HYd); [simpl; lia|exact Hy]).
  cbn [forallb] in HYd. rewrite !andb_true_iff in HYd.
  destruct HYd as (Hy1 & Hy2 & Hy3 & Hy4 & _).
  assert (HD' : (exists d, D = [d] /\ is_digit d = true /\ 1 <= digit_val d)
                \/ (exists d1 d2, D = [d1; d2] /\ is_digit d1 = true
                                  /\ is_digit d2 = true
                                  /\ 1 <= 10 * digit_val d1 + digit_val d2 <= 31)).
  { destruct HD as [HD|[HD|(c & ->)]]; [left; exact HD|right; exact HD|].
    cbn [app] in Hsn. apply normalize_periods_head in Hsn. discriminate. }
  clear HD.
  pose proof (is_sep_not_space sep Hsep) as Hsp.
  assert (Hns : no_space (normalize_periods (strip x))).
  { rewrite Hsn. unfold no_space.
    destruct HD' as [(d0 & -> & Hd0 & _)|(d1 & d2 & -> & Hd1 & Hd2 & _)];
      destruct HM as [(m & -> & Hm & _)|(m1 & m2 & -> & Hm1 & Hm2 & _)];
      cbn [app forallb];
      repeat match goal with
             | H : is_digit ?c = true |- context [is_space ?c] =>
                 rewrite (digit_not_space c H)
             end;
      rewrite Hsp; reflexivity. }
  destruct (normalize_periods_no_space x _ eq_refl Hns) as [Hlead Hdots].
  rewrite Hsn in Hlead, Hdots.
  assert (Hfy : fix_year y <= 9999) by (apply fix_year_bound; simpl in Hy9; lia).
  destruct Hsep as [-> | [-> | ->] ].
  - exact (rules_read_dmy (strip x) D M y1 y2 y3 y4 "/" y eq_refl Hlead HD' HM
             Hy1 Hy2 Hy3 Hy4 Hy Hv Hfy H2 H4).
  - exact (rules_read_dmy (strip x) D M y1 y2 y3 y4 "-" y eq_refl Hlead HD' HM
             Hy1 Hy2 Hy3 Hy4 Hy Hv Hfy H2 H4).
  - assert (HMh : exists m M', M = m :: M' /\ is_digit m = true).
    { destruct HM as [(m & -> & Hm & _)|(m1 & m2 & -> & Hm1 & _)]; eauto. }
    destruct HMh as (m & M' & -> & Hm).
    apply (dots_fixed D _ m (M' ++ "."%char :: [y1; y2; y3; y4]) Hdots);
      [reflexivity|exact Hm].
Qed.

(** What the fallback returns after rules 2 and 4 failed falls on the
    first of a month. *)
Lemma fallback_day_one x d :
  pattern2 now (strip x) = None -> pattern4 now (strip x) = None ->
  strptime_fallback now (normalize_periods (strip x)) fmts = Some d ->
  day d = 1.
Proof.
  intros H2 H4 H. apply strptime_fallback_some in H.
  destruct H as (f & Hin & Ht). unfold fmts in Hin. cbn [map In] in Hin.
  repeat (destruct Hin as [<-|Hin]); [..|destruct Hin];
    first
      [ solve [ destruct (try_format_inv now _ _ _ Ht) as (dt & Hs & -> & _);
                refine (strptime_no_day _ _ _ _ Hs); vm_compute; reflexivity ]
      | exfalso;
        solve [ refine (dmy_unread x "/" _ d _ _ H2 H4 Ht);
                [left; reflexivity|reflexivity] ]
      | exfalso;
        solve [ refine (dmy_unread x "-" _ d _ _ H2 H4 Ht);
                [right; left; reflexivity|reflexivity] ]
      | exfalso;
        solve [ refine (dmy_unread x "." _ d _ _ H2 H4 Ht);
                [right; right; reflexivity|reflexivity] ] ].
Qed.

Lemma parse_date_flexible_day_one date_str d :
  parse_date_flexible now date_str = Some d -> day d = 1.
Proof.
  intros H. apply parse_date_flexible_cases in H. destruct H as (s & -> & H).
  destruct H as [H|[[_ H]|[(_ & _ & H)|[(_ & _ & _ & H)|(_ & H2 & _ & H4 & H)]]]].
  - apply (pattern1_accepted now) in H. tauto.
  - apply (pattern2_accepted now) in H. tauto.
  - apply (pattern3_accepted now) in H. tauto.
  - apply (pattern4_accepted now) in H. tauto.
  - exact (fallback_day_one date_str d H2 H4 H).
Qed.

End Unread.

(** With the clock before 2011 the template "%d/%m/%Y" is reached: rule 4
    reads "31" as 2031, which is then out of range, and the day of the
    text is kept. *)
Lemma day_kept_before_2011 :
  parse_date_flexible (Date 2010 1 1) (s2l "31/03/1995") = Some (Date 1995 3 31).
Proof. vm_compute. reflexivity. Qed.

(** C6: with the current year at 2011 or later, every date the parser
    returns falls on the first of its month, whichever stage it comes
    from: the four rules build the date with day 1, and the fallback over
    the [strptime] templates returns a date only from a template without
    "%d" (a text that "%d/%m/%Y", "%d-%m-%Y" or "%d.%m.%Y" reads is read
    by rule 2 or rule 4 before).  The same holds for every date mined
    from a text by [find_date_candidates], each of which is a result of
    the parser. *)
Theorem parsed_dates_first_of_month now :
  2011 <= year now ->
  (forall date_str d, parse_date_flexible now date_str = Some d -> day d = 1)
  /\ (forall date_str d,
         pattern1 now (strip date_str) = None ->
         pattern2 now (strip date_str) = None ->
         pattern3 now (strip date_str) = None ->
         pattern4 now (strip date_str) = None ->
         strptime_fallback now (normalize_periods (strip date_str)) fmts = Some d ->
         day d = 1)
  /\ (forall text_ d, In d (find_date_candidates now text_) -> day d = 1).
Proof.
  intros Hclock. split; [|split].
  - intros date_str d. apply parse_date_flexible_day_one. exact Hclock.
  - intros date_str d _ H2 _ H4. apply fallback_day_one; assumption.
  - intros text_ d H. apply find_date_candidates_parsed in H.
    destruct H as [raw H].
    exact (parse_date_flexible_day_one now Hclock raw d H).
Qed.

Lemma parsed_dates_first_of_month_witness :
  2011 <= year sample_now
  /\ parse_date_flexible sample_now (s2l "31/03/2027") = Some (Date 2027 1 1)
  /\ day (Date 2027 1 1) = 1
  /\ strptime_fallback sample_now (normalize_periods (s2l "1995")) fmts
     = Some (Date 1995 1 1)
  /\ day (Date 1995 1 1) = 1
  /\ In (Date 2025 6 1) (find_date_candidates sample_now sample_text_two_dates)
  /\ day (Date 2025 6 1) = 1.
Proof.
  assert (Hclock : 2011 <= year sample_now) by (vm_compute; discriminate).
  pose proof (parsed_dates_first_of_month sample_now Hclock) as (H1 & H2 & H3).
  assert (E1 : parse_date_flexible sample_now (s2l "31/03/2027") = Some (Date 2027 1 1))
    by (vm_compute; reflexivity).
  assert (E2 : strptime_fallback sample_now (normalize_periods (strip (s2l "1995"))) fmts
               = Some (Date 1995 1 1))
    by (vm_compute; reflexivity).
  assert (E3 : In (Date 2025 6 1) (find_date_candidates sample_now sample_text_two_dates))
    by (vm_compute; tauto).
  split; [exact Hclock|]. split; [exact E1|].
  split; [exact (H1 _ _ E1)|]. split; [exact E2|].
  split; [exact (H2 (s2l "1995") _ eq_refl eq_refl eq_refl eq_refl E2)|].
  split; [exact E3|exact (H3 _ _ E3)].
Defined.

End DayMonthYear.

(** ** Month arithmetic: [add_months] *)

Module MonthArithmetic.

Import DateFacts.

Definition target_year (d : date) (n : Z) : Z := year d + (month d - 1 + n) / 12.
Definition target_month (d : date) (n : Z) : Z := (month d - 1 + n) mod 12 + 1.

Lemma target_month_range d n : 1 <= target_month d n <= 12.
Proof.
  unfold target_month.
  pose proof (Z.mod_pos_bound (month d - 1 + n) 12 ltac:(lia)). lia.
Qed.

Lemma add_months_value d n :
  wf_date d -> 1 <= target_year d n <= 9999 ->
  add_months d n
  = Some (Date (target_year d n) (target_month d n) (Z.min (day d) 28)).
Proof.
  intros Hw Hy. unfold add_months. fold (target_year d n) (target_month d n).
  pose proof (target_month_range d n) as Hr.
  apply valid_date_spec in Hw.
  assert (Hv : valid_date (target_year d n) (target_month d n)
                 (Z.min (day d) 28) = true).
  { apply valid_date_spec.
    pose proof (days_in_month_ge_28 (target_year d n) (target_month d n)). lia. }
  unfold mk_date at 1. rewrite Hv. reflexivity.
Qed.

Lemma add_months_none d n :
  ~ 1 <= target_year d n <= 9999 -> add_months d n = None.
Proof.
  intros Hy. unfold add_months. fold (target_year d n) (target_month d n).
  assert (Hv : forall dd, valid_date (target_year d n) (target_month d n) dd = false).
  { intros dd. destruct (valid_date _ _ dd) eqn:E; [|reflexivity].
    apply valid_date_spec in E. lia. }
  unfold mk_date. rewrite !Hv. reflexivity.
Qed.

Lemma target_compose d a b :
  target_year (Date (target_year d a) (target_month d a) (Z.min (day d) 28)) b
  = target_year d (a + b)
  /\ target_month (Date (target_year d a) (target_month d a) (Z.min (day d) 28)) b
     = target_month d (a + b).
Proof.
  unfold target_year, target_month. cbn [year month].
  set (k := month d - 1).
  replace (k + a + b) with (k + a + b) by reflexivity.
  replace ((k + a) mod 12 + 1 - 1 + b) with (b + (k + a) mod 12) by lia.
  replace (k + (a + b)) with (b + (k + a)) by lia.
  pose proof (Z.div_mod (k + a) 12 ltac:(lia)) as E.
  assert (E2 : b + (k + a) = (b + (k + a) mod 12) + ((k + a) / 12) * 12) by lia.
  rewrite E2. rewrite Z.div_add by lia. rewrite Z.mod_add by lia. lia.
Qed.

(** X1: for a valid date, [add_months] raises exactly when the year it
    reaches leaves [1, 9999]; otherwise it returns the month that lies
    [n] months away ([//] and [%] rounding down, so [n] may be negative)
    with the day cut to 28.  The [except] branch, which would reset the
    day to 1, never produces the result. *)
Theorem add_months_result d n :
  wf_date d ->
  (1 <= target_year d n <= 9999 ->
   add_months d n
   = Some (Date (target_year d n) (target_month d n) (Z.min (day d) 28))
   /\ 12 * target_year d n + target_month d n = 12 * year d + month d + n)
  /\ (~ 1 <= target_year d n <= 9999 -> add_months d n = None).
Proof.
  intros Hw. split.
  - intros Hy. split; [apply add_months_value; assumption|].
    unfold target_year, target_month.
    pose proof (Z.div_mod (month d - 1 + n) 12 ltac:(lia)). lia.
  - apply add_months_none.
Qed.

Lemma add_months_result_witness :
  wf_date (Date 2024 1 31)
  /\ add_months (Date 2024 1 31) 13 = Some (Date 2025 2 28)
  /\ add_months (Date 2024 1 31) (-13) = Some (Date 2022 12 28)
  /\ add_months (Date 9999 6 1) 7 = None.
Proof.
  assert (Hw : wf_date (Date 2024 1 31)) by reflexivity.
  assert (Hw' : wf_date (Date 9999 6 1)) by reflexivity.
  split; [exact Hw|]. split; [|split].
  - apply (proj1 (add_months_result (Date 2024 1 31) 13 Hw)). vm_compute.
    split; discriminate.
  - apply (proj1 (add_months_result (Date 2024 1 31) (-13) Hw)). vm_compute.
    split; discriminate.
  - apply (proj2 (add_months_result (Date 9999 6 1) 7 Hw')). vm_compute.
    intros [_ H]. apply H. reflexivity.
Defined.

(** X2: adding months in two steps is adding their sum: once the first
    step has returned a date, a second step of [b] months gives what one
    step of [a + b] months gives, an exception included. *)
Theorem add_months_compose d a b e :
  wf_date d -> add_months d a = Some e ->
  add_months e b = add_months d (a + b).
Proof.
  intros Hw Ha.
  destruct (Z_le_dec 1 (target_year d a)) as [H1|H1];
    [destruct (Z_le_dec (target_year d a) 9999) as [H2|H2]|];
    try (rewrite add_months_none in Ha by lia; discriminate).
  rewrite add_months_value in Ha by (try assumption; lia).
  injection Ha as <-.
  pose proof (target_compose d a b) as [Ey Em].
  set (e := Date (target_year d a) (target_month d a) (Z.min (day d) 28)) in *.
  assert (Hwe : wf_date e).
  { apply valid_date_spec. subst e. cbn [year month day].
    apply valid_date_spec in Hw. pose proof (target_month_range d a).
    pose proof (days_in_month_ge_28 (target_year d a) (target_month d a)). lia. }
  destruct (Z_le_dec 1 (target_year d (a + b))) as [H3|H3];
    [destruct (Z_le_dec (target_year d (a + b)) 9999) as [H4|H4]|].
  - rewrite (add_months_value d (a + b)) by (try assumption; lia).
    rewrite (add_months_value e b) by (try assumption; lia).
    rewrite Ey, Em. subst e. cbn [day]. rewrite Z.min_l by lia. reflexivity.
  - rewrite (add_months_none d (a + b)) by lia.
    apply add_months_none. lia.
  - rewrite (add_months_none d (a + b)) by lia.
    apply add_months_none. lia.
Qed.

Lemma add_months_compose_witness :
  add_months (Date 2025 2 28) 11 = add_months (Date 2024 1 31) (13 + 11).
Proof.
  apply (add_months_compose (Date 2024 1 31) 13 11 (Date 2025 2 28));
    reflexivity.
Defined.

(** X3: for a date on day 28 or earlier, going [n] months away and [n]
    months back returns the date itself. *)
Theorem add_months_back d n e :
  wf_date d -> day d <= 28 -> add_months d n = Some e ->
  add_months e (- n) = Some d.
Proof.
  intros Hw Hd Ha.
  destruct (Z_le_dec 1 (target_year d n)) as [H1|H1];
    [destruct (Z_le_dec (target_year d n) 9999) as [H2|H2]|];
    try (rewrite add_months_none in Ha by lia; discriminate).
  rewrite add_months_value in Ha by (try assumption; lia).
  injection Ha as <-.
  pose proof (target_compose d n (- n)) as [Ey Em].
  set (e := Date (target_year d n) (target_month d n) (Z.min (day d) 28)) in *.
  assert (Hwe : wf_date e).
  { apply valid_date_spec. subst e. cbn [year month day].
    apply valid_date_spec in Hw. pose proof (target_month_range d n).
    pose proof (days_in_month_ge_28 (target_year d n) (target_month d n)). lia. }
  assert (E0y : target_year d (n + - n) = year d).
  { unfold target_year. replace (month d - 1 + (n + - n)) with (month d - 1) by lia.
    apply valid_date_spec in Hw. rewrite Z.div_small by lia. lia. }
  assert (E0m : target_month d (n + - n) = month d).
  { unfold target_month. replace (month d - 1 + (n + - n)) with (month d - 1) by lia.
    apply valid_date_spec in Hw. rewrite Z.mod_small by lia. lia. }
  rewrite (add_months_value e (- n)).
  - rewrite Ey, Em, E0y, E0m. subst e. cbn [day].
    rewrite !Z.min_l by lia. destruct d. reflexivity.
  - exact Hwe.
  - rewrite Ey, E0y. apply valid_date_spec in Hw. lia.
Qed.

Lemma add_months_back_witness :
  add_months (Date 2026 1 15) (- 24) = Some (Date 2024 1 15).
Proof.
  apply (add_months_back (Date 2024 1 15) 24 (Date 2026 1 15));
    [reflexivity|simpl; lia|reflexivity].
Defined.

End MonthArithmetic.

(** ** More on the parser, the candidates and the reconciler *)

Module ParserMore.

Import DateFacts ParseFacts GroupFacts ReconcileFacts PeriodFacts.

Lemma snoc_cases {A : Type} (l : list A) : l = [] \/ exists u z, l = u ++ [z].
Proof.
  destruct (rev l) as [|z u] eqn:E.
  - left. rewrite <- (rev_involutive l), E. reflexivity.
  - right. exists (rev u), z. rewrite <- (rev_involutive l), E. reflexivity.
Qed.

Lemma strip_idempotent s : strip (strip s) = strip s.
Proof.
  destruct (strip s) as [|c r] eqn:E; [reflexivity|].
  pose proof (strip_head s c r E) as Hc.
  unfold strip. rewrite lstrip_nonspace by exact Hc.
  destruct (snoc_cases (c :: r)) as [H|(u & z & H)]; [discriminate|].
  rewrite H in E |- *. apply rstrip_last. eapply strip_last. exact E.
Qed.

(** X7: the parser reads a text as it reads the text without the
    whitespace around it. *)
Theorem parse_date_flexible_strip now s :
  parse_date_flexible now s = parse_date_flexible now (strip s).
Proof.
  unfold parse_date_flexible. destruct s as [|c s]; [reflexivity|].
  cbn [truthy negb]. destruct (strip (c :: s)) as [|x r] eqn:E.
  - reflexivity.
  - cbn [truthy negb]. rewrite <- E, strip_idempotent. reflexivity.
Qed.

(** X8: every date the parser returns, and every date mined from a text,
    is a date of the calendar whose year lies between 1990 and the
    current year plus 20. *)
Theorem parsed_dates_in_window now :
  (forall s d, parse_date_flexible now s = Some d ->
               1990 <= year d <= year now + 20 /\ wf_date d)
  /\ (forall text_ d, In d (find_date_candidates now text_) ->
                      1990 <= year d <= year now + 20 /\ wf_date d).
Proof.
  assert (K : forall d, accepted now d -> 1990 <= year d <= year now + 20 /\ wf_date d).
  { intros d [Hw Hv]. unfold valid_year in Hv. apply andb_true_iff in Hv.
    rewrite !Z.leb_le in Hv. auto. }
  split.
  - intros s d H. apply K. eapply parse_date_flexible_accepted. exact H.
  - intros t d H. apply K. eapply find_date_candidates_accepted. exact H.
Qed.

Lemma parsed_dates_in_window_witness :
  parse_date_flexible sample_now (s2l "EXP 12/2045") = Some (Date 2045 12 1)
  /\ 1990 <= 2045 <= year sample_now + 20.
Proof.
  assert (E : parse_date_flexible sample_now (s2l "EXP 12/2045") = Some (Date 2045 12 1))
    by (vm_compute; reflexivity).
  split; [exact E|].
  exact (proj1 (proj1 (parsed_dates_in_window sample_now) _ _ E)).
Defined.

(** *** The candidates are in ascending order *)

(** X4: the dates mined from a text come back in strictly ascending
    order, so no date comes twice and the first is the earliest; an
    empty text gives no date. *)
Theorem find_date_candidates_ascending now text_ :
  ascending (find_date_candidates now text_) = true
  /\ NoDup (find_date_candidates now text_)
  /\ find_date_candidates now [] = [].
Proof.
  assert (Ha : ascending (find_date_candidates now text_) = true).
  { unfold find_date_candidates. destruct (negb (truthy text_)); [reflexivity|].
    apply sorted_set_ascending. }
  split; [exact Ha|]. split; [|reflexivity].
  induction (find_date_candidates now text_) as [|a ds IH]; [constructor|].
  constructor.
  - intros Hin. pose proof (ascending_lt a ds a Ha Hin) as H.
    apply date_ltb_spec in H. lia.
  - apply IH. cbn [ascending] in Ha. apply andb_true_iff in Ha. apply Ha.
Qed.

(** X9: a shelf life read from a text is a number of months between 0
    and 99, and nothing is read from an empty text. *)
Theorem shelf_life_months_bounds :
  (forall text_ n, shelf_life_months text_ = Some n -> 0 <= n <= 99)
  /\ shelf_life_months [] = None.
Proof.
  split; [|reflexivity].
  intros t n H. eapply shelf_life_months_range. exact H.
Qed.

Lemma shelf_life_months_bounds_witness :
  shelf_life_months sample_text_shelf_life = Some 24 /\ 0 <= 24 <= 99.
Proof.
  assert (E : shelf_life_months sample_text_shelf_life = Some 24)
    by (vm_compute; reflexivity).
  split; [exact E|exact (proj1 shelf_life_months_bounds _ _ E)].
Defined.

(** X5: the reconciler changes no date it is given, unless the two are
    inverted: a manufacture date given alone comes back as the
    manufacture date, an expiry date given alone as the expiry date, and
    two dates in order come back as they are. *)
Theorem reconcile_keeps_given_dates now full_text mfd_dt exp_dt a b :
  reconcile_dates_from_text now full_text mfd_dt exp_dt = Some (a, b) ->
  (forall m, mfd_dt = Some m -> exp_dt = None -> a = m)
  /\ (forall e, mfd_dt = None -> exp_dt = Some e -> b = e)
  /\ (forall m e, mfd_dt = Some m -> exp_dt = Some e ->
                  date_ltb e m = false -> a = m /\ b = e).
Proof.
  intros H. split; [|split].
  - intros m -> ->. unfold reconcile_dates_from_text in H.
    destruct (life_known _).
    + apply with_expiry_some in H. tauto.
    + destruct (filter _ _).
      * apply with_expiry_some in H. tauto.
      * injection H as <- _. reflexivity.
  - intros e -> ->. unfold reconcile_dates_from_text in H.
    destruct (filter _ _).
    + destruct (life_known _); apply with_manufacture_some in H; tauto.
    + injection H as _ <-. reflexivity.
  - intros m e -> -> Hlt. unfold reconcile_dates_from_text in H.
    rewrite Hlt in H. injection H as <- <-. auto.
Qed.

Lemma reconcile_keeps_given_dates_witness :
  reconcile_dates_from_text sample_now sample_text_shelf_life
    (Some (Date 2024 1 1)) None = Some (Date 2024 1 1, Date 2026 1 1)
  /\ Date 2024 1 1 = Date 2024 1 1.
Proof.
  assert (E : reconcile_dates_from_text sample_now sample_text_shelf_life
                (Some (Date 2024 1 1)) None = Some (Date 2024 1 1, Date 2026 1 1))
    by (vm_compute; reflexivity).
  split; [exact E|].
  exact (proj1 (reconcile_keeps_given_dates _ _ _ _ _ _ E) _ eq_refl eq_refl).
Defined.

(** X6: reconciling a reconciled pair changes nothing: given back the
    two dates it returned, with the same text, the reconciler returns
    them again. *)
Theorem reconcile_idempotent now full_text mfd_dt exp_dt a b :
  wf_date now -> opt_wf mfd_dt -> opt_wf exp_dt ->
  reconcile_dates_from_text now full_text mfd_dt exp_dt = Some (a, b) ->
  reconcile_dates_from_text now full_text (Some a) (Some b) = Some (a, b).
Proof.
  intros Hnow Hm He H.
  pose proof (reconcile_pair_ordered now full_text mfd_dt exp_dt a b Hnow Hm He H) as Ho.
  unfold date_leb in Ho. apply negb_true_iff in Ho.
  unfold reconcile_dates_from_text. rewrite Ho. reflexivity.
Qed.

Lemma reconcile_idempotent_witness :
  reconcile_dates_from_text sample_now sample_text_two_dates
    (Some (Date 2022 6 1)) (Some (Date 2025 6 1))
  = Some (Date 2022 6 1, Date 2025 6 1).
Proof.
  apply (reconcile_idempotent sample_now sample_text_two_dates
           (Some (Date 2025 6 1)) (Some (Date 2022 6 1)));
    vm_compute; reflexivity.
Defined.

End ParserMore.

(** ** What the value normaliser returns *)

Module NormalizerMore.

Import ReFacts GroupFacts PeriodFacts Normalizer ParserMore.

(** *** The two substitutions of noise, without regular expressions *)

Fixpoint drop_while (p : ascii -> bool) (s : text) : text :=
  match s with
  | c :: s' => if p c then drop_while p s' else s
  | [] => []
  end.

(** [re.sub(r'^[:\-\.\s]+', '', v)] *)
Definition drop_leading_noise (s : text) : text := drop_while noise s.

(** [re.sub(r'[:\-\.\s]+$', '', v)] *)
Fixpoint drop_trailing_noise (s : text) : text :=
  match s with
  | c :: s' => if forallb noise (c :: s') then [] else c :: drop_trailing_noise s'
  | [] => []
  end.

Lemma drop_while_length p s : (List.length (drop_while p s) <= List.length s)%nat.
Proof.
  induction s as [|c r IH]; simpl; [lia|].
  destruct (p c); simpl; lia.
Qed.

(** A greedy run before a continuation that accepts anything stops at
    the first character outside the class. *)
Lemma rep_greedy_run p :
  forall s lo prev caps,
    rep_greedy p lo None prev s caps (fun _ s' caps' => Some (s', caps'))
    = if (lo <=? List.length s - List.length (drop_while p s))%nat
      then Some (drop_while p s, caps) else None.
Proof.
  induction s as [|c r IH]; intros lo prev caps.
  - simpl. destruct lo; reflexivity.
  - cbn [rep_greedy drop_while]. destruct (p c) eqn:Hc;
      cbn [andb hi_open hi_pred option_map].
    + rewrite IH. pose proof (drop_while_length p r) as Hl.
      destruct (pred lo <=? List.length r - List.length (drop_while p r))%nat eqn:E.
      * cbn [orelse]. apply Nat.leb_le in E.
        replace (lo <=? List.length (c :: r) - List.length (drop_while p r))%nat
          with true; [reflexivity|].
        symmetry. apply Nat.leb_le. cbn [List.length]. lia.
      * cbn [orelse]. apply Nat.leb_gt in E.
        replace (lo <=? List.length (c :: r) - List.length (drop_while p r))%nat
          with false; [destruct lo; [lia|reflexivity]|].
        symmetry. apply Nat.leb_gt. cbn [List.length]. lia.
    + rewrite Nat.sub_diag. destruct lo; reflexivity.
Qed.

Lemma leading_noise_match c r :
  match_here re_leading_noise None (c :: r)
  = if noise c then Some (drop_while noise r, []) else None.
Proof.
  unfold match_here, re_leading_noise, plus. cbn [run]. rewrite rep_greedy_run.
  cbn [drop_while]. destruct (noise c).
  - pose proof (drop_while_length noise r).
    replace (1 <=? List.length (c :: r) - List.length (drop_while noise r))%nat
      with true; [reflexivity|].
    symmetry. apply Nat.leb_le. cbn [List.length]. lia.
  - rewrite Nat.sub_diag. reflexivity.
Qed.

(** After the first character [^] matches nowhere. *)
Lemma sub_leading_inside :
  forall s x, sub_from re_leading_noise erase (Some x) s 0 = s.
Proof.
  induction s as [|c s IH]; intros x; [reflexivity|].
  cbn [sub_from]. unfold match_here, re_leading_noise. cbn [run].
  f_equal. apply IH.
Qed.

Lemma sub_leading_skip :
  forall r x,
    sub_from re_leading_noise erase (Some x) r
      (List.length r - List.length (drop_while noise r))
    = drop_while noise r.
Proof.
  induction r as [|c r IH]; intros x; [reflexivity|].
  cbn [drop_while]. destruct (noise c).
  - pose proof (drop_while_length noise r).
    replace (List.length (c :: r) - List.length (drop_while noise r))%nat
      with (S (List.length r - List.length (drop_while noise r)))
      by (cbn [List.length]; lia).
    cbn [sub_from]. apply IH.
  - rewrite Nat.sub_diag. apply sub_leading_inside.
Qed.

Lemma sub_leading_direct s :
  sub re_leading_noise erase s = drop_leading_noise s.
Proof.
  unfold sub, drop_leading_noise. destruct s as [|c r]; [reflexivity|].
  cbn [sub_from]. rewrite leading_noise_match. cbn [drop_while].
  destruct (noise c).
  - pose proof (drop_while_length noise r).
    replace (List.length (c :: r) - List.length (drop_while noise r))%nat
      with (S (List.length r - List.length (drop_while noise r)))
      by (cbn [List.length]; lia).
    cbn [erase app]. apply sub_leading_skip.
  - f_equal. apply sub_leading_inside.
Qed.

Lemma sub_trailing_from :
  forall s prev, sub_from re_trailing_noise erase prev s 0 = drop_trailing_noise s.
Proof.
  induction s as [|c s IH]; intros prev.
  - simpl. destruct (match_here re_trailing_noise prev []) as [[rest caps]|];
      reflexivity.
  - cbn [drop_trailing_noise]. destruct (forallb noise (c :: s)) eqn:Hall.
    + apply sub_trailing_noise_all. exact Hall.
    + cbn [sub_from].
      destruct (match_here re_trailing_noise prev (c :: s)) as [[rest caps]|] eqn:E.
      * apply trailing_noise_match in E. congruence.
      * f_equal. apply IH.
Qed.

Lemma sub_trailing_direct s :
  sub re_trailing_noise erase s = drop_trailing_noise s.
Proof. apply sub_trailing_from. Qed.

(** *** The ends of a cleaned value *)

Definition clean_ends (r : text) : Prop :=
  (exists c u, r = c :: u /\ noise c = false)
  /\ (exists u z, r = u ++ [z] /\ noise z = false).

Lemma drop_while_head p s c u : drop_while p s = c :: u -> p c = false.
Proof.
  induction s as [|x s IH]; [discriminate|].
  cbn [drop_while]. destruct (p x) eqn:Hx; [exact IH|].
  intros H. injection H as <- _. exact Hx.
Qed.

Lemma drop_trailing_nil s : drop_trailing_noise s = [] -> forallb noise s = true.
Proof.
  destruct s as [|c s]; [reflexivity|]. cbn [drop_trailing_noise].
  destruct (forallb noise (c :: s)); [reflexivity|discriminate].
Qed.

Lemma drop_trailing_last s :
  drop_trailing_noise s <> [] ->
  exists u z, drop_trailing_noise s = u ++ [z] /\ noise z = false.
Proof.
  induction s as [|c s IH]; [intros H; exfalso; apply H; reflexivity|].
  cbn [drop_trailing_noise]. destruct (forallb noise (c :: s)) eqn:Hall;
    [intros H; congruence|]. intros _.
  destruct (drop_trailing_noise s) as [|y t] eqn:E.
  - apply drop_trailing_nil in E. exists [], c. split; [reflexivity|].
    cbn [forallb] in Hall. rewrite E, andb_true_r in Hall. exact Hall.
  - destruct IH as (u & z & Hu & Hz); [discriminate|].
    exists (c :: u), z. rewrite Hu. auto.
Qed.

Lemma drop_trailing_head s c u :
  drop_trailing_noise s = c :: u -> exists t, s = c :: t.
Proof.
  destruct s as [|x s]; [discriminate|]. cbn [drop_trailing_noise].
  destruct (forallb noise (x :: s)); [discriminate|].
  intros H. injection H as <- _. eauto.
Qed.

Lemma cleaned_ends v :
  drop_trailing_noise (drop_leading_noise v) <> [] ->
  clean_ends (drop_trailing_noise (drop_leading_noise v)).
Proof.
  intros Hne. split.
  - destruct (drop_trailing_noise (drop_leading_noise v)) as [|c u] eqn:E;
      [congruence|].
    exists c, u. split; [reflexivity|].
    destruct (drop_trailing_head _ _ _ E) as [t Ht].
    eapply drop_while_head. exact Ht.
  - apply drop_trailing_last. exact Hne.
Qed.

Lemma noise_last_false u z :
  noise z = false -> forallb noise (u ++ [z]) = false.
Proof.
  intros Hz. rewrite forallb_app. cbn [forallb]. rewrite Hz.
  rewrite andb_false_r. reflexivity.
Qed.

Lemma drop_trailing_fixed s :
  (exists u z, s = u ++ [z] /\ noise z = false) -> drop_trailing_noise s = s.
Proof.
  induction s as [|c s IH]; [reflexivity|].
  intros (u & z & Hu & Hz). cbn [drop_trailing_noise].
  rewrite Hu at 1. rewrite (noise_last_false u z Hz).
  f_equal. destruct s as [|y t]; [reflexivity|].
  apply IH. destruct u as [|x u']; [discriminate|].
  injection Hu as _ Hu. eauto.
Qed.

Lemma not_noise_not_space c : noise c = false -> is_space c = false.
Proof.
  intros H. destruct (is_space c) eqn:E; [|reflexivity].
  rewrite (is_space_noise c E) in H. discriminate.
Qed.

Lemma clean_ends_fixed r :
  clean_ends r ->
  strip r = r /\ drop_leading_noise r = r /\ drop_trailing_noise r = r.
Proof.
  intros [(c & u & Hc & Hn) Hlast]. split; [|split].
  - destruct Hlast as (u' & z & Hu & Hz).
    unfold strip. rewrite Hc, lstrip_nonspace by (apply not_noise_not_space; exact Hn).
    rewrite <- Hc, Hu. apply rstrip_last. apply not_noise_not_space. exact Hz.
  - rewrite Hc. unfold drop_leading_noise. cbn [drop_while]. rewrite Hn. reflexivity.
  - apply drop_trailing_fixed. exact Hlast.
Qed.

(** The value after the strip and the two substitutions. *)
Lemma clean_text_value v0 ft :
  ft = FText \/ ft = FDate ->
  clean_extracted_value (Some v0) ft
  = if negb (truthy v0) || text_eqb v0 INFO_NA then None
    else nonempty (drop_trailing_noise (drop_leading_noise (strip v0))).
Proof.
  intros [-> | ->]; unfold clean_extracted_value;
    rewrite sub_leading_direct, sub_trailing_direct; reflexivity.
Qed.

Lemma nonempty_some v r : nonempty v = Some r -> r = v /\ v <> [].
Proof.
  unfold nonempty. destruct v; simpl; [discriminate|].
  intros H. injection H as <-. split; [reflexivity|discriminate].
Qed.

(** X10: a text or date value that the normaliser returns is not empty
    and neither begins nor ends with a colon, a hyphen, a period or
    whitespace. *)
Theorem cleaned_value_has_clean_ends value ft r :
  ft = FText \/ ft = FDate ->
  clean_extracted_value value ft = Some r -> clean_ends r.
Proof.
  intros Hft H. destruct value as [v0|];
    [|destruct Hft as [-> | ->]; discriminate].
  rewrite (clean_text_value v0 ft Hft) in H.
  destruct (negb (truthy v0) || text_eqb v0 INFO_NA); [discriminate|].
  apply nonempty_some in H. destruct H as [-> Hne].
  apply cleaned_ends. exact Hne.
Qed.

Lemma cleaned_value_has_clean_ends_witness :
  clean_extracted_value (Some (s2l " : Micro Labs Ltd. - ")) FText
  = Some (s2l "Micro Labs Ltd")
  /\ clean_ends (s2l "Micro Labs Ltd").
Proof.
  assert (E : clean_extracted_value (Some (s2l " : Micro Labs Ltd. - ")) FText
              = Some (s2l "Micro Labs Ltd")) by (vm_compute; reflexivity).
  split; [exact E|].
  exact (cleaned_value_has_clean_ends _ FText _ (or_introl eq_refl) E).
Defined.

(** X11: cleaning a cleaned text or date value again returns it as it
    is, unless it is the placeholder "Information not available", which
    a second cleaning turns into null. *)
Theorem cleaned_value_cleaned_again value ft r :
  ft = FText \/ ft = FDate ->
  clean_extracted_value value ft = Some r ->
  clean_extracted_value (Some r) ft
  = if text_eqb r INFO_NA then None else Some r.
Proof.
  intros Hft H.
  assert (Hends : clean_ends r).
  { destruct value as [v0|]; [|destruct Hft as [-> | ->]; discriminate].
    rewrite (clean_text_value v0 ft Hft) in H.
    destruct (negb (truthy v0) || text_eqb v0 INFO_NA); [discriminate|].
    apply nonempty_some in H. destruct H as [-> Hne].
    apply cleaned_ends. exact Hne. }
  rewrite (clean_text_value r ft Hft).
  destruct (clean_ends_fixed r Hends) as (E1 & E2 & E3).
  rewrite E1, E2, E3.
  destruct Hends as [(c & u & -> & _) _]. cbn [truthy negb orb].
  destruct (text_eqb (c :: u) INFO_NA); reflexivity.
Qed.

Lemma cleaned_value_cleaned_again_witness :
  clean_extracted_value (Some (s2l "Micro Labs Ltd")) FText
  = Some (s2l "Micro Labs Ltd")
  /\ clean_extracted_value (Some INFO_NA) FDate = None.
Proof.
  split.
  - exact (cleaned_value_cleaned_again (Some (s2l " : Micro Labs Ltd. - ")) FText
             (s2l "Micro Labs Ltd") (or_introl eq_refl) eq_refl).
  - exact (cleaned_value_cleaned_again (Some (" "%char :: INFO_NA)) FDate
             INFO_NA (or_intror eq_refl) eq_refl).
Defined.

(** *** Prices and batch numbers *)

(** A decimal numeral: digits, then possibly a period and one or two
    digits. *)
Definition price_text (r : text) : Prop :=
  exists D F,
    r = D ++ F /\ D <> [] /\ forallb is_digit D = true
    /\ (F = [] \/ exists w, F = "."%char :: w /\ forallb is_digit w = true
                           /\ (1 <= List.length w <= 2)%nat).

Lemma digit_not_comma c : is_digit c = true -> ascii_eqb c "," = false.
Proof.
  destruct c as [b0 b1 b2 b3 b4 b5 b6 b7].
  destruct b0, b1, b2, b3, b4, b5, b6, b7; intros H;
    try discriminate H; reflexivity.
Qed.

Lemma replace_comma_digits w :
  forallb is_digit w = true -> replace_char "," "." w = w.
Proof.
  induction w as [|c w IH]; [reflexivity|]. cbn [forallb]. intros H.
  apply andb_true_iff in H. destruct H as [Hc Hw].
  unfold replace_char in *. cbn [map]. rewrite (digit_not_comma c Hc), (IH Hw).
  reflexivity.
Qed.

Lemma replace_comma_sep c :
  one_of ".," c = true -> (if ascii_eqb c "," then "."%char else c) = "."%char.
Proof.
  destruct c as [b0 b1 b2 b3 b4 b5 b6 b7].
  destruct b0, b1, b2, b3, b4, b5, b6, b7; intros H;
    try discriminate H; reflexivity.
Qed.

Lemma number_group g :
  read_by (RSeq (plus is_digit)
                (opt (RSeq (RChar (one_of ".,")) (between is_digit 1 2)))) g ->
  price_text (replace_char "," "." g).
Proof.
  intros (p0 & s0 & c0 & p1 & s1 & c1 & H & ->).
  unfold plus, opt, between in H.
  inversion H as [| |? ? ? ? ? ? ? ? ? ? ? H1 H2| | | | | | | | |]; subst; clear H.
  inversion H1; subst; clear H1.
  inversion H2 as [| | |? ? ? ? ? ? ? ? H3| ? ? ? ? ? ? ? ? H3| | | | | | |];
    subst; clear H2.
  - inversion H3 as [| |? ? ? ? ? ? ? ? ? ? ? Hq1 Hq2| | | | | | | | |]; subst; clear H3.
    inversion Hq1; subst; clear Hq1. inversion Hq2; subst; clear Hq2.
    match goal with
    | |- price_text (replace_char _ _ (consumed (?a ++ ?c :: ?b ++ ?t) ?t)) =>
        replace (a ++ c :: b ++ t) with ((a ++ c :: b) ++ t)
          by (rewrite <- app_assoc; reflexivity);
        rewrite consumed_app; exists a, ("."%char :: b)
    end.
    repeat split; try assumption.
    + unfold replace_char. rewrite map_app. cbn [map].
      fold (replace_char "," "." w). fold (replace_char "," "." w0).
      rewrite !replace_comma_digits by assumption.
      match goal with Hc : one_of ".," _ = true |- _ =>
        rewrite (replace_comma_sep _ Hc) end.
      reflexivity.
    + intros ->. simpl in *. lia.
    + right. eexists. repeat split; try eassumption; simpl in *; try assumption; lia.
  - inversion H3; subst; clear H3. rewrite consumed_app.
    exists w, []. repeat split; try assumption.
    + rewrite app_nil_r. apply replace_comma_digits. assumption.
    + intros ->. simpl in *. lia.
    + left. reflexivity.
Qed.

(** X12: a price that the normaliser returns is a decimal numeral:
    digits, then possibly a period and one or two digits; a comma of the
    value has become the period. *)
Theorem cleaned_price_is_numeral value r :
  clean_extracted_value value FMrp = Some r -> price_text r.
Proof.
  unfold clean_extracted_value. destruct value as [v0|]; [|discriminate].
  destruct (negb (truthy v0) || text_eqb v0 INFO_NA); [discriminate|].
  destruct (search re_number _) as [m|] eqn:Es; [|discriminate].
  destruct (group m 1) as [g|] eqn:Eg; [|discriminate].
  intros H. apply nonempty_some in H. destruct H as [-> _].
  destruct (search_group _ _ _ _ _ Es Eg) as (body & Hb & Hr).
  simpl in Hb. destruct Hb as [<-|[]].
  apply number_group. exact Hr.
Qed.

Lemma cleaned_price_is_numeral_witness :
  clean_extracted_value (Some (s2l "Rs. 12,50 incl. of all taxes")) FMrp
  = Some (s2l "12.50")
  /\ price_text (s2l "12.50").
Proof.
  assert (E : clean_extracted_value (Some (s2l "Rs. 12,50 incl. of all taxes")) FMrp
              = Some (s2l "12.50")) by (vm_compute; reflexivity).
  split; [exact E|exact (cleaned_price_is_numeral _ _ E)].
Defined.

Lemma alnum_not_noise c : is_alnum c = true -> noise c = false.
Proof.
  destruct c as [b0 b1 b2 b3 b4 b5 b6 b7].
  destruct b0, b1, b2, b3, b4, b5, b6, b7; intros H;
    try discriminate H; reflexivity.
Qed.

Lemma drop_while_keeps p s c :
  In c s -> p c = false -> In c (drop_while p s).
Proof.
  induction s as [|x s IH]; [intros []|].
  intros [->|Hin] Hc; cbn [drop_while].
  - rewrite Hc. left. reflexivity.
  - destruct (p x); [apply IH; assumption|right; exact Hin].
Qed.

(** X13: a batch number that the normaliser returns holds a letter or a
    digit and does not begin with a colon, a hyphen, a period or
    whitespace. *)
Theorem cleaned_batch_has_alnum value r :
  clean_extracted_value value FBatch = Some r ->
  existsb is_alnum r = true
  /\ exists c u, r = c :: u /\ noise c = false.
Proof.
  unfold clean_extracted_value. destruct value as [v0|]; [|discriminate].
  destruct (negb (truthy v0) || text_eqb v0 INFO_NA); [discriminate|].
  rewrite !sub_leading_direct, sub_trailing_direct.
  destruct (search re_alnum _) as [m|] eqn:Es; [|discriminate].
  intros H. apply nonempty_some in H. destruct H as [-> Hne].
  apply search_sound in Es. destruct Es as (pre & p1 & Hs & Hst).
  unfold re_alnum in Hst. inversion Hst as [? c s' ? ? Hc Heq| | | | | | | | | | |]; subst.
  split.
  - apply existsb_exists. exists c. split; [|exact Hc].
    apply drop_while_keeps; [|apply alnum_not_noise; exact Hc].
    rewrite Hs. apply in_or_app. right.
    match goal with Heq : c :: _ = _ |- _ => rewrite <- Heq end.
    left. reflexivity.
  - destruct (drop_leading_noise (drop_trailing_noise _)) as [|x u] eqn:E;
      [congruence|].
    exists x, u. split; [reflexivity|]. exact (drop_while_head noise _ x u E).
Qed.

Lemma cleaned_batch_has_alnum_witness :
  clean_extracted_value (Some (s2l ": ALA306 .")) FBatch = Some (s2l "ALA306")
  /\ existsb is_alnum (s2l "ALA306") = true.
Proof.
  assert (E : clean_extracted_value (Some (s2l ": ALA306 .")) FBatch
              = Some (s2l "ALA306")) by (vm_compute; reflexivity).
  split; [exact E|exact (proj1 (cleaned_batch_has_alnum _ _ E))].
Defined.

End NormalizerMore.

(** ** More on the extraction cascade *)

Module CascadeMore.

Import ParseFacts Cascade ParserMore.

(** Every field that [e] holds is the same in [e']. *)
Definition kept (e e' : extracted) : Prop :=
  (falsy (brand e) = false -> brand e' = brand e)
  /\ (falsy (dosage e) = false -> dosage e' = dosage e)
  /\ (falsy (batch e) = false -> batch e' = batch e)
  /\ (falsy (mfd_date e) = false -> mfd_date e' = mfd_date e)
  /\ (falsy (exp_date e) = false -> exp_date e' = exp_date e)
  /\ (falsy (manufacturer e) = false -> manufacturer e' = manufacturer e)
  /\ (falsy (mrp_str e) = false -> mrp_str e' = mrp_str e).

Lemma method2_kept P full_text e e2 :
  method2 P full_text e = Some e2 -> kept e e2.
Proof.
  intros H. apply method2_fields in H.
  destruct H as (Hd & Hbn & Hmf & Hex & Hma & Hmr & Hb).
  unfold kept. repeat split; intros Hf;
    try (apply Hb; exact Hf);
    match goal with
    | Hr : regex_fill ?x _ _ = Some ?y |- ?y = ?x =>
        rewrite regex_fill_keeps in Hr by exact Hf; injection Hr as <-; reflexivity
    end.
Qed.

Lemma method3_kept gem_fields full_text e :
  kept e (method3 gem_fields full_text e).
Proof.
  unfold method3, kept.
  destruct (_ || _); [destruct (gem_fields full_text) as [g|]|];
    cbn [brand dosage batch mfd_date exp_date manufacturer mrp_str];
    repeat split; intros Hf; try reflexivity;
    try (apply model_fill_keeps; exact Hf).
  rewrite Hf. reflexivity.
Qed.

(** X14: no pass of the cascade overwrites a field that is already
    filled: the regular expressions leave every non-empty field of the
    model-direct pass as it is, and the model-over-text pass leaves every
    non-empty field it finds as it is. *)
Theorem passes_never_overwrite P gem_fields full_text e :
  (forall e2, method2 P full_text e = Some e2 -> kept e e2)
  /\ kept e (method3 gem_fields full_text e).
Proof.
  split; [intros e2; apply method2_kept|apply method3_kept].
Qed.

Lemma passes_never_overwrite_witness :
  method2 PATTERNS (s2l "take care")
    (Extracted None (Some (s2l "650 mg")) None None None None None)
  = Some (Extracted (Some (s2l "take")) (Some (s2l "650 mg")) (Some INFO_NA)
            (Some INFO_NA) (Some INFO_NA) (Some INFO_NA) (Some INFO_NA))
  /\ kept (Extracted None (Some (s2l "650 mg")) None None None None None)
          (Extracted (Some (s2l "take")) (Some (s2l "650 mg")) (Some INFO_NA)
             (Some INFO_NA) (Some INFO_NA) (Some INFO_NA) (Some INFO_NA)).
Proof.
  assert (E : method2 PATTERNS (s2l "take care")
                (Extracted None (Some (s2l "650 mg")) None None None None None)
              = Some (Extracted (Some (s2l "take")) (Some (s2l "650 mg"))
                        (Some INFO_NA) (Some INFO_NA) (Some INFO_NA)
                        (Some INFO_NA) (Some INFO_NA)))
    by (vm_compute; reflexivity).
  split; [exact E|].
  exact (proj1 (passes_never_overwrite PATTERNS (fun _ => None) _ _) _ E).
Defined.

(** *** The brand that comes out *)

Definition brand_ok (b : option text) : Prop :=
  b = None \/ is_valid_brand b = true.

Lemma is_valid_brand_strip v :
  is_valid_brand (Some v) = true -> is_valid_brand (Some (strip v)) = true.
Proof.
  unfold is_valid_brand. rewrite strip_idempotent.
  destruct (truthy v); cbn [negb orb]; [|discriminate].
  destruct (truthy (strip v)); cbn [negb orb]; [|discriminate].
  intros H. exact H.
Qed.

Lemma method1_brand_ok gem_direct : brand_ok (brand (method1 gem_direct)).
Proof.
  unfold method1. destruct gem_direct as [g|]; cbn [brand nothing_extracted];
    [|left; reflexivity].
  destruct (negb (falsy _) && is_valid_brand _) eqn:E; [|left; reflexivity].
  apply andb_true_iff in E. right. apply E.
Qed.

Lemma method2_brand_ok P full_text e e2 :
  brand_ok (brand e) -> method2 P full_text e = Some e2 -> brand_ok (brand e2).
Proof.
  intros Hok H. unfold method2 in H.
  apply bind_some in H. destruct H as (b & Hb & H).
  apply bind_some in H. destruct H as (d & _ & H).
  apply bind_some in H. destruct H as (bn & _ & H).
  apply bind_some in H. destruct H as (mf & _ & H).
  apply bind_some in H. destruct H as (ex & _ & H).
  apply bind_some in H. destruct H as (ma & _ & H).
  apply bind_some in H. destruct H as (mr & _ & H).
  injection H as <-. cbn [brand].
  destruct (falsy (brand e)).
  - apply bind_some in Hb. destruct Hb as (v & _ & Hb).
    remember (is_valid_brand (Some v)) as ok eqn:E.
    destruct ok; injection Hb as <-; [right; symmetry; exact E|left; reflexivity].
  - injection Hb as <-. exact Hok.
Qed.

Lemma method3_brand_ok gem_fields full_text e :
  brand_ok (brand e) -> brand_ok (brand (method3 gem_fields full_text e)).
Proof.
  intros Hok. unfold method3.
  destruct (_ || _); [|exact Hok].
  destruct (gem_fields full_text) as [g|]; [|exact Hok]. cbn [brand].
  destruct (falsy (brand e) && is_valid_brand (r_brand g)) eqn:E; [|exact Hok].
  apply andb_true_iff in E. destruct E as [_ E].
  destruct (r_brand g) as [v|]; [|discriminate].
  right. apply is_valid_brand_strip. exact E.
Qed.

(** X15: the brand that comes out of the three passes is null or a valid
    brand: a non-blank text which, stripped, begins with none of the
    generic lead words ("each ", "tablet", "contains", "store", ...). *)
Theorem cascade_brand_is_valid P gem_direct ocr_text gem_fields e ft :
  extract_fields P gem_direct ocr_text gem_fields = Some (e, ft) ->
  brand e = None \/ is_valid_brand (brand e) = true.
Proof.
  unfold extract_fields. destruct (falsy ocr_text).
  - intros H. injection H as <- _. apply method1_brand_ok.
  - intros H. apply bind_some in H. destruct H as (e2 & H2 & H).
    injection H as <- _. apply method3_brand_ok.
    eapply method2_brand_ok; [|exact H2]. apply method1_brand_ok.
Qed.

Lemma cascade_brand_is_valid_witness :
  brand (Extracted (Some (s2l "Dolo 650")) (Some INFO_NA) (Some INFO_NA)
           (Some INFO_NA) (Some INFO_NA) (Some INFO_NA) (Some INFO_NA)) = None
  \/ is_valid_brand
       (brand (Extracted (Some (s2l "Dolo 650")) (Some INFO_NA) (Some INFO_NA)
                 (Some INFO_NA) (Some INFO_NA) (Some INFO_NA) (Some INFO_NA)))
     = true.
Proof.
  apply (cascade_brand_is_valid PATTERNS None (Some (s2l "keep cool"))
           (fun _ => Some sample_reply) _ (Some (s2l "keep cool"))).
  vm_compute. reflexivity.
Defined.

End CascadeMore.

(** ** More on [normalize_vertical] *)

Module VerticalMore.

Lemma collect_run_parts rest :
  List.concat (fst (collect_run rest)) ++ List.concat (map strip (snd (collect_run rest)))
  = List.concat (map strip rest)
  /\ (List.length (snd (collect_run rest)) <= List.length rest)%nat.
Proof.
  induction rest as [|l rest IH]; [split; reflexivity|].
  cbn [collect_run]. destruct (single_alnum l).
  - destruct (collect_run rest) as [run rest'] eqn:E. cbn [fst snd] in *.
    destruct IH as [IH1 IH2]. split.
    + cbn [List.concat map]. rewrite <- app_assoc, IH1. reflexivity.
    + cbn [List.length]. lia.
  - cbn [fst snd]. split; [reflexivity|lia].
Qed.

Lemma normalize_lines_parts lines :
  List.concat (normalize_lines lines) = List.concat (map strip lines)
  /\ (List.length (normalize_lines lines) <= List.length lines)%nat.
Proof.
  funelim (normalize_lines lines).
  - split; reflexivity.
  - destruct H as [H1 H2]. destruct (collect_run_parts rest) as [C1 C2].
    split.
    + cbn [List.concat map]. rewrite H1, <- app_assoc, C1. reflexivity.
    + cbn [List.length]. lia.
  - destruct H as [H1 H2]. split.
    + cbn [List.concat map]. rewrite H1. reflexivity.
    + cbn [List.length]. lia.
Qed.

(** X16: [normalize_vertical] loses and reorders nothing but whitespace
    at the ends of lines: the lines it joins with line feeds, read one
    after the other, are the stripped lines of the text read one after
    the other; and it never returns more lines than the text has. *)
Theorem normalize_vertical_keeps_characters text_ :
  normalize_vertical text_
  = join (s2l (String "010"%char EmptyString)) (normalize_lines (splitlines text_))
  /\ List.concat (normalize_lines (splitlines text_))
     = List.concat (map strip (splitlines text_))
  /\ (List.length (normalize_lines (splitlines text_))
      <= List.length (splitlines text_))%nat.
Proof.
  split; [reflexivity|]. apply normalize_lines_parts.
Qed.

End VerticalMore.

(** ** More on the OCR orchestrator *)

Module OrchestratorMore.

Import Ocr Orchestrator.

Fixpoint is_prefix (a b : list backend) : Prop :=
  match a, b with
  | [], _ => True
  | x :: a', y :: b' => x = y /\ is_prefix a' b'
  | _ :: _, [] => False
  end.

Lemma is_prefix_app a b : is_prefix a (a ++ b).
Proof. induction a as [|x a IH]; simpl; auto. Qed.

Lemma is_prefix_refl a : is_prefix a a.
Proof. induction a as [|x a IH]; simpl; auto. Qed.

(** X17: the orchestrator stops at the first backend that gives text:
    when the local backend returns a non-empty text, that text is the
    result and neither the model nor the cloud service is called; when
    the local backend and the model give nothing and the cloud service
    returns annotations, the result is the description of the first one
    and the model is not asked a second time. *)
Theorem ocr_stops_at_first_text (E : env) :
  (forall t,
      TESSERACT_AVAILABLE E = true ->
      tesseract_engine E = Returned (Some t) -> t <> [] ->
      run_ocr E = (Some t, [Tesseract]))
  /\ (forall t rest,
         local_gives_nothing E -> model_gives_nothing E 0 ->
         vision_text_detection E = Returned (t :: rest) ->
         run_ocr E = (Some t, local_calls E ++ model_calls E ++ [Vision])).
Proof.
  rewrite run_ocr_cases. split.
  - intros t Ha He Hne. unfold local_result, local_calls. rewrite Ha, He.
    destruct t; [congruence|reflexivity].
  - intros t rest Hl Hm Hv.
    apply local_result_falsy in Hl. apply model_result_falsy in Hm.
    rewrite Hl, Hm. cbn [negb]. unfold cloud_result. rewrite Hv. reflexivity.
Qed.

Lemma ocr_stops_at_first_text_witness :
  run_ocr (Env true true (s2l "key") (Returned (Some (s2l "Dolo-650")))
             (fun _ => Raised) Raised)
  = (Some (s2l "Dolo-650"), [Tesseract]).
Proof.
  apply (proj1 (ocr_stops_at_first_text _) (s2l "Dolo-650"));
    [reflexivity|reflexivity|discriminate].
Defined.

(** X18: whatever the backends answer, the calls the orchestrator makes
    are an initial part of the sequence local, model, cloud, model (each
    of local and model only when it is configured): no backend is called
    out of this order, the local and the cloud backend at most once and
    the model at most twice. *)
Theorem ocr_calls_in_order (E : env) :
  is_prefix (snd (run_ocr E)) (all_calls E).
Proof.
  rewrite run_ocr_cases. unfold all_calls.
  destruct (negb (falsy (local_result E))); cbn [snd].
  - apply is_prefix_app.
  - destruct (negb (falsy (model_result E 0))); cbn [snd].
    + rewrite app_assoc. apply is_prefix_app.
    + destruct (cloud_result E); cbn [snd].
      * replace (local_calls E ++ model_calls E ++ [Vision] ++ model_calls E)
          with ((local_calls E ++ model_calls E ++ [Vision]) ++ model_calls E)
          by (rewrite <- !app_assoc; reflexivity).
        apply is_prefix_app.
      * destruct (negb (falsy (model_result E (List.length (model_calls E)))));
          cbn [snd]; apply is_prefix_refl.
Qed.

End OrchestratorMore.

(** ** The second parser, the dates of [save_ocr] and the dates shown *)

Module DateFlow.

Import ReFacts GroupFacts DateFacts ParseFacts ParseTrace PeriodFacts
       ReconcileFacts DayMonthYear ParserMore.

(** *** [parse_date_from_gemini] *)

Lemma parse_strip_eq now s :
  parse_date_flexible now (strip s) = parse_date_flexible now s.
Proof.
  unfold parse_date_flexible. destruct s as [|c s]; [reflexivity|].
  cbn [truthy negb]. destruct (strip (c :: s)) as [|x r] eqn:E.
  - reflexivity.
  - cbn [truthy negb]. rewrite <- E, strip_idempotent. reflexivity.
Qed.

Lemma gemini_placeholders_known x :
  text_in x placeholders = false -> text_in x gemini_placeholders = false.
Proof.
  unfold text_in, placeholders, gemini_placeholders. cbn [map existsb].
  repeat match goal with
         | |- context [text_eqb x ?b] => destruct (text_eqb x b)
         end; cbn [orb]; congruence.
Qed.

Lemma gemini_of_parser now s d :
  parse_date_flexible now s = Some d -> parse_date_from_gemini now s = Some d.
Proof.
  intros H. pose proof H as H0. unfold parse_date_flexible in H0.
  unfold parse_date_from_gemini.
  destruct (negb (truthy s)); [discriminate|].
  destruct (text_in (lower (strip s)) placeholders) eqn:Ep; [discriminate|].
  rewrite (gemini_placeholders_known _ Ep).
  destruct (strip s) as [|x r] eqn:Es; [discriminate|].
  cbn [truthy negb orb]. rewrite <- Es, parse_strip_eq, H. reflexivity.
Qed.

(** X19: the second parser returns what the flexible parser returns,
    whenever the flexible parser returns a date. *)
Theorem gemini_parser_extends_parser now s d :
  parse_date_flexible now s = Some d -> parse_date_from_gemini now s = Some d.
Proof. apply gemini_of_parser. Qed.

Lemma gemini_parser_extends_parser_witness :
  parse_date_from_gemini sample_now (s2l " EXP.DEC.26 ") = Some (Date 2026 12 1).
Proof.
  apply (gemini_parser_extends_parser sample_now (s2l " EXP.DEC.26 ")).
  vm_compute. reflexivity.
Defined.

Lemma gemini_cases now s d :
  parse_date_from_gemini now s = Some d ->
  parse_date_flexible now (strip s) = Some d
  \/ exists yyyy mm,
       (1990 <=? yyyy) && (yyyy <=? year now + 20) = true
       /\ mk_date yyyy mm 1 = Some d.
Proof.
  unfold parse_date_from_gemini.
  destruct (negb (truthy s)); [discriminate|].
  destruct (negb (truthy (strip s)) || _); [discriminate|].
  destruct (parse_date_flexible now (strip s)) as [r|]; [intros H; left; exact H|].
  destruct (search re_month_anywhere (strip s)) as [m|]; [|discriminate].
  destruct (group m 1) as [g|]; [|discriminate].
  destruct (search re_digits_2_4 (strip s)) as [y|]; [|discriminate].
  destruct (Strptime.bind (group y 1) int) as [year0|]; [|discriminate].
  match goal with
  | |- (if ?c then _ else _) = _ -> _ => destruct c eqn:E; [|discriminate]
  end.
  intros H. right. eauto.
Qed.

(** X20: with the current year at 2011 or later, every date the second
    parser returns is the first day of a month of a year between 1990
    and the current year plus 20. *)
Theorem gemini_parser_dates now s d :
  2011 <= year now ->
  parse_date_from_gemini now s = Some d ->
  day d = 1 /\ 1990 <= year d <= year now + 20 /\ wf_date d.
Proof.
  intros Hclock H. apply gemini_cases in H.
  destruct H as [H|(yyyy & mm & Hg & H)].
  - split; [exact (parse_date_flexible_day_one now Hclock _ _ H)|].
    apply parse_date_flexible_accepted in H. destruct H as [Hw Hv].
    unfold valid_year in Hv. apply andb_true_iff in Hv.
    rewrite !Z.leb_le in Hv. auto.
  - pose proof (mk_date_wf _ _ _ _ H) as Hw.
    apply mk_date_some in H. destruct H as [-> _]. cbn [day year].
    apply andb_true_iff in Hg. rewrite !Z.leb_le in Hg. auto.
Qed.

Lemma gemini_parser_dates_witness :
  parse_date_from_gemini sample_now (s2l "24JAN") = Some (Date 2024 1 1)
  /\ parse_date_flexible sample_now (s2l "24JAN") = None
  /\ day (Date 2024 1 1) = 1.
Proof.
  assert (E : parse_date_from_gemini sample_now (s2l "24JAN") = Some (Date 2024 1 1))
    by (vm_compute; reflexivity).
  split; [exact E|]. split; [vm_compute; reflexivity|].
  refine (proj1 (gemini_parser_dates sample_now (s2l "24JAN") _ _ E)).
  vm_compute. discriminate.
Defined.

(** *** The dates of [save_ocr] *)

Lemma date_ltb_asym a b : date_ltb a b = true -> date_ltb b a = false.
Proof.
  intros H. destruct (date_ltb b a) eqn:E; [|reflexivity].
  apply date_ltb_spec in H. apply date_ltb_spec in E. lia.
Qed.

Lemma parse_empty now : parse_date_flexible now [] = None.
Proof. reflexivity. Qed.

Lemma parse_input_guard now s :
  (if truthy s then parse_date_flexible now s else None)
  = parse_date_flexible now s.
Proof. destruct s; reflexivity. Qed.

Lemma reconcile_empty_text now m e :
  reconcile_dates_from_text now [] m e
  = match m, e with
    | Some m, Some e => if date_ltb e m then Some (e, m) else Some (m, e)
    | Some m, None => with_expiry m (add_months m 24)
    | None, Some e => with_manufacture (add_months e (-24)) e
    | None, None => with_expiry now (add_months now 12)
    end.
Proof.
  unfold reconcile_dates_from_text.
  change (find_date_candidates now []) with (@nil date).
  change (shelf_life_months []) with (@None Z).
  cbn [life_known filter List.length Nat.leb].
  destruct m, e; reflexivity.
Qed.

Definition stored (now : date) (m e : option date) : option (date * date) :=
  match m, e with
  | Some m, Some e => if date_ltb e m then Some (e, m) else Some (m, e)
  | Some m, None => with_expiry m (add_months m 24)
  | None, Some e => with_manufacture (add_months e (-24)) e
  | None, None => with_expiry now (add_months now 12)
  end.

Lemma stored_ordered now m e a b :
  wf_date now -> opt_wf m -> opt_wf e ->
  stored now m e = Some (a, b) -> date_ltb b a = false.
Proof.
  intros Hnow Hm He. unfold stored. destruct m as [m|], e as [e|]; simpl in Hm, He.
  - destruct (date_ltb e m) eqn:E; intros H; injection H as <- <-.
    + apply date_ltb_asym. exact E.
    + exact E.
  - intros H. apply with_expiry_some in H. destruct H as [-> H].
    apply date_ltb_asym. eapply add_months_later; [exact Hm| |exact H]. lia.
  - intros H. apply with_manufacture_some in H. destruct H as [-> H].
    apply date_ltb_asym. eapply add_months_earlier; [exact He| |exact H]. lia.
  - intros H. apply with_expiry_some in H. destruct H as [-> H].
    apply date_ltb_asym. eapply add_months_later; [exact Hnow| |exact H]. lia.
Qed.

Lemma parse_opt_wf now s : opt_wf (parse_date_flexible now s).
Proof.
  destruct (parse_date_flexible now s) as [d|] eqn:E; [|exact I].
  apply parse_date_flexible_accepted in E. apply E.
Qed.

Lemma save_ocr_dates_stored now mfd_input exp_input :
  wf_date now ->
  save_ocr_dates now mfd_input exp_input
  = stored now (parse_date_flexible now mfd_input)
           (parse_date_flexible now exp_input).
Proof.
  intros Hnow. unfold save_ocr_dates. rewrite !parse_input_guard.
  rewrite reconcile_empty_text. fold (stored now (parse_date_flexible now mfd_input)
                                         (parse_date_flexible now exp_input)).
  destruct (stored now _ _) as [[a b]|] eqn:E; [|reflexivity].
  rewrite (stored_ordered now _ _ a b Hnow (parse_opt_wf now mfd_input)
             (parse_opt_wf now exp_input) E).
  reflexivity.
Qed.

(** X21: the dates [save_ocr] stores.  With both inputs read by the
    parser they are the two dates, the earlier one first; with the
    manufacture date alone, it and the month 24 months later; with the
    expiry date alone, the month 24 months earlier and it; with neither,
    today and the month 12 months later (each computed day cut to 28).
    The closing guard [exp_dt < mfd_dt] never fires, and the stored
    manufacture date is never after the stored expiry date. *)
Theorem save_ocr_dates_cases now mfd_input exp_input :
  wf_date now ->
  save_ocr_dates now mfd_input exp_input
  = match parse_date_flexible now mfd_input, parse_date_flexible now exp_input with
    | Some m, Some e => if date_ltb e m then Some (e, m) else Some (m, e)
    | Some m, None => with_expiry m (add_months m 24)
    | None, Some e => with_manufacture (add_months e (-24)) e
    | None, None => with_expiry now (add_months now 12)
    end
  /\ (forall a b, save_ocr_dates now mfd_input exp_input = Some (a, b) ->
                  date_leb a b = true).
Proof.
  intros Hnow. rewrite (save_ocr_dates_stored now _ _ Hnow). split; [reflexivity|].
  intros a b H. unfold date_leb. apply negb_true_iff.
  exact (stored_ordered now _ _ a b Hnow (parse_opt_wf now mfd_input)
           (parse_opt_wf now exp_input) H).
Qed.

Lemma save_ocr_dates_cases_witness :
  save_ocr_dates sample_now (s2l "Jun 2025") (s2l "") = Some (Date 2025 6 1, Date 2027 6 1)
  /\ save_ocr_dates sample_now (s2l "") (s2l "") = Some (Date 2026 11 4, Date 2027 11 4)
  /\ date_leb (Date 2025 6 1) (Date 2027 6 1) = true.
Proof.
  assert (Hnow : wf_date sample_now) by reflexivity.
  assert (E : save_ocr_dates sample_now (s2l "Jun 2025") (s2l "")
              = Some (Date 2025 6 1, Date 2027 6 1)) by (vm_compute; reflexivity).
  split; [exact E|]. split; [vm_compute; reflexivity|].
  exact (proj2 (save_ocr_dates_cases sample_now _ _ Hnow) _ _ E).
Defined.

(** *** The dates shown, read back *)

Ltac closed_chars :=
  repeat match goal with
         | |- context [is_char_ci (Ascii ?a0 ?a1 ?a2 ?a3 ?a4 ?a5 ?a6 ?a7)
                                  (Ascii ?b0 ?b1 ?b2 ?b3 ?b4 ?b5 ?b6 ?b7)] =>
             let t := constr:(is_char_ci (Ascii a0 a1 a2 a3 a4 a5 a6 a7)
                                         (Ascii b0 b1 b2 b3 b4 b5 b6 b7)) in
             let v := eval vm_compute in t in change t with v
         | |- context [is_alpha (Ascii ?b0 ?b1 ?b2 ?b3 ?b4 ?b5 ?b6 ?b7)] =>
             let t := constr:(is_alpha (Ascii b0 b1 b2 b3 b4 b5 b6 b7)) in
             let v := eval vm_compute in t in change t with v
         | |- context [is_word (Ascii ?b0 ?b1 ?b2 ?b3 ?b4 ?b5 ?b6 ?b7)] =>
             let t := constr:(is_word (Ascii b0 b1 b2 b3 b4 b5 b6 b7)) in
             let v := eval vm_compute in t in change t with v
         | |- context [date_sep_or_space (Ascii ?b0 ?b1 ?b2 ?b3 ?b4 ?b5 ?b6 ?b7)] =>
             let t := constr:(date_sep_or_space (Ascii b0 b1 b2 b3 b4 b5 b6 b7)) in
             let v := eval vm_compute in t in change t with v
         end.

Lemma digit_not_alpha c : is_digit c = true -> is_alpha c = false.
Proof.
  destruct c as [b0 b1 b2 b3 b4 b5 b6 b7].
  destruct b0, b1, b2, b3, b4, b5, b6, b7; intros H;
    try discriminate H; reflexivity.
Qed.

Lemma digit_not_sep_or_space c : is_digit c = true -> date_sep_or_space c = false.
Proof.
  destruct c as [b0 b1 b2 b3 b4 b5 b6 b7].
  destruct b0, b1, b2, b3, b4, b5, b6, b7; intros H;
    try discriminate H; reflexivity.
Qed.

Ltac digit_chars :=
  repeat match goal with
         | H : is_digit ?c = true |- context [is_digit ?c] => rewrite H
         | H : is_digit ?c = true |- context [is_word ?c] => rewrite (digit_is_word c H)
         | H : is_digit ?c = true |- context [is_alpha ?c] => rewrite (digit_not_alpha c H)
         | H : is_digit ?c = true |- context [date_sep_or_space ?c] =>
             rewrite (digit_not_sep_or_space c H)
         end.

Ltac read_month_year :=
  unfold match_here, re_month_year, month_words, lit_ci, star, between;
  cbn [s2l list_ascii_of_string map app alts seqs nth MONTH_ABBR];
  repeat (progress (unfold at_boundary;
                    cbn [run rep_greedy andb hi_open hi_pred option_map pred
                           orelse negb Bool.eqb word_opt hd_error];
                    closed_chars; digit_chars));
  unfold consumed; cbn [List.length Nat.sub firstn]; reflexivity.

Section Shown.

Variables y1 y2 y3 y4 : ascii.
Hypothesis H1 : is_digit y1 = true.
Hypothesis H2 : is_digit y2 = true.
Hypothesis H3 : is_digit y3 = true.
Hypothesis H4 : is_digit y4 = true.

Definition shown (k : nat) : text :=
  s2l (nth k MONTH_ABBR ""%string) ++ s2l " " ++ [y1; y2; y3; y4].

Lemma shown_match k :
  (k < 12)%nat ->
  match_here re_month_year None (shown k)
  = Some ([], [(2%nat, [y1; y2; y3; y4]); (1%nat, s2l (nth k MONTH_ABBR ""%string))]).
Proof.
  intros Hk. unfold shown.
  do 12 (destruct k as [|k]; [read_month_year|]). lia.
Qed.

Lemma shown_month k :
  (k < 12)%nat ->
  dict_get month_map (firstn 3 (lower (s2l (nth k MONTH_ABBR ""%string)))) 1
  = Z.of_nat k + 1.
Proof.
  intros Hk. do 12 (destruct k as [|k]; [reflexivity|]). lia.
Qed.

Lemma shown_rule1 k y :
  (k < 12)%nat -> int [y1; y2; y3; y4] = Some y ->
  rule1_fields (shown k) = Some (fix_year y, Z.of_nat k + 1).
Proof.
  intros Hk Hy. unfold rule1_fields, search.
  destruct (search_from_hit _ _ _ _ _ (shown_match k Hk)) as (m & Em & Ec).
  rewrite Em. unfold group. rewrite Ec. cbn [lookup Nat.eqb Strptime.bind].
  rewrite Hy, (shown_month k Hk). reflexivity.
Qed.

Lemma shown_input k :
  (k < 12)%nat -> parse_input (shown k) = Some (shown k).
Proof.
  intros Hk.
  assert (Hs : strip (shown k) = shown k).
  { unfold shown.
    do 12 (destruct k as [|k];
           [unfold strip; cbn [nth MONTH_ABBR s2l list_ascii_of_string app];
            rewrite lstrip_nonspace by reflexivity;
            match goal with
            | |- rstrip (?a :: ?b :: ?c :: ?d :: ?e) = _ =>
                change (a :: b :: c :: d :: e)
                  with ([a; b; c; d; y1; y2; y3] ++ [y4])
            end;
            apply rstrip_last; apply digit_not_space; exact H4|]).
    lia. }
  unfold parse_input. rewrite Hs.
  assert (Ht : truthy (shown k) = true).
  { unfold shown. do 12 (destruct k as [|k]; [reflexivity|]). lia. }
  rewrite Ht. cbn [negb].
  assert (Hp : text_in (lower (shown k)) placeholders = false).
  { unfold shown. do 12 (destruct k as [|k]; [vm_compute; reflexivity|]). lia. }
  rewrite Hp. reflexivity.
Qed.

End Shown.

Lemma digit_char_digit n :
  0 <= n <= 9 -> is_digit (digit_char n) = true /\ digit_val (digit_char n) = n.
Proof.
  intros H. rewrite <- (Z2Nat.id n) by lia.
  assert (K : (Z.to_nat n < 10)%nat) by lia.
  revert K. generalize (Z.to_nat n). intros k K.
  do 10 (destruct k as [|k]; [split; reflexivity|]). lia.
Qed.

Lemma year_digits_int y :
  0 <= y <= 9999 ->
  forallb is_digit (year_digits y) = true /\ int (year_digits y) = Some y.
Proof.
  intros Hy. unfold year_digits.
  assert (Ha : 0 <= y / 1000 <= 9).
  { split; [apply Z.div_pos; lia|].
    assert (y / 1000 < 10) by (apply Z.div_lt_upper_bound; lia). lia. }
  pose proof (Z.mod_pos_bound (y / 100) 10 ltac:(lia)) as Hb.
  pose proof (Z.mod_pos_bound (y / 10) 10 ltac:(lia)) as Hc.
  pose proof (Z.mod_pos_bound y 10 ltac:(lia)) as Hd.
  destruct (digit_char_digit _ Ha) as [Da Va].
  destruct (digit_char_digit ((y / 100) mod 10) ltac:(lia)) as [Db Vb].
  destruct (digit_char_digit ((y / 10) mod 10) ltac:(lia)) as [Dc Vc].
  destruct (digit_char_digit (y mod 10) ltac:(lia)) as [Dd Vd].
  assert (Hall : forallb is_digit
                   [digit_char (y / 1000); digit_char ((y / 100) mod 10);
                    digit_char ((y / 10) mod 10); digit_char (y mod 10)] = true).
  { cbn [forallb]. rewrite Da, Db, Dc, Dd. reflexivity. }
  split; [exact Hall|].
  rewrite int_digits_text by (try exact Hall; discriminate).
  cbn [int_digits]. rewrite Da, Db, Dc, Dd, Va, Vb, Vc, Vd. f_equal.
  pose proof (Z.div_mod y 10 ltac:(lia)) as E1.
  pose proof (Z.div_mod (y / 10) 10 ltac:(lia)) as E2.
  pose proof (Z.div_mod (y / 100) 10 ltac:(lia)) as E3.
  assert (E4 : y / 10 / 10 = y / 100) by (rewrite Z.div_div by lia; reflexivity).
  assert (E5 : y / 100 / 10 = y / 1000) by (rewrite Z.div_div by lia; reflexivity).
  rewrite E4 in E2. rewrite E5 in E3. lia.
Qed.

Lemma shown_parse now d :
  wf_date d -> day d = 1 -> 1990 <= year d <= year now + 20 ->
  parse_date_flexible now (strftime_b_Y d) = Some d.
Proof.
  intros Hw Hd Hy. destruct d as [y m dd]. cbn [year month day] in *. subst dd.
  apply valid_date_spec in Hw. cbn [year month day] in Hw.
  destruct (year_digits_int y ltac:(lia)) as [Hall Hint].
  unfold year_digits in Hall, Hint. cbn [forallb] in Hall.
  rewrite !andb_true_iff in Hall. destruct Hall as (D1 & D2 & D3 & D4 & _).
  assert (Hk : (Z.to_nat (m - 1) < 12)%nat) by lia.
  assert (Es : strftime_b_Y (Date y m 1)
               = shown (digit_char (y / 1000)) (digit_char ((y / 100) mod 10))
                       (digit_char ((y / 10) mod 10)) (digit_char (y mod 10))
                       (Z.to_nat (m - 1))) by reflexivity.
  rewrite Es, parse_date_flexible_input.
  rewrite (shown_input _ _ _ _ D4 _ Hk).
  rewrite pattern1_checked.
  rewrite (shown_rule1 _ _ _ _ D1 D2 D3 D4 _ y Hk Hint).
  rewrite fix_year_high by lia.
  replace (Z.of_nat (Z.to_nat (m - 1)) + 1) with m by lia.
  rewrite checked_some; [reflexivity| |lia|lia].
  unfold valid_year. apply andb_true_iff. rewrite !Z.leb_le. lia.
Qed.

(** X22: a first-of-month date of a year between 1990 and the current
    year plus 20, written the way [index] shows dates
    ([strftime("%b %Y")], as in "Jun 2025"), is read back by the parser
    as the same date. *)
Theorem shown_date_parses_back now d :
  wf_date d -> day d = 1 -> 1990 <= year d <= year now + 20 ->
  parse_date_flexible now (strftime_b_Y d) = Some d.
Proof. apply shown_parse. Qed.

Lemma shown_date_parses_back_witness :
  parse_date_flexible sample_now (s2l "Jun 2025") = Some (Date 2025 6 1).
Proof.
  apply (shown_date_parses_back sample_now (Date 2025 6 1));
    [reflexivity|reflexivity|vm_compute; split; discriminate].
Defined.

(** X23: two dates in order, each a first of a month within the window
    of the parser, shown by [index] and given to [save_ocr] as they are
    shown, are stored unchanged. *)
Theorem shown_dates_are_stored now m e :
  wf_date now -> wf_date m -> wf_date e -> day m = 1 -> day e = 1 ->
  1990 <= year m <= year now + 20 -> 1990 <= year e <= year now + 20 ->
  date_ltb e m = false ->
  save_ocr_dates now (strftime_b_Y m) (strftime_b_Y e) = Some (m, e).
Proof.
  intros Hnow Hm He Dm De Ym Ye Ho.
  rewrite (save_ocr_dates_stored now _ _ Hnow).
  rewrite (shown_parse now m Hm Dm Ym), (shown_parse now e He De Ye).
  unfold stored. rewrite Ho. reflexivity.
Qed.

Lemma shown_dates_are_stored_witness :
  save_ocr_dates sample_now (s2l "Jun 2022") (s2l "Jun 2025")
  = Some (Date 2022 6 1, Date 2025 6 1).
Proof.
  apply (shown_dates_are_stored sample_now (Date 2022 6 1) (Date 2025 6 1));
    try reflexivity; vm_compute; split; discriminate.
Defined.

End DateFlow.

(** ** The corrections after the cascade *)

Module PostProcess.

Import ReFacts GroupFacts PeriodFacts ParserMore.

Definition canonical_brands : list text :=
  map s2l ["BIFILAC"; "RABEMI-DSR"; "Dolo-650"; "O2"]%string.

Definition canonical_manufacturers : list text :=
  map s2l ["TOA Pharmaceuticals"; "Meyer Organics"; "Micro Labs";
           "Paalmi Pharmaceuticals"; "Renewed Life Sciences"]%string.

Definition renamed (names : list text) (before after : option text) : Prop :=
  after = before \/ exists n, In n names /\ after = Some n.

Ltac pick_name :=
  right; eexists; split; [|reflexivity]; simpl; tauto.

Lemma brand_table_canonical k v :
  dict_find brand_corrections k = Some v -> In v canonical_brands.
Proof.
  unfold brand_corrections. cbn [dict_find].
  repeat match goal with
         | |- context [text_eqb k ?b] => destruct (text_eqb k b)
         end;
    intros H; try discriminate H; injection H as <-; simpl; tauto.
Qed.

Lemma manufacturer_table_canonical k v :
  first_correction manufacturer_corrections k = Some v ->
  In v canonical_manufacturers.
Proof.
  unfold manufacturer_corrections. cbn [first_correction].
  repeat match goal with
         | |- context [has ?a k] => destruct (has a k)
         end;
    intros H; try discriminate H; injection H as <-; simpl; tauto.
Qed.

Lemma correct_brand_renamed b : renamed canonical_brands b (correct_brand b).
Proof.
  unfold correct_brand. destruct b as [b|]; [|left; reflexivity].
  destruct (negb (truthy b)); [left; reflexivity|].
  destruct (dict_find brand_corrections _) as [v|] eqn:E.
  - right. exists v. split; [eapply brand_table_canonical; exact E|reflexivity].
  - repeat match goal with
           | |- context [if ?c then _ else _] => destruct c
           end; try (left; reflexivity); pick_name.
Qed.

Lemma detect_brand_renamed b ft : renamed canonical_brands b (detect_brand b ft).
Proof.
  unfold detect_brand. destruct (falsy b && negb (falsy ft)); [|left; reflexivity].
  repeat match goal with
         | |- context [if ?c then _ else _] => destruct c
         end; try (left; reflexivity); pick_name.
Qed.

Lemma correct_manufacturer_renamed m :
  renamed canonical_manufacturers m (correct_manufacturer m).
Proof.
  unfold correct_manufacturer. destruct m as [m|]; [|left; reflexivity].
  destruct (negb (truthy m)); [left; reflexivity|].
  destruct (first_correction manufacturer_corrections _) as [v|] eqn:E;
    [|left; reflexivity].
  right. exists v. split; [eapply manufacturer_table_canonical; exact E|reflexivity].
Qed.

Lemma detect_manufacturer_renamed m ft :
  renamed canonical_manufacturers m (detect_manufacturer m ft).
Proof.
  unfold detect_manufacturer.
  destruct (falsy m && negb (falsy ft)); [|left; reflexivity].
  repeat match goal with
         | |- context [if ?c then _ else _] => destruct c
         end; try (left; reflexivity); pick_name.
Qed.

Lemma renamed_trans names a b c :
  renamed names a b -> renamed names b c -> renamed names a c.
Proof.
  intros [->|H1] [->|H2]; [left; reflexivity|right; exact H2|right; exact H1|
                           right; exact H2].
Qed.

(** X24: post-processing renames and never invents: the brand comes out
    as it went in or as one of "BIFILAC", "RABEMI-DSR", "Dolo-650" and
    "O2"; the manufacturer as it went in or as one of the five names of
    the table; batch number, dates and price are handed through. *)
Theorem post_process_renames e full_text :
  renamed canonical_brands (brand e)
          (brand (post_process_extracted_data e full_text))
  /\ renamed canonical_manufacturers (manufacturer e)
             (manufacturer (post_process_extracted_data e full_text))
  /\ batch (post_process_extracted_data e full_text) = batch e
  /\ mfd_date (post_process_extracted_data e full_text) = mfd_date e
  /\ exp_date (post_process_extracted_data e full_text) = exp_date e
  /\ mrp_str (post_process_extracted_data e full_text) = mrp_str e.
Proof.
  unfold post_process_extracted_data.
  cbn [brand manufacturer batch mfd_date exp_date mrp_str].
  repeat split.
  - eapply renamed_trans; [apply correct_brand_renamed|apply detect_brand_renamed].
  - eapply renamed_trans; [apply correct_manufacturer_renamed
                          |apply detect_manufacturer_renamed].
Qed.

(** *** Correcting twice *)

Lemma canonical_brand_fixed n ft :
  In n canonical_brands ->
  correct_brand (Some n) = Some n /\ detect_brand (Some n) ft = Some n.
Proof.
  intros H. simpl in H.
  destruct H as [<-|[<-|[<-|[<-|[]]]]]; split; vm_compute; reflexivity.
Qed.

Lemma canonical_manufacturer_fixed n ft :
  In n canonical_manufacturers ->
  correct_manufacturer (Some n) = Some n /\ detect_manufacturer (Some n) ft = Some n.
Proof.
  intros H. simpl in H.
  destruct H as [<-|[<-|[<-|[<-|[<-|[]]]]]]; split; vm_compute; reflexivity.
Qed.

Lemma correct_brand_twice b : correct_brand (correct_brand b) = correct_brand b.
Proof.
  destruct (correct_brand_renamed b) as [E|(n & Hn & E)].
  - rewrite E. exact E.
  - rewrite E. apply (canonical_brand_fixed n None Hn).
Qed.

Lemma correct_manufacturer_twice m :
  correct_manufacturer (correct_manufacturer m) = correct_manufacturer m.
Proof.
  destruct (correct_manufacturer_renamed m) as [E|(n & Hn & E)].
  - rewrite E. exact E.
  - rewrite E. apply (canonical_manufacturer_fixed n None Hn).
Qed.

(** X25: post-processing its own result, with the same text, changes
    neither the brand nor the manufacturer, nor the fields it hands
    through. *)
Theorem post_process_twice e full_text :
  let once := post_process_extracted_data e full_text in
  let twice := post_process_extracted_data once full_text in
  brand twice = brand once /\ manufacturer twice = manufacturer once
  /\ batch twice = batch once /\ mfd_date twice = mfd_date once
  /\ exp_date twice = exp_date once /\ mrp_str twice = mrp_str once.
Proof.
  unfold post_process_extracted_data.
  cbn [brand manufacturer batch mfd_date exp_date mrp_str].
  repeat split.
  - destruct (detect_brand_renamed (correct_brand (brand e)) full_text)
      as [E|(n & Hn & E)].
    + rewrite E, correct_brand_twice. exact E.
    + rewrite E. destruct (canonical_brand_fixed n full_text Hn) as [-> ->].
      reflexivity.
  - destruct (detect_manufacturer_renamed (correct_manufacturer (manufacturer e))
                full_text) as [E|(n & Hn & E)].
    + rewrite E, correct_manufacturer_twice. exact E.
    + rewrite E. destruct (canonical_manufacturer_fixed n full_text Hn) as [-> ->].
      reflexivity.
Qed.
(** *** The dosage *)

Definition starts_other (p : ascii -> bool) (rest : text) : Prop :=
  match rest with c :: _ => p c = false | [] => True end.

(** A greedy run reads a whole stretch of its class when what follows
    lets the rest of the pattern match. *)
Lemma rep_greedy_prefix {A : Type} p (k : @cont A) r :
  forall w lo prev rest caps,
    forallb p w = true -> starts_other p rest -> (lo <= List.length w)%nat ->
    k (last_char w prev) rest caps = Some r ->
    rep_greedy p lo None prev (w ++ rest) caps k = Some r.
Proof.
  induction w as [|c w IH]; intros lo prev rest caps Hall Hrest Hlo Hk.
  - cbn [app]. simpl in Hlo. assert (lo = 0%nat) by lia. subst lo.
    destruct rest as [|x rest]; cbn [rep_greedy]; [exact Hk|].
    simpl in Hrest. rewrite Hrest. exact Hk.
  - cbn [forallb] in Hall. apply andb_true_iff in Hall. destruct Hall as [Hc Hall].
    cbn [app rep_greedy]. rewrite Hc. cbn [andb hi_open hi_pred option_map].
    rewrite (IH (pred lo) (Some c) rest caps Hall Hrest); [reflexivity| |].
    + simpl in Hlo. lia.
    + rewrite <- last_char_cons with (prev := prev). exact Hk.
Qed.

Definition dose_units : list text := map s2l ["mg"; "mcg"; "g"; "ml"]%string.

Lemma lower_letter c x :
  lower_char c = x -> is_lower x = true ->
  is_space c = false /\ is_digit c = false.
Proof.
  intros <-. destruct c as [b0 b1 b2 b3 b4 b5 b6 b7].
  destruct b0, b1, b2, b3, b4, b5, b6, b7; intros H;
    try discriminate H; split; reflexivity.
Qed.

Ltac closed_eqb :=
  repeat match goal with
         | |- context [ascii_eqb (Ascii ?a0 ?a1 ?a2 ?a3 ?a4 ?a5 ?a6 ?a7)
                                 (lower_char (Ascii ?b0 ?b1 ?b2 ?b3 ?b4 ?b5 ?b6 ?b7))] =>
             let t := constr:(ascii_eqb (Ascii a0 a1 a2 a3 a4 a5 a6 a7)
                                (lower_char (Ascii b0 b1 b2 b3 b4 b5 b6 b7))) in
             let v := eval vm_compute in t in change t with v
         end.

(** The unit, in any letter case, at the end of the text. *)
Lemma unit_match u prev caps :
  In (lower u) dose_units ->
  run (RGroup 2 (alts [lit_ci "mg"; lit_ci "mcg"; lit_ci "g"; lit_ci "ml"]))
      prev u caps (fun _ s' caps' => Some (s', caps'))
  = Some ([], (2%nat, u) :: caps).
Proof.
  intros H. unfold dose_units in H. simpl in H.
  unfold lit_ci. cbn [s2l list_ascii_of_string map alts seqs].
  destruct H as [H|[H|[H|[H|[]]]]];
    repeat (destruct u as [|? u]; try discriminate H);
    cbn [lower map] in H; injection H as H; intros;
    cbn [run orelse]; unfold is_char_ci;
    repeat match goal with
           | E : ?x = lower_char ?c |- _ => rewrite <- E
           end;
    closed_eqb; cbn [orelse];
    match goal with
    | |- context [consumed ?s []] =>
        replace (consumed s []) with s
          by (symmetry; rewrite <- (app_nil_r s) at 1; apply consumed_app)
    end; reflexivity.
Qed.

Lemma sub_from_skip_all r repl :
  (forall p, match_here r p [] = None) ->
  forall s prev k, (List.length s <= k)%nat -> sub_from r repl prev s k = [].
Proof.
  intros Hr. induction s as [|c s IH]; intros prev k Hk.
  - destruct k; simpl; [rewrite Hr|]; reflexivity.
  - destruct k; [simpl in Hk; lia|]. simpl. apply IH. simpl in Hk. lia.
Qed.

Lemma unit_first_char u :
  In (lower u) dose_units ->
  exists c u', u = c :: u' /\ is_space c = false /\ is_digit c = false
               /\ exists v z, u = v ++ [z] /\ is_space z = false.
Proof.
  intros H. unfold dose_units in H. simpl in H.
  destruct H as [H|[H|[H|[H|[]]]]];
    repeat (destruct u as [|? u]; try discriminate H);
    cbn [lower map] in H; injection H as H; intros;
    repeat match goal with
           | E : ?x = lower_char ?c |- _ =>
               let F := fresh in
               pose proof (lower_letter c x (eq_sym E) eq_refl) as F;
               clear E; destruct F
           end.
  - eexists _, _. repeat split; try eassumption.
    exists [a], a0. split; [reflexivity|assumption].
  - eexists _, _. repeat split; try eassumption.
    exists [a; a0], a1. split; [reflexivity|assumption].
  - eexists _, _. repeat split; try eassumption.
    exists [], a. split; [reflexivity|assumption].
  - eexists _, _. repeat split; try eassumption.
    exists [a], a0. split; [reflexivity|assumption].
Qed.

Lemma dose_match d D W u :
  forallb is_digit (d :: D) = true -> forallb is_space W = true ->
  In (lower u) dose_units ->
  match_here re_dose_unit None ((d :: D) ++ W ++ u)
  = Some ([], [(2%nat, u); (1%nat, d :: D)]).
Proof.
  intros HD HW Hu.
  destruct (unit_first_char u Hu) as (c & u' & Eu & Hcs & Hcd & _).
  unfold match_here, re_dose_unit, plus, star. cbn [seqs run].
  apply rep_greedy_prefix; [exact HD| |simpl; lia|].
  - destruct W as [|x W]; cbn [app starts_other].
    + rewrite Eu. exact Hcd.
    + cbn [forallb] in HW. apply andb_true_iff in HW.
      destruct (is_digit x) eqn:E; [|reflexivity].
      rewrite (digit_not_space x E) in HW. destruct HW. discriminate.
  - rewrite consumed_app.
    apply rep_greedy_prefix; [exact HW| |lia|].
    + rewrite Eu. exact Hcs.
    + apply unit_match. exact Hu.
Qed.

(** X26: a dosage made of a number, whitespace or none, and one of the
    units mg, mcg, g and ml in any letter case comes out as the number,
    one space and the unit: "650mg" becomes "650 mg". *)
Theorem dosage_number_space_unit D W u :
  D <> [] -> forallb is_digit D = true -> forallb is_space W = true ->
  In (lower u) dose_units ->
  clean_dosage (Some (D ++ W ++ u)) = Some (D ++ s2l " " ++ u).
Proof.
  intros HD Hd HW Hu. destruct D as [|d D]; [congruence|].
  unfold clean_dosage. cbn [app truthy negb]. f_equal.
  assert (Hs : strip (d :: D ++ W ++ u) = d :: D ++ W ++ u).
  { destruct (unit_first_char u Hu) as (c & u' & _ & _ & _ & v & z & Ev & Hz).
    cbn [forallb] in Hd. apply andb_true_iff in Hd. destruct Hd as [Hd0 _].
    unfold strip. rewrite lstrip_nonspace by (apply digit_not_space; exact Hd0).
    rewrite Ev.
    replace (d :: D ++ W ++ v ++ [z]) with ((d :: D ++ W ++ v) ++ [z])
      by (cbn [app]; rewrite <- !app_assoc; reflexivity).
    apply rstrip_last. exact Hz. }
  rewrite Hs. unfold sub. cbn [sub_from].
  change (d :: D ++ W ++ u) with ((d :: D) ++ W ++ u) at 1.
  rewrite (dose_match d D W u Hd HW Hu).
  unfold dose_space_unit. cbn [lookup Nat.eqb List.length Nat.sub].
  rewrite sub_from_skip_all; [rewrite app_nil_r; reflexivity| |lia].
  intros p. reflexivity.
Qed.

Lemma dosage_number_space_unit_witness :
  clean_dosage (Some (s2l "650MG")) = Some (s2l "650 MG").
Proof.
  apply (dosage_number_space_unit (s2l "650") [] (s2l "MG"));
    [discriminate|reflexivity|reflexivity|simpl; tauto].
Defined.

End PostProcess.

(** ** Dates next to a label, and the dates [index] stores *)

Module LabeledDates.

Import DateFacts ParseFacts GroupFacts ReconcileFacts BareYear DateFlow.

(** *** Substrings *)

Lemma starts_with_prefix p s :
  starts_with p s = true <-> exists r, s = p ++ r.
Proof.
  revert s. induction p as [|a p IH]; intros s.
  - simpl. split; [intros _; exists s; reflexivity|reflexivity].
  - destruct s as [|b s]; simpl.
    + split; [discriminate|intros [r H]; discriminate].
    + rewrite andb_true_iff, IH. split.
      * intros [Hab [r ->]]. apply ascii_eqb_eq in Hab. subst b.
        exists r. reflexivity.
      * intros [r H]. injection H as -> ->. split; [|exists r; reflexivity].
        unfold ascii_eqb. apply Nat.eqb_refl.
Qed.

Lemma contains_infix k h :
  contains k h = true <-> exists a b, h = a ++ k ++ b.
Proof.
  induction h as [|c h IH].
  - simpl. rewrite orb_false_r, starts_with_prefix. split.
    + intros [r H]. exists [], r. exact H.
    + intros (a & b & H). destruct a; [|discriminate]. exists b. exact H.
  - cbn [contains]. rewrite orb_true_iff, starts_with_prefix, IH. split.
    + intros [[r H]|(a & b & H)].
      * exists [], r. exact H.
      * exists (c :: a), b. rewrite H. reflexivity.
    + intros (a & b & H). destruct a as [|x a].
      * left. exists b. exact H.
      * right. injection H as _ H. exists a, b. exact H.
Qed.

Lemma str_find_none k h : contains k h = false -> str_find k h = None.
Proof.
  induction h as [|c h IH]; cbn [contains str_find]; intros H;
    apply orb_false_iff in H; destruct H as [-> H].
  - reflexivity.
  - rewrite (IH H). reflexivity.
Qed.

(** Every line of [splitlines] is a piece of the text. *)
Lemma splitlines_aux_infix n :
  forall s cur l, (List.length s <= n)%nat ->
    In l (splitlines_aux s cur) -> exists a b, rev cur ++ s = a ++ l ++ b.
Proof.
  induction n as [|n IH]; intros s cur l Hn.
  - destruct s; [|simpl in Hn; lia]. simpl.
    destruct cur; [intros []|]. intros [<-|[]].
    exists [], []. rewrite !app_nil_r. reflexivity.
  - destruct s as [|c s].
    + simpl. destruct cur; [intros []|]. intros [<-|[]].
      exists [], []. rewrite !app_nil_r. reflexivity.
    + cbn [List.length] in Hn. cbn [splitlines_aux].
      destruct (is_linebreak c).
      * intros [<-|H].
        { exists [], (c :: s). reflexivity. }
        destruct s as [|d s']; [destruct H|].
        cbn [List.length] in Hn.
        destruct ((code c =? 13) && (code d =? 10))%nat.
        -- apply IH in H; [|lia]. destruct H as (a & b & H). simpl in H.
           exists (rev cur ++ c :: d :: a), b. rewrite H, <- app_assoc. reflexivity.
        -- apply IH in H; [|cbn [List.length]; lia]. destruct H as (a & b & H).
           simpl in H. exists (rev cur ++ c :: a), b.
           rewrite H, <- app_assoc. reflexivity.
      * intros H. apply IH in H; [|lia]. destruct H as (a & b & H).
        exists a, b. rewrite <- H. simpl. rewrite <- app_assoc. reflexivity.
Qed.

Lemma splitlines_infix s l :
  In l (splitlines s) -> exists a b, s = a ++ l ++ b.
Proof.
  intros H. apply (splitlines_aux_infix (List.length s) s [] l (le_n _)) in H.
  exact H.
Qed.

Lemma line_keyword k s l :
  In l (splitlines s) -> contains k (lower l) = true ->
  contains k (lower s) = true.
Proof.
  intros Hl Hk. apply splitlines_infix in Hl. destruct Hl as (a & b & ->).
  apply contains_infix in Hk. destruct Hk as (x & y & Hk).
  apply contains_infix. exists (lower a ++ x), (y ++ lower b).
  unfold lower in *. rewrite !map_app, Hk, <- !app_assoc. reflexivity.
Qed.

(** *** What the labelled search returns *)

Section Clock.

Variable now : date.

Lemma first_date_some {A : Type} (body : A -> option date) xs d :
  first_date body xs = Some d -> exists x, In x xs /\ body x = Some d.
Proof.
  induction xs as [|x xs IH]; [discriminate|]. cbn [first_date]. intros H.
  apply first_some_some in H. destruct H as [H|[_ H]].
  - exists x. split; [left; reflexivity|exact H].
  - destruct (IH H) as (y & Hy & Hb). exists y. split; [right; exact Hy|exact Hb].
Qed.

Lemma first_date_none {A : Type} (body : A -> option date) xs :
  (forall x, In x xs -> body x = None) -> first_date body xs = None.
Proof.
  induction xs as [|x xs IH]; intros H; [reflexivity|]. cbn [first_date].
  rewrite (H x (or_introl eq_refl)). simpl. apply IH.
  intros y Hy. apply H. right. exact Hy.
Qed.

Lemma date_in_scope_accepted scope d :
  date_in_scope now scope = Some d -> accepted now d.
Proof.
  unfold date_in_scope. intros H. apply first_some_some in H.
  destruct H as [H|[_ H]].
  - destruct (search DATE_TOKEN_RE scope) as [m|]; [|discriminate].
    eapply parse_date_flexible_accepted. exact H.
  - unfold month_and_year in H.
    destruct (finditer mon_re scope) as [|m0 ms]; [discriminate|].
    destruct (finditer yr_re scope) as [|y0 ys]; [discriminate|].
    apply first_date_some in H. destruct H as (mon & _ & H).
    apply first_date_some in H. destruct H as (yr & _ & H).
    unfold month_with_year in H.
    destruct (_ && _); [|discriminate].
    eapply parse_date_flexible_accepted. exact H.
Qed.

Lemma labeled_lines_accepted kws lines d :
  labeled_lines now kws lines = Some d -> accepted now d.
Proof.
  induction lines as [|line rest IH]; [discriminate|]. cbn [labeled_lines].
  destruct (existsb _ kws); [|exact IH].
  destruct (_ || _); [exact IH|].
  intros H. apply first_some_some in H. destruct H as [H|[_ H]].
  - eapply date_in_scope_accepted. exact H.
  - apply IH. exact H.
Qed.

Lemma labeled_window_accepted text_ kws d :
  labeled_window now text_ kws = Some d -> accepted now d.
Proof.
  unfold labeled_window. intros H. apply first_date_some in H.
  destruct H as (k & _ & H).
  destruct (str_find k (lower text_)); [|discriminate].
  eapply date_in_scope_accepted. exact H.
Qed.

Lemma find_labeled_date_dt_accepted text_ keywords d :
  find_labeled_date_dt now text_ keywords = Some d -> accepted now d.
Proof.
  unfold find_labeled_date_dt. destruct (negb (truthy text_)); [discriminate|].
  intros H. apply first_some_some in H. destruct H as [H|[_ H]].
  - eapply labeled_lines_accepted. exact H.
  - eapply labeled_window_accepted. exact H.
Qed.

Lemma labeled_lines_no_keyword kws lines :
  (forall l k, In l lines -> In k kws -> contains k (lower l) = false) ->
  labeled_lines now kws lines = None.
Proof.
  induction lines as [|line rest IH]; intros H; [reflexivity|].
  cbn [labeled_lines].
  assert (E : existsb (fun k => contains k (lower line)) kws = false).
  { destruct (existsb _ kws) eqn:E; [|reflexivity].
    apply existsb_exists in E. destruct E as (k & Hk & E).
    rewrite (H line k (or_introl eq_refl) Hk) in E. discriminate. }
  rewrite E. apply IH. intros l k Hl Hk. apply H; [right; exact Hl|exact Hk].
Qed.

Lemma find_labeled_date_dt_no_keyword text_ keywords :
  (forall k, In k keywords -> contains (lower k) (lower text_) = false) ->
  find_labeled_date_dt now text_ keywords = None.
Proof.
  intros H. unfold find_labeled_date_dt.
  destruct (negb (truthy text_)); [reflexivity|].
  assert (K : forall k, In k (map lower keywords) ->
                        contains k (lower text_) = false).
  { intros k Hk. apply in_map_iff in Hk. destruct Hk as (k0 & <- & Hk0).
    apply H. exact Hk0. }
  rewrite labeled_lines_no_keyword.
  - simpl. unfold labeled_window. apply first_date_none. intros k Hk.
    rewrite (str_find_none _ _ (K k Hk)). reflexivity.
  - intros l k Hl Hk. destruct (contains k (lower l)) eqn:E; [|reflexivity].
    rewrite <- (K k Hk). symmetry. eapply line_keyword; eassumption.
Qed.

End Clock.

(** X27: a date found next to a label is a date of the calendar whose
    year lies between 1990 and the current year plus 20; and no date is
    found in a text in which none of the keywords occurs, in any case of
    the letters. *)
Theorem labeled_date_needs_keyword now text_ keywords :
  (forall d, find_labeled_date_dt now text_ keywords = Some d ->
             1990 <= year d <= year now + 20 /\ wf_date d)
  /\ ((forall k, In k keywords -> contains (lower k) (lower text_) = false) ->
      find_labeled_date_dt now text_ keywords = None).
Proof.
  split.
  - intros d H. apply find_labeled_date_dt_accepted in H. destruct H as [Hw Hv].
    unfold valid_year in Hv. apply andb_true_iff in Hv.
    rewrite !Z.leb_le in Hv. auto.
  - apply find_labeled_date_dt_no_keyword.
Qed.

Lemma labeled_date_needs_keyword_witness :
  find_labeled_date_dt sample_now (s2l "Dolo 650 06/2024") mfg_keywords = None
  /\ find_labeled_date_dt sample_now (s2l "Mfg. 06/2024") mfg_keywords
     = Some (Date 2024 6 1).
Proof.
  split; [|vm_compute; reflexivity].
  apply (proj2 (labeled_date_needs_keyword sample_now (s2l "Dolo 650 06/2024")
                  mfg_keywords)).
  intros k Hk. unfold mfg_keywords in Hk. simpl in Hk.
  repeat (destruct Hk as [<-|Hk]; [vm_compute; reflexivity|]). destruct Hk.
Defined.

(** *** The dates [index] stores *)

Lemma gemini_accepted now s d :
  parse_date_from_gemini now s = Some d -> accepted now d.
Proof.
  intros H. apply gemini_cases in H. destruct H as [H|(yyyy & mm & Hg & H)].
  - eapply parse_date_flexible_accepted. exact H.
  - split; [exact (mk_date_wf _ _ _ _ H)|].
    apply mk_date_some in H. destruct H as [-> _]. exact Hg.
Qed.

Lemma extracted_date_accepted now field d :
  extracted_date now field = Some d -> accepted now d.
Proof.
  unfold extracted_date. destruct field as [v|]; [|discriminate].
  destruct (_ && _); [|discriminate]. apply gemini_accepted.
Qed.

(** The date of a field: the extracted string, or else the label. *)
Definition field_date (now : date) (field : option text) (text_ : text)
    (keywords : list text) : option date :=
  date_or (extracted_date now field) (find_labeled_date_dt now text_ keywords).

Lemma field_date_accepted now field text_ keywords d :
  field_date now field text_ keywords = Some d -> accepted now d.
Proof.
  unfold field_date, date_or.
  destruct (extracted_date now field) as [x|] eqn:E.
  - intros H. injection H as <-. eapply extracted_date_accepted. exact E.
  - apply find_labeled_date_dt_accepted.
Qed.

Lemma accepted_years now d :
  accepted now d -> wf_date d /\ 1990 <= year d <= year now + 20.
Proof.
  intros [Hw Hv]. unfold valid_year in Hv. apply andb_true_iff in Hv.
  rewrite !Z.leb_le in Hv. auto.
Qed.

Lemma field_date_wf now field text_ keywords :
  opt_wf (field_date now field text_ keywords).
Proof.
  destruct (field_date now field text_ keywords) as [d|] eqn:E; [|exact I].
  apply field_date_accepted in E. apply E.
Qed.

Lemma field_date_years now field text_ keywords :
  year now <= 9900 -> opt_years 10 9990 (field_date now field text_ keywords).
Proof.
  intros Hy. destruct (field_date now field text_ keywords) as [d|] eqn:E; [|exact I].
  apply field_date_accepted, accepted_years in E. simpl. lia.
Qed.

Lemma find_labeled_date_dt_empty now keywords :
  find_labeled_date_dt now [] keywords = None.
Proof. reflexivity. Qed.

(** X28: the two dates [index] stores are in order, the manufacture date
    not after the expiry date, whatever was extracted and whatever the
    text holds; and with a clock up to the year 9900 the stage always
    gives two dates. *)
Theorem index_dates_ordered now mfd_date exp_date full_text :
  wf_date now ->
  (forall m e, index_dates now mfd_date exp_date full_text = Some (m, e) ->
               date_leb m e = true)
  /\ (year now <= 9900 ->
      exists m e, index_dates now mfd_date exp_date full_text = Some (m, e)).
Proof.
  intros Hnow. unfold index_dates.
  set (text_ := match full_text with Some t => t | None => [] end).
  fold (field_date now mfd_date text_ mfg_keywords).
  fold (field_date now exp_date text_ exp_keywords).
  pose proof (field_date_wf now mfd_date text_ mfg_keywords) as Wm.
  pose proof (field_date_wf now exp_date text_ exp_keywords) as We.
  split.
  - intros m e.
    destruct (if truthy text_ then _ else _) as [[m' e']|]; [|discriminate].
    destruct (date_or e' _) as [x|]; [|discriminate].
    destruct (date_ltb x _) eqn:E; intros H; injection H as <- <-.
    + apply date_ltb_leb. exact E.
    + unfold date_leb. rewrite E. reflexivity.
  - intros Hy.
    pose proof (field_date_years now mfd_date text_ mfg_keywords Hy) as Ym.
    pose proof (field_date_years now exp_date text_ exp_keywords Hy) as Ye.
    destruct (truthy text_).
    + destruct (reconcile_returns now text_ _ _ Hnow Wm We Hy Ym Ye) as (a & b & ->).
      cbn [option_map fst snd date_or]. destruct (date_ltb b a); eauto.
    + destruct (field_date now exp_date text_ exp_keywords) as [e|];
        cbn [date_or].
      * match goal with |- context [date_ltb e ?m] => destruct (date_ltb e m) end; eauto.
      * assert (Hm : exists d, (match field_date now mfd_date text_ mfg_keywords with
                                | Some d => d | None => now end) = d
                               /\ wf_date d /\ year d <= 9990).
        { destruct (field_date now mfd_date text_ mfg_keywords) as [d|].
          - exists d. simpl in Wm, Ym. repeat split; [exact Wm|lia].
          - exists now. repeat split; [exact Hnow|lia]. }
        destruct Hm as (d & -> & Hw & Hd).
        destruct (add_months_forward d 24 Hw ltac:(lia) Hd) as [x ->].
        destruct (date_ltb x d); eauto.
Qed.

Lemma index_dates_ordered_witness :
  exists m e,
    index_dates sample_now (Some (s2l "JAN.24")) None (Some (s2l "Dolo 650"))
    = Some (m, e).
Proof.
  refine (proj2 (index_dates_ordered sample_now (Some (s2l "JAN.24")) None
                   (Some (s2l "Dolo 650")) _) _).
  - reflexivity.
  - vm_compute. discriminate.
Defined.

(** X29: with a text, the dates [index] stores are those the reconciler
    returns for the two field dates, and neither the defaults nor the
    closing swap are used.  Without a text they are the two extracted
    dates, the earlier one first; the manufacture date and the month 24
    months later; today and the expiry date, the earlier one first; or
    today and the month 24 months later. *)
Theorem index_dates_cases now mfd_date exp_date :
  wf_date now ->
  (forall t, truthy t = true ->
     index_dates now mfd_date exp_date (Some t)
     = reconcile_dates_from_text now t
         (field_date now mfd_date t mfg_keywords)
         (field_date now exp_date t exp_keywords))
  /\ (forall full_text, falsy full_text = true ->
       index_dates now mfd_date exp_date full_text
       = match extracted_date now mfd_date, extracted_date now exp_date with
         | Some m, Some e => if date_ltb e m then Some (e, m) else Some (m, e)
         | Some m, None => with_expiry m (add_months m 24)
         | None, Some e => if date_ltb e now then Some (e, now) else Some (now, e)
         | None, None => with_expiry now (add_months now 24)
         end).
Proof.
  intros Hnow. split.
  - intros t Ht. unfold index_dates. rewrite Ht.
    fold (field_date now mfd_date t mfg_keywords).
    fold (field_date now exp_date t exp_keywords).
    destruct (reconcile_dates_from_text now t _ _) as [[a b]|] eqn:E; [|reflexivity].
    cbn [option_map fst snd date_or].
    pose proof (reconcile_pair_ordered now t _ _ a b Hnow
                  (field_date_wf now mfd_date t mfg_keywords)
                  (field_date_wf now exp_date t exp_keywords) E) as Ho.
    unfold date_leb in Ho. apply negb_true_iff in Ho. rewrite Ho. reflexivity.
  - intros full_text Hf.
    assert (Et : match full_text with Some t => t | None => [] end = []).
    { destruct full_text as [[|c t]|]; [reflexivity|discriminate|reflexivity]. }
    unfold index_dates. rewrite Et. cbn [truthy].
    rewrite !find_labeled_date_dt_empty.
    destruct (extracted_date now mfd_date) as [m|] eqn:Em;
      destruct (extracted_date now exp_date) as [e|] eqn:Ee; cbn [date_or].
    + reflexivity.
    + destruct (add_months m 24) as [x|] eqn:Ea; [|reflexivity].
      apply extracted_date_accepted in Em.
      rewrite (date_ltb_asym m x (add_months_later m 24 x (proj1 Em) ltac:(lia) Ea)).
      reflexivity.
    + reflexivity.
    + destruct (add_months now 24) as [x|] eqn:Ea; [|reflexivity].
      rewrite (date_ltb_asym now x (add_months_later now 24 x Hnow ltac:(lia) Ea)).
      reflexivity.
Qed.

Lemma index_dates_cases_witness :
  index_dates sample_now None (Some (s2l "05/2020")) None
  = Some (Date 2020 5 1, sample_now).
Proof.
  rewrite (proj2 (index_dates_cases sample_now None (Some (s2l "05/2020")) eq_refl)
             None eq_refl).
  vm_compute. reflexivity.
Defined.

End LabeledDates.

(** ** The batch number read off the text *)

Module BatchFallback.

Import ReFacts GroupFacts.

(** An optional letter, four digits or more, then letters and digits. *)
Definition batch_shape (v : text) : Prop :=
  exists a d t,
    v = a ++ d ++ t
    /\ (List.length a <= 1)%nat /\ forallb is_alpha a = true
    /\ (4 <= List.length d)%nat /\ forallb is_digit d = true
    /\ forallb is_alnum t = true.

Ltac read_steps :=
  repeat match goal with
         | H : steps (RSeq _ _) _ _ _ _ _ _ |- _ => inversion H; subst; clear H
         | H : steps (RChar _) _ _ _ _ _ _ |- _ => inversion H; subst; clear H
         | H : steps (RRep _ _ _) _ _ _ _ _ _ |- _ => inversion H; subst; clear H
         | H : steps RWordB _ _ _ _ _ _ |- _ => inversion H; subst; clear H
         end.

Lemma fallback_code_shape p0 s0 c0 p1 s1 c1 :
  steps fallback_code p0 s0 c0 p1 s1 c1 ->
  c1 = c0 /\ batch_shape (consumed s0 s1).
Proof.
  unfold fallback_code, opt_char, star. cbn [seqs]. intros H. read_steps.
  split; [reflexivity|].
  match goal with
  | |- batch_shape (consumed (?a ++ ?d ++ ?t ++ ?s) ?s) =>
      exists a, d, t;
      replace (a ++ d ++ t ++ s) with ((a ++ d ++ t) ++ s)
        by (rewrite <- !app_assoc; reflexivity)
  end.
  rewrite consumed_app. simpl in *. repeat split; assumption.
Qed.

Lemma upper_is_alpha c : is_upper c = true -> is_alpha c = true.
Proof. unfold is_alpha. intros ->. reflexivity. Qed.

Lemma text_eqb_eq a b : text_eqb a b = true -> a = b.
Proof.
  revert b. induction a as [|x a IH]; intros [|y b] H; simpl in H;
    try discriminate H.
  - reflexivity.
  - apply andb_true_iff in H. destruct H as [H1 H2].
    apply BareYear.ascii_eqb_eq in H1. rewrite H1, (IH b H2). reflexivity.
Qed.

Lemma first_batch_found (P : option text -> Prop) text_ patterns found :
  (forall pattern m, In pattern patterns -> search pattern text_ = Some m ->
                     P (group m 1)) ->
  first_batch text_ patterns = Some found -> P found.
Proof.
  induction patterns as [|pattern rest IH]; intros HP; [discriminate|].
  cbn [first_batch]. destruct (search pattern text_) as [m|] eqn:E.
  - intros H. injection H as <-. apply (HP pattern m); [left; reflexivity|exact E].
  - apply IH. intros q m Hq. apply HP. right. exact Hq.
Qed.

Ltac group_of_match m :=
  match goal with
  | Hc : _ :: _ = m_caps m |- _ => unfold group; rewrite <- Hc
  end;
  cbn [lookup Nat.eqb]; eexists; split; [reflexivity|].

Lemma first_batch_shape text_ found :
  first_batch text_ batch_patterns = Some found ->
  exists v, found = Some v /\ batch_shape v.
Proof.
  apply (first_batch_found (fun found => exists v, found = Some v /\ batch_shape v)).
  intros pattern m Hp Hs. apply search_sound in Hs.
  destruct Hs as (pre & p1 & _ & H).
  unfold batch_patterns in Hp. cbn [In] in Hp.
  destruct Hp as [<-|[<-|[<-|[<-|[]]]]].
  - unfold Patterns.label_end, Patterns.dot_opt, Patterns.ws, lit_ci, opt_char, star in H.
    cbn [seqs map s2l list_ascii_of_string] in H.
    read_steps.
    match goal with
    | H : steps (RGroup 1 fallback_code) _ _ _ _ _ _ |- _ =>
        inversion H as [| | | | | | |? ? ? ? ? ? ? ? Hb| | | |]; subst; clear H
    end.
    apply fallback_code_shape in Hb. destruct Hb as [_ Hb].
    group_of_match m. exact Hb.
  - unfold Patterns.label_end, Patterns.dot_opt, Patterns.ws, lit_ci, opt_char, star in H.
    cbn [seqs map s2l list_ascii_of_string] in H.
    read_steps.
    match goal with
    | H : steps (RGroup 1 fallback_code) _ _ _ _ _ _ |- _ =>
        inversion H as [| | | | | | |? ? ? ? ? ? ? ? Hb| | | |]; subst; clear H
    end.
    apply fallback_code_shape in Hb. destruct Hb as [_ Hb].
    group_of_match m. exact Hb.
  - cbn [seqs] in H. read_steps.
    match goal with
    | H : steps (RGroup 1 _) _ _ _ _ _ _ |- _ =>
        inversion H as [| | | | | | |? ? ? ? ? ? ? ? Hb| | | |]; subst; clear H
    end.
    read_steps. group_of_match m.
    match goal with
    | E : _ = m_text m ++ m_post m |- _ => rewrite <- E
    end.
    match goal with
    | |- batch_shape (consumed (?c :: ?d ++ ?s) ?s) =>
        exists [c], d, []; change (c :: d ++ s) with ((c :: d) ++ s)
    end.
    rewrite consumed_app. simpl. rewrite app_nil_r.
    repeat split; try assumption; try lia.
    rewrite andb_true_r. apply upper_is_alpha. assumption.
  - inversion H as [| | | | | | |? ? ? ? ? ? ? ? Hb| | | |]; subst; clear H.
    read_steps. group_of_match m.
    match goal with
    | E : _ = m_text m ++ m_post m |- _ => rewrite <- E
    end.
    match goal with
    | |- batch_shape (consumed (?d ++ ?s) ?s) => exists [], d, []
    end.
    rewrite consumed_app. simpl. rewrite app_nil_r.
    repeat split; try assumption; lia.
Qed.

(** X30: a batch number that was extracted is kept; where none was
    extracted, the fallback leaves the field as it is or fills it with a
    piece of text made of an optional letter, at least four digits, and
    then letters and digits only. *)
Theorem fallback_batch_shape batch full_text :
  (falsy batch = false -> batch <> Some INFO_NA ->
   fallback_batch batch full_text = batch)
  /\ (fallback_batch batch full_text = batch
      \/ exists v, fallback_batch batch full_text = Some v /\ batch_shape v).
Proof.
  unfold fallback_batch. split.
  - intros Hf Hn. rewrite Hf. destruct batch as [b|]; [|discriminate].
    destruct (text_eqb b INFO_NA) eqn:E; [|reflexivity].
    exfalso. apply Hn. f_equal. apply text_eqb_eq. exact E.
  - destruct (falsy batch || _); [|left; reflexivity].
    destruct (first_batch _ batch_patterns) as [found|] eqn:E; [|left; reflexivity].
    right. apply first_batch_shape in E. exact E.
Qed.

Lemma fallback_batch_shape_witness :
  fallback_batch (Some (s2l "ALA306")) (Some (s2l "Batch: E40001")) = Some (s2l "ALA306")
  /\ fallback_batch None (Some (s2l "Batch: E40001")) = Some (s2l "E40001").
Proof.
  split; [|vm_compute; reflexivity].
  apply (proj1 (fallback_batch_shape (Some (s2l "ALA306")) (Some (s2l "Batch: E40001")))).
  - reflexivity.
  - discriminate.
Defined.

End BatchFallback.
